(** * OpenDiablo2/cof: the AnimData.d2 decoder and the COF codec

    A shallow embedding of [animdata.go] and [cof_layer.go] (package
    [cof]) and the properties of their decoders and encoder.

    Go values are modelled as follows: a [byte] is [Byte.byte], a
    [[]byte] is [list byte], an [int], [uint32], [uint16] or an enum over
    [int] is [Z] (the conversion [byte(x)] keeps the low eight bits), a
    [string] is [string] (one character per byte), a slice is a [list],
    a map is a [gmap], and a pointer that may be [nil] is an [option]. *)

From Stdlib Require Import ZArith Lia List Bool.
From Stdlib Require Import Strings.Byte Strings.Ascii Strings.String.
From stdpp Require Import base option list gmap strings.

Local Open Scope Z_scope.

(** ** Go conversions between [byte] and [int] *)

(** [int(b)], [FrameEvent(b)], [CompositeType(b)], [DrawEffect(b)]. *)
Definition int_of_byte (b : byte) : Z := Z.of_N (Byte.to_N b).

(** [byte(x)]: truncation to the low eight bits. *)
Definition byte_of_int (x : Z) : byte :=
  match Byte.of_N (Z.to_N (x mod 256)) with
  | Some b => b
  | None => x00
  end.

(** [string(bs)] and [[]byte(s)]. *)
Definition string_of_bytes (bs : list byte) : string := string_of_list_byte bs.
Definition bytes_of_string (s : string) : list byte := list_byte_of_string s.

(** ** Errors

    The error values the two decoders can return.  [PanicIndexOutOfRange]
    stands for the Go run-time panic of an index or slice expression out of
    range: it aborts the call instead of returning. *)
Inductive error : Type :=
  | ErrOutOfData
  | ErrTooManyRecords
  | ErrMissingTerminator
  | ErrUnableToParse
  | PanicIndexOutOfRange.

Inductive result (A : Type) : Type :=
  | Ok (a : A)
  | Err (e : error).
Arguments Ok {A} a.
Arguments Err {A} e.

Definition rbind {A B : Type} (m : result A) (f : A -> result B) : result B :=
  match m with
  | Ok a => f a
  | Err e => Err e
  end.

Notation "x <- m ;; k" := (rbind m (fun x => k))
  (at level 100, m at next level, right associativity).

(** [s[i]] on a slice: panics out of range. *)
Definition index {A : Type} (s : list A) (i : nat) : result A :=
  match s !! i with
  | Some a => Ok a
  | None => Err PanicIndexOutOfRange
  end.

(** [s[i] = v] on a slice: panics out of range. *)
Definition set_index {A : Type} (s : list A) (i : nat) (v : A) : result (list A) :=
  if (i <? length s)%nat then Ok (<[i := v]> s) else Err PanicIndexOutOfRange.

(** [s[lo:hi]] on a slice whose capacity is its length. *)
Definition slice {A : Type} (s : list A) (lo hi : nat) : result (list A) :=
  if ((lo <=? hi) && (hi <=? length s))%nat
  then Ok (take (hi - lo) (drop lo s))
  else Err PanicIndexOutOfRange.

(** ** The byte cursor (package [bitstream], not part of this repository) *)

(** Modelled from the spec: the external cursor of section 6.  [Next n]
    consumes exactly [n] bytes from the current position and fails with
    an out-of-data condition when fewer than [n] remain; [Position] is the
    current byte offset.  Every read of the two decoders is a whole number
    of bytes ([Next(32).Bits()] is four of them), so the cursor is kept at
    byte granularity. *)
Record Reader : Type := mkReader { buffer : list byte; Position : nat }.

Definition FromBytes (data : list byte) : Reader := mkReader data 0.

Definition Next (n : nat) (r : Reader) : result (list byte * Reader) :=
  if (Position r + n <=? length (buffer r))%nat
  then Ok (take n (drop (Position r) (buffer r)),
           mkReader (buffer r) (Position r + n))
  else Err ErrOutOfData.

(** [AsByte] on a selection of one byte. *)
Definition AsByte (bs : list byte) : byte := hd x00 bs.

(** Modelled from the spec: the writer counterpart appends bytes in order
    and exposes the final buffer. *)
Definition Writer : Type := list byte.
Definition WriteByte (sw : Writer) (b : byte) : Writer := sw ++ [b].
Definition WriteBytes (sw : Writer) (bs : list byte) : Writer := sw ++ bs.
Definition Bytes (sw : Writer) : list byte := sw.

(** Least-significant-byte-first reading of an unsigned integer, the byte
    order of the game's files; used wherever a concrete input is run. *)
Definition le_uint (bs : list byte) : Z :=
  fold_right (fun b acc => int_of_byte b + 256 * acc) 0 bs.

(** ** External tables and functions

    Declarations of the package that the two source files use and do not
    contain, and the integer readings of the cursor.  The development is
    parametric in them. *)

(** The cursor's readings of a selection as an unsigned integer,
    [Bits().AsUInt32()] on four bytes and [Bytes().AsUInt16()] on two. *)
Class IntegerReading : Type := {
  AsUInt32 : list byte -> Z;
  AsUInt16 : list byte -> Z
}.

(** [hashName], the deterministic hash of a record name. *)
Class NameHash : Type := { hashName : string -> Z }.

(** The weapon-class enumeration: its zero value, [WeaponClassFromString]
    and the method [String]. *)
Class WeaponClasses : Type := {
  WeaponClass : Type;
  WeaponClass_zero : WeaponClass;
  WeaponClassFromString : string -> WeaponClass;
  WeaponClass_String : WeaponClass -> string
}.

(** ** animdata.go *)

Definition numBlocks : nat := 256.
Definition maxRecordsPerBlock : Z := 67.
Definition byteCountName : nat := 8.
Definition byteCountSpeedPadding : nat := 2.
Definition numEvents : nat := 144.

(** [FrameEvent] and its constants. *)
Abbreviation FrameEvent := Z (only parsing).
Definition EventNone : FrameEvent := 0.
Definition EventAttack : FrameEvent := 1.
Definition EventMissile : FrameEvent := 2.
Definition EventSound : FrameEvent := 3.
Definition EventSkill : FrameEvent := 4.

(** The record built by [Load]: name, frame count, speed and the sparse
    map of frame events. *)
Record AnimationDataRecord : Type := mkAnimationDataRecord {
  name : string;
  frames : Z;
  speed : Z;
  events : gmap Z FrameEvent
}.

Record block : Type := mkBlock {
  recordCount : Z;
  records : list (option AnimationDataRecord)
}.

(** Modelled from the spec: the embedded [hashTable], an array of hashes
    sized to the format's maximum record count, all zero at first. *)
Definition hashTableSize : nat := numBlocks * Z.to_nat maxRecordsPerBlock.

Record AnimationData : Type := mkAnimationData {
  hashTable : list Z;
  blocks : list (option block);
  entries : gmap string (list AnimationDataRecord)
}.

Definition set_hashTable (v : list Z) (ad : AnimationData) : AnimationData :=
  mkAnimationData v (blocks ad) (entries ad).
Definition set_blocks (v : list (option block)) (ad : AnimationData) : AnimationData :=
  mkAnimationData (hashTable ad) v (entries ad).
Definition set_entries (v : gmap string (list AnimationDataRecord))
    (ad : AnimationData) : AnimationData :=
  mkAnimationData (hashTable ad) (blocks ad) v.

(** [GetRecordNames]: the keys of the name index.  Go ranges over a map in
    an unspecified order; the keys come here in the order of [map_to_list],
    and nothing below depends on it. *)
Definition GetRecordNames (ad : AnimationData) : list string :=
  (map_to_list (entries ad)).*1.

(** [GetRecords]: the map lookup yields the nil slice for an absent name. *)
Definition GetRecords (ad : AnimationData) (nm : string) : list AnimationDataRecord :=
  default [] (entries ad !! nm).

(** [GetRecord]: the last record of the name, or [nil]. *)
Definition GetRecord (ad : AnimationData) (nm : string) : option AnimationDataRecord :=
  let records := GetRecords ad nm in
  let numRecords := length records in
  if (numRecords <? 1)%nat then None else records !! (numRecords - 1)%nat.

(** [strings.ReplaceAll(s, string(byte(0)), "")]: every zero byte removed. *)
Fixpoint stripNUL (s : string) : string :=
  match s with
  | EmptyString => EmptyString
  | String c s' =>
      if Ascii.eqb c Ascii.zero then stripNUL s' else String c (stripNUL s')
  end.

(** The loop over [eventIdx] of [Load]: [n] iterations are left. *)
Fixpoint loadEvents (n : nat) (eventIdx : Z) (reader : Reader)
    (events : gmap Z FrameEvent) : result (Reader * gmap Z FrameEvent) :=
  match n with
  | O => Ok (reader, events)
  | S n' =>
      match Next 1 reader with
      | Err e => Err e
      | Ok (bs, reader) =>
          let event : FrameEvent := int_of_byte (AsByte bs) in
          let events :=
            if event =? EventNone then events else <[eventIdx := event]> events in
          loadEvents n' (eventIdx + 1) reader events
      end
  end.

(** The state of the record loop: the cursor, the store being filled and
    the slice [records] of the current block. *)
Definition recordState : Type :=
  (Reader * AnimationData * list (option AnimationDataRecord))%type.

Section Load.
Context `{IntegerReading} `{NameHash}.

(** One iteration of the loop over [recordIdx] of [Load]. *)
Definition loadRecord (recordIdx hashIdx : nat) (st : recordState) : result recordState :=
  let '(reader, animdata, records) := st in
  match Next byteCountName reader with
  | Err e => Err e
  | Ok (nameBytes, reader) =>
  match index nameBytes (byteCountName - 1) with
  | Err e => Err e
  | Ok terminator =>
  if negb (Byte.eqb terminator x00) then Err ErrMissingTerminator else
  let nm := stripNUL (string_of_bytes nameBytes) in
  match set_index (hashTable animdata) hashIdx (hashName nm) with
  | Err e => Err e
  | Ok table =>
  let animdata := set_hashTable table animdata in
  match Next 4 reader with
  | Err e => Err e
  | Ok (framesBits, reader) =>
  let frames := AsUInt32 framesBits in
  match Next 2 reader with
  | Err e => Err e
  | Ok (speedBytes, reader) =>
  let speed := AsUInt16 speedBytes in
  match Next byteCountSpeedPadding reader with
  | Err e => Err e
  | Ok (_, reader) =>
  match loadEvents numEvents 0 reader ∅ with
  | Err e => Err e
  | Ok (reader, events) =>
  let r := mkAnimationDataRecord nm frames speed events in
  match set_index records recordIdx (Some r) with
  | Err e => Err e
  | Ok records =>
  let entries1 :=
    match entries animdata !! r.(name) with
    | None => <[r.(name) := []]> (entries animdata)
    | Some _ => entries animdata
    end in
  let entries2 :=
    <[r.(name) := default [] (entries1 !! r.(name)) ++ [r]]> entries1 in
  Ok (reader, set_entries entries2 animdata, records)
  end end end end end end end end.

(** The loop over [recordIdx]: [n] iterations are left.  [hashIdx] is
    passed on as it is: no statement of [Load] assigns it after its
    initialisation. *)
Fixpoint loadRecords (n : nat) (recordIdx hashIdx : nat) (st : recordState)
    : result recordState :=
  match n with
  | O => Ok st
  | S n' =>
      match loadRecord recordIdx hashIdx st with
      | Err e => Err e
      | Ok st => loadRecords n' (S recordIdx) hashIdx st
      end
  end.

(** One iteration of the loop over [blockIdx] of [Load]. *)
Definition loadBlock (blockIdx hashIdx : nat) (st : Reader * AnimationData)
    : result (Reader * AnimationData) :=
  let '(reader, animdata) := st in
  match Next 4 reader with
  | Err e => Err e
  | Ok (countBits, reader) =>
  let recordCount := AsUInt32 countBits in
  if maxRecordsPerBlock <? recordCount then Err ErrTooManyRecords else
  let records := replicate (Z.to_nat recordCount) None in
  match loadRecords (Z.to_nat recordCount) 0 hashIdx (reader, animdata, records) with
  | Err e => Err e
  | Ok (reader, animdata, records) =>
  let b := mkBlock recordCount records in
  match set_index (blocks animdata) blockIdx (Some b) with
  | Err e => Err e
  | Ok bs => Ok (reader, set_blocks bs animdata)
  end end end.

(** The loop over [blockIdx]: [n] iterations are left. *)
Fixpoint loadBlocks (n : nat) (blockIdx hashIdx : nat) (st : Reader * AnimationData)
    : result (Reader * AnimationData) :=
  match n with
  | O => Ok st
  | S n' =>
      match loadBlock blockIdx hashIdx st with
      | Err e => Err e
      | Ok st => loadBlocks n' (S blockIdx) hashIdx st
      end
  end.

(** The store [Load] starts from. *)
Definition newAnimationData : AnimationData :=
  mkAnimationData (replicate hashTableSize 0) (replicate numBlocks None) ∅.

(** [Load] returns the pair of a store pointer and an error. *)
Definition Load (data : list byte) : option AnimationData * option error :=
  let reader := FromBytes data in
  let animdata := newAnimationData in
  let hashIdx := 0%nat in
  match loadBlocks numBlocks 0 hashIdx (reader, animdata) with
  | Err e => (None, Some e)
  | Ok (reader, animdata) =>
      if negb (Position reader =? length data)%nat
      then (None, Some ErrUnableToParse)
      else (Some animdata, None)
  end.

End Load.

Arguments loadRecord : simpl never.
Arguments loadBlock : simpl never.

(** The records of a store in the order [Load] read them: block after
    block, and within a block by record index. *)
Definition blockRecords (ob : option block) : list AnimationDataRecord :=
  match ob with
  | Some b => omap id (records b)
  | None => []
  end.

Definition allRecords (ad : AnimationData) : list AnimationDataRecord :=
  flat_map blockRecords (blocks ad).

(** ** cof_layer.go *)

Definition numUnknownHeaderBytes : nat := 21.
Definition numUnknownBodyBytes : nat := 3.
Definition numHeaderBytes : nat := 4 + numUnknownHeaderBytes.
Definition numLayerBytes : nat := 9.

Definition headerNumLayers : nat := 0.
Definition headerFramesPerDir : nat := 1.
Definition headerNumDirs : nat := 2.
Definition headerSpeed : nat := numHeaderBytes - 1.

Definition layerType : nat := 0.
Definition layerShadow : nat := 1.
Definition layerSelectable : nat := 2.
Definition layerTransparent : nat := 3.
Definition layerDrawEffect : nat := 4.
Definition layerWeaponClass : nat := 5.

(** [CompositeType] and [DrawEffect] are enumerations over [int]. *)
Abbreviation CompositeType := Z (only parsing).

(** The white space of [strings.TrimSpace] below U+0080: tab, line feed,
    vertical tab, form feed, carriage return and space. *)
Definition isSpace (c : ascii) : bool :=
  let n := nat_of_ascii c in
  ((9 <=? n) && (n <=? 13) || (n =? 32))%nat.

Fixpoint trimLeft (s : string) : string :=
  match s with
  | EmptyString => EmptyString
  | String c s' => if isSpace c then trimLeft s' else s
  end.

Fixpoint trimRight (s : string) : string :=
  match s with
  | EmptyString => EmptyString
  | String c s' =>
      match trimRight s' with
      | EmptyString => if isSpace c then EmptyString else String c EmptyString
      | t => String c t
      end
  end.

(** [strings.TrimSpace] on a string of bytes below 0x80.  (Beyond them Go
    also trims the white space that UTF-8 encodes on several bytes; what it
    trims more is white space still, so that a table [WeaponClassFromString]
    composed with it is a table again, and the results below, which hold for
    every table, hold for it.) *)
Definition TrimSpace (s : string) : string := trimRight (trimLeft s).

Section Cof.
Context `{WeaponClasses}.

Record CofLayer : Type := mkCofLayer {
  Type_ : CompositeType;
  Shadow : byte;
  Selectable : bool;
  Transparent : bool;
  DrawEffect : Z;
  WeaponClass_ : WeaponClass
}.

(** The zero value [CofLayer{}]. *)
Definition zeroCofLayer : CofLayer :=
  mkCofLayer 0 x00 false false 0 WeaponClass_zero.

Record COF : Type := mkCOF {
  unknownHeaderBytes : list byte;
  unknownBodyBytes : list byte;
  NumberOfDirections : Z;
  FramesPerDirection : Z;
  NumberOfLayers : Z;
  Speed : Z;
  CofLayers : list CofLayer;
  CompositeLayers : gmap CompositeType Z;
  AnimationFrames : list FrameEvent;
  Priority : list (list (list CompositeType))
}.

Definition set_unknownBodyBytes (v : list byte) (c : COF) : COF :=
  mkCOF (unknownHeaderBytes c) v (NumberOfDirections c) (FramesPerDirection c)
    (NumberOfLayers c) (Speed c) (CofLayers c) (CompositeLayers c)
    (AnimationFrames c) (Priority c).
Definition set_CofLayers (v : list CofLayer) (c : COF) : COF :=
  mkCOF (unknownHeaderBytes c) (unknownBodyBytes c) (NumberOfDirections c)
    (FramesPerDirection c) (NumberOfLayers c) (Speed c) v (CompositeLayers c)
    (AnimationFrames c) (Priority c).
Definition set_CompositeLayers (v : gmap CompositeType Z) (c : COF) : COF :=
  mkCOF (unknownHeaderBytes c) (unknownBodyBytes c) (NumberOfDirections c)
    (FramesPerDirection c) (NumberOfLayers c) (Speed c) (CofLayers c) v
    (AnimationFrames c) (Priority c).
Definition set_AnimationFrames (v : list FrameEvent) (c : COF) : COF :=
  mkCOF (unknownHeaderBytes c) (unknownBodyBytes c) (NumberOfDirections c)
    (FramesPerDirection c) (NumberOfLayers c) (Speed c) (CofLayers c)
    (CompositeLayers c) v (Priority c).
Definition set_Priority (v : list (list (list CompositeType))) (c : COF) : COF :=
  mkCOF (unknownHeaderBytes c) (unknownBodyBytes c) (NumberOfDirections c)
    (FramesPerDirection c) (NumberOfLayers c) (Speed c) (CofLayers c)
    (CompositeLayers c) (AnimationFrames c) v.

(** [New]. *)
Definition New : COF :=
  mkCOF (replicate numUnknownHeaderBytes x00) (replicate numUnknownBodyBytes x00)
    0 0 0 0 [] ∅ [] [].

(** [loadHeader]. *)
Definition loadHeader (b : list byte) (c : COF) : result COF :=
  numLayers <- index b headerNumLayers ;;
  framesPerDir <- index b headerFramesPerDir ;;
  numDirs <- index b headerNumDirs ;;
  unknown <- slice b (headerNumDirs + 1) headerSpeed ;;
  speedByte <- index b headerSpeed ;;
  Ok (mkCOF unknown (unknownBodyBytes c) (int_of_byte numDirs)
        (int_of_byte framesPerDir) (int_of_byte numLayers) (int_of_byte speedByte)
        (CofLayers c) (CompositeLayers c) (AnimationFrames c) (Priority c)).

(** The layer that one iteration of [loadCOFLayers] builds from the nine
    bytes [b]. *)
Definition layerOfBytes (b : list byte) : result CofLayer :=
  type <- index b layerType ;;
  shadow <- index b layerShadow ;;
  selectable <- index b layerSelectable ;;
  transparent <- index b layerTransparent ;;
  drawEffect <- index b layerDrawEffect ;;
  weaponField <- slice b layerWeaponClass (length b) ;;
  Ok (mkCofLayer (int_of_byte type) shadow
        (0 <? int_of_byte selectable) (0 <? int_of_byte transparent)
        (int_of_byte drawEffect)
        (WeaponClassFromString
           (TrimSpace (stripNUL (string_of_bytes weaponField))))).

(** One iteration of the loop of [loadCOFLayers]; the receiver keeps what
    was stored before an error. *)
Definition loadCOFLayer (i : nat) (s : Reader) (c : COF) : Reader * COF * option error :=
  match Next numLayerBytes s with
  | Err e => (s, c, Some e)
  | Ok (b, s) =>
  match layerOfBytes b with
  | Err e => (s, c, Some e)
  | Ok layer =>
  match set_index (CofLayers c) i layer with
  | Err e => (s, c, Some e)
  | Ok layers =>
  let c := set_CofLayers layers c in
  let c := set_CompositeLayers (<[Type_ layer := Z.of_nat i]> (CompositeLayers c)) c in
  (s, c, None)
  end end end.

(** The loop of [loadCOFLayers]: [n] iterations are left. *)
Fixpoint loadCOFLayers_from (n i : nat) (s : Reader) (c : COF)
    : Reader * COF * option error :=
  match n with
  | O => (s, c, None)
  | S n' =>
      match loadCOFLayer i s c with
      | (s, c, Some e) => (s, c, Some e)
      | (s, c, None) => loadCOFLayers_from n' (S i) s c
      end
  end.

Definition loadCOFLayers (s : Reader) (c : COF) : Reader * COF * option error :=
  loadCOFLayers_from (Z.to_nat (NumberOfLayers c)) 0 s c.

(** The loop of [loadAnimationFrames] over the indices of [b], from [i]. *)
Fixpoint storeAnimationFrames (b : list byte) (i : nat) (fs : list FrameEvent)
    : result (list FrameEvent) :=
  match b with
  | [] => Ok fs
  | x :: b' =>
      match set_index fs i (int_of_byte x) with
      | Err e => Err e
      | Ok fs => storeAnimationFrames b' (S i) fs
      end
  end.

Definition loadAnimationFrames (b : list byte) (c : COF) : result COF :=
  let fs := replicate (Z.to_nat (FramesPerDirection c)) 0 in
  match storeAnimationFrames b 0 fs with
  | Err e => Err e
  | Ok fs => Ok (set_AnimationFrames fs c)
  end.

(** [p[d][f] = v] and [p[d][f][i] = v] and [p[d][f][i]] on a matrix. *)
Definition set_index2 {A : Type} (p : list (list A)) (d f : nat) (v : A)
    : result (list (list A)) :=
  row <- index p d ;;
  row <- set_index row f v ;;
  set_index p d row.

Definition set_index3 {A : Type} (p : list (list (list A))) (d f i : nat) (v : A)
    : result (list (list (list A))) :=
  row <- index p d ;;
  cell <- index row f ;;
  cell <- set_index cell i v ;;
  row <- set_index row f cell ;;
  set_index p d row.

Definition index3 {A : Type} (p : list (list (list A))) (d f i : nat) : result A :=
  row <- index p d ;;
  cell <- index row f ;;
  index cell i.

(** The state of the loops of [loadPriority]: the matrix and
    [priorityIndex]. *)
Definition priorityState : Type := (list (list (list CompositeType)) * nat)%type.

(** The innermost loop of [loadPriority], over the layer slot [i]. *)
Fixpoint loadPriority_layers (n i : nat) (direction frame : nat)
    (priorityBytes : list byte) (st : priorityState) : result priorityState :=
  match n with
  | O => Ok st
  | S n' =>
      let '(p, priorityIndex) := st in
      match index priorityBytes priorityIndex with
      | Err e => Err e
      | Ok b =>
      match set_index3 p direction frame i (int_of_byte b) with
      | Err e => Err e
      | Ok p =>
          loadPriority_layers n' (S i) direction frame priorityBytes
            (p, S priorityIndex)
      end end
  end.

(** The loop over [frame]. *)
Fixpoint loadPriority_frames (n frame : nat) (direction : nat) (numLayers : nat)
    (priorityBytes : list byte) (st : priorityState) : result priorityState :=
  match n with
  | O => Ok st
  | S n' =>
      let '(p, priorityIndex) := st in
      match set_index2 p direction frame (replicate numLayers 0) with
      | Err e => Err e
      | Ok p =>
      match loadPriority_layers numLayers 0 direction frame priorityBytes
              (p, priorityIndex) with
      | Err e => Err e
      | Ok st =>
          loadPriority_frames n' (S frame) direction numLayers priorityBytes st
      end end
  end.

(** The loop over [direction]. *)
Fixpoint loadPriority_directions (n direction : nat) (framesPerDir numLayers : nat)
    (priorityBytes : list byte) (st : priorityState) : result priorityState :=
  match n with
  | O => Ok st
  | S n' =>
      let '(p, priorityIndex) := st in
      match set_index p direction (replicate framesPerDir []) with
      | Err e => Err e
      | Ok p =>
      match loadPriority_frames framesPerDir 0 direction numLayers priorityBytes
              (p, priorityIndex) with
      | Err e => Err e
      | Ok st =>
          loadPriority_directions n' (S direction) framesPerDir numLayers
            priorityBytes st
      end end
  end.

Definition loadPriority (priorityBytes : list byte) (c : COF) : result COF :=
  let priorityIndex := 0%nat in
  match loadPriority_directions (Z.to_nat (NumberOfDirections c)) 0
          (Z.to_nat (FramesPerDirection c)) (Z.to_nat (NumberOfLayers c))
          priorityBytes (Priority c, priorityIndex) with
  | Err e => Err e
  | Ok (p, _) => Ok (set_Priority p c)
  end.

(** The method [Unmarshal]: the receiver as the call leaves it, and the
    error.  The value that a failed read hands back with its error is
    taken to be the nil slice. *)
Definition COF_Unmarshal (fileData : list byte) (c : COF) : COF * option error :=
  let stream := FromBytes fileData in
  match Next numHeaderBytes stream with
  | Err e => (c, Some e)
  | Ok (headerBytes, stream) =>
  match loadHeader headerBytes c with
  | Err e => (c, Some e)
  | Ok c =>
  match Next numUnknownBodyBytes stream with
  | Err e => (set_unknownBodyBytes [] c, Some e)
  | Ok (bodyBytes, stream) =>
  let c := set_unknownBodyBytes bodyBytes c in
  let c := set_CofLayers (replicate (Z.to_nat (NumberOfLayers c)) zeroCofLayer) c in
  let c := set_CompositeLayers ∅ c in
  match loadCOFLayers stream c with
  | (_, c, Some e) => (c, Some e)
  | (stream, c, None) =>
  match Next (Z.to_nat (FramesPerDirection c)) stream with
  | Err e => (c, Some e)
  | Ok (animationFramesData, stream) =>
  match loadAnimationFrames animationFramesData c with
  | Err e => (c, Some e)
  | Ok c =>
  let priorityLen :=
    FramesPerDirection c * NumberOfDirections c * NumberOfLayers c in
  let c := set_Priority (replicate (Z.to_nat (NumberOfDirections c)) []) c in
  match Next (Z.to_nat priorityLen) stream with
  | Err e => (c, Some e)
  | Ok (priorityBytes, stream) =>
  match loadPriority priorityBytes c with
  | Err e => (c, Some e)
  | Ok c => (c, None)
  end end end end end end end end.

(** The function [Unmarshal]: it returns the document it created together
    with the error of the method. *)
Definition Unmarshal (data : list byte) : option COF * option error :=
  let c := New in
  let '(c, err) := COF_Unmarshal data c in
  (Some c, err).

Definition maxCodeLength : nat := 3.
Definition terminator : Z := 0.

(** The loop [for idx, letter := range weaponCode] of [Marshal], on a code
    of characters below U+0080, each of which is one rune at its own byte
    index. *)
Fixpoint writeWeaponCode (sw : Writer) (weaponCode : string) (idx : nat) : Writer :=
  match weaponCode with
  | EmptyString => sw
  | String letter rest =>
      if (maxCodeLength <? idx)%nat then sw
      else writeWeaponCode (WriteByte sw (byte_of_ascii letter)) rest (S idx)
  end.

(** One iteration of the loop over [c.CofLayers] of [Marshal]. *)
Definition writeLayer (sw : Writer) (layer : CofLayer) : Writer :=
  let sw := WriteByte sw (byte_of_int (Type_ layer)) in
  let sw := WriteByte sw (Shadow layer) in
  let sw :=
    if Selectable layer then WriteByte sw (byte_of_int 1)
    else WriteByte sw (byte_of_int 0) in
  let sw :=
    if Transparent layer then WriteByte sw (byte_of_int 1)
    else WriteByte sw (byte_of_int 0) in
  let sw := WriteByte sw (byte_of_int (DrawEffect layer)) in
  let weaponCode := WeaponClass_String (WeaponClass_ layer) in
  let sw := writeWeaponCode sw weaponCode 0 in
  WriteByte sw (byte_of_int terminator).

(** The three loops over the priority matrix of [Marshal]. *)
Fixpoint writePriority_layers (n i : nat) (direction frame : nat)
    (p : list (list (list CompositeType))) (sw : Writer) : result Writer :=
  match n with
  | O => Ok sw
  | S n' =>
      match index3 p direction frame i with
      | Err e => Err e
      | Ok v =>
          writePriority_layers n' (S i) direction frame p
            (WriteByte sw (byte_of_int v))
      end
  end.

Fixpoint writePriority_frames (n frame : nat) (direction : nat) (numLayers : nat)
    (p : list (list (list CompositeType))) (sw : Writer) : result Writer :=
  match n with
  | O => Ok sw
  | S n' =>
      match writePriority_layers numLayers 0 direction frame p sw with
      | Err e => Err e
      | Ok sw => writePriority_frames n' (S frame) direction numLayers p sw
      end
  end.

Fixpoint writePriority_directions (n direction : nat) (framesPerDir numLayers : nat)
    (p : list (list (list CompositeType))) (sw : Writer) : result Writer :=
  match n with
  | O => Ok sw
  | S n' =>
      match writePriority_frames framesPerDir 0 direction numLayers p sw with
      | Err e => Err e
      | Ok sw =>
          writePriority_directions n' (S direction) framesPerDir numLayers p sw
      end
  end.

(** The method [Marshal]. *)
Definition COF_Marshal (c : COF) : result (list byte) :=
  let sw : Writer := [] in
  let sw := WriteByte sw (byte_of_int (NumberOfLayers c)) in
  let sw := WriteByte sw (byte_of_int (FramesPerDirection c)) in
  let sw := WriteByte sw (byte_of_int (NumberOfDirections c)) in
  let sw := WriteBytes sw (unknownHeaderBytes c) in
  let sw := WriteByte sw (byte_of_int (Speed c)) in
  let sw := WriteBytes sw (unknownBodyBytes c) in
  let sw := fold_left writeLayer (CofLayers c) sw in
  let sw := fold_left (fun sw i => WriteByte sw (byte_of_int i)) (AnimationFrames c) sw in
  match writePriority_directions (Z.to_nat (NumberOfDirections c)) 0
          (Z.to_nat (FramesPerDirection c)) (Z.to_nat (NumberOfLayers c))
          (Priority c) sw with
  | Err e => Err e
  | Ok sw => Ok (Bytes sw)
  end.

(** The function [Marshal]. *)
Definition Marshal (c : COF) : result (list byte) := COF_Marshal c.

End Cof.

Arguments loadCOFLayer : simpl never.
Arguments COF_Unmarshal : simpl never.
Arguments COF_Marshal : simpl never.

(** ** Auxiliary notions of the statements *)

(** The same cursor over a buffer with [extra] bytes appended. *)
Definition extend (extra : list byte) (r : Reader) : Reader :=
  mkReader (buffer r ++ extra) (Position r).

(** The first [n] consecutive pieces of [size] elements of [l]. *)
Fixpoint chunks {A : Type} (n size : nat) (l : list A) : list (list A) :=
  match n with
  | O => []
  | S n' => take size l :: chunks n' size (drop size l)
  end.

(** The matrix that [dirs * framesPerDir * numLayers] priority bytes
    denote: direction-major, then frame, then layer slot. *)
Definition priorityOf (dirs framesPerDir numLayers : nat) (bs : list byte)
    : list (list (list CompositeType)) :=
  map (fun rowBytes => map (map int_of_byte) (chunks framesPerDir numLayers rowBytes))
      (chunks dirs (framesPerDir * numLayers) bs).

(** The records of name [nm] among [rs], in the order of [rs]. *)
Definition named (nm : string) (rs : list AnimationDataRecord)
    : list AnimationDataRecord :=
  filter (fun r => name r = nm) rs.

(** A block as a successful iteration leaves it: every slot holds a
    record, and their number is the declared count, within the limit. *)
Definition fullBlock (b : block) : Prop :=
  recordCount b <= maxRecordsPerBlock /\
  exists news, records b = map Some news /\
               length news = Z.to_nat (recordCount b).

(** The map that the iterations of [loadCOFLayers] from index [i] on add to
    [m] when they decode the layers [ls]. *)
Fixpoint indexLayers `{WeaponClasses} (i : nat) (ls : list CofLayer)
    (m : gmap CompositeType Z) : gmap CompositeType Z :=
  match ls with
  | [] => m
  | l :: ls' => indexLayers (S i) ls' (<[Type_ l := Z.of_nat i]> m)
  end.

(** The layout of a COF file with [numLayers] layers, [framesPerDir]
    frames and [dirs] directions: the offsets of its layer descriptors, of
    its frame events and of its priority bytes, and its size. *)
Definition layersOffset : nat := numHeaderBytes + numUnknownBodyBytes.
Definition framesOffset (numLayers : nat) : nat :=
  layersOffset + numLayers * numLayerBytes.
Definition priorityOffset (numLayers framesPerDir : nat) : nat :=
  framesOffset numLayers + framesPerDir.
Definition documentSize (numLayers framesPerDir dirs : nat) : nat :=
  priorityOffset numLayers framesPerDir + dirs * (framesPerDir * numLayers).

(** The bytes of a priority matrix, row after row and cell after cell. *)
Definition flattenPriority (p : list (list (list CompositeType))) : list byte :=
  concat (map (fun row => concat (map (map byte_of_int) row)) p).

(** A matrix all of whose rows have [framesPerDir] cells of [numLayers]
    entries. *)
Definition wellShaped (framesPerDir numLayers : nat)
    (p : list (list (list CompositeType))) : Prop :=
  Forall (fun row => length row = framesPerDir /\
                     Forall (fun cell => length cell = numLayers) row) p.

(** A string of characters below U+0080. *)
Definition isASCII (s : string) : bool :=
  forallb (fun c => (nat_of_ascii c <? 128)%nat) (list_ascii_of_string s).

(** A flag byte that [Marshal] writes back as it was read. *)
Definition isFlag (b : byte) : bool := Byte.eqb b x00 || Byte.eqb b x01.

(** A byte of a weapon-class code: not zero and below 0x80. *)
Definition isCodeByte (b : byte) : bool :=
  (0 <? int_of_byte b) && (int_of_byte b <? 128).

(** A layer descriptor that [Marshal] writes back as it was read: two flag
    bytes 0 or 1, and a weapon-class field of three code bytes, the outer
    two not white space, and a zero byte, whose code the table of weapon
    classes gives back. *)
Definition canonicalLayer `{WeaponClasses} (b : list byte) : bool :=
  match b with
  | [_; _; selectable; transparent; _; a1; a2; a3; z] =>
      let code := string_of_bytes [a1; a2; a3] in
      isFlag selectable && isFlag transparent
      && isCodeByte a1 && isCodeByte a2 && isCodeByte a3
      && negb (isSpace (ascii_of_byte a1)) && negb (isSpace (ascii_of_byte a3))
      && Byte.eqb z x00
      && String.eqb (WeaponClass_String (WeaponClassFromString code)) code
  | _ => false
  end.

(** The five bytes that [Marshal] writes for a layer before its
    weapon-class code. *)
Definition layerAttributes `{WeaponClasses} (layer : CofLayer) : list byte :=
  [byte_of_int (Type_ layer); Shadow layer;
   if Selectable layer then x01 else x00;
   if Transparent layer then x01 else x00;
   byte_of_int (DrawEffect layer)].

(** Two documents with the same counts and speed. *)
Definition sameCounts `{WeaponClasses} (c c' : COF) : Prop :=
  NumberOfLayers c' = NumberOfLayers c /\
  FramesPerDirection c' = FramesPerDirection c /\
  NumberOfDirections c' = NumberOfDirections c /\
  Speed c' = Speed c.

(** The size that the first three bytes of a COF file declare for it, when
    it has them. *)
Definition declaredSize (data : list byte) : option nat :=
  match data !! 0%nat, data !! 1%nat, data !! 2%nat with
  | Some b0, Some b1, Some b2 =>
      Some (documentSize (Z.to_nat (int_of_byte b0)) (Z.to_nat (int_of_byte b1))
              (Z.to_nat (int_of_byte b2)))
  | _, _, _ => None
  end.

(** The bytes that [Load] reads for one record: the name, the frame count,
    the speed, the padding and the events. *)
Definition recordSize : nat :=
  byteCountName + 4 + 2 + byteCountSpeedPadding + numEvents.

(** A string without zero byte. *)
Definition noNUL (s : string) : bool :=
  forallb (fun c => negb (Ascii.eqb c Ascii.zero)) (list_ascii_of_string s).

(** The event that [Load] keeps for an event byte: none for [EventNone]. *)
Definition eventOfByte (b : byte) : option FrameEvent :=
  if int_of_byte b =? EventNone then None else Some (int_of_byte b).

(** The record [rec] is what the 160 bytes of [bytes] at offset [p]
    denote: a name field that ends with a zero byte and whose other bytes,
    the zero ones left out, are the name; the frame count; the speed; two
    bytes of padding; and 144 event bytes, of which the non-zero ones are
    the events. *)
Definition recordAt `{IntegerReading} (bytes : list byte) (p : nat)
    (rec : AnimationDataRecord) : Prop :=
  bytes !! (p + 7)%nat = Some x00 /\
  name rec = stripNUL (string_of_bytes (take 8 (drop p bytes))) /\
  frames rec = AsUInt32 (take 4 (drop (p + 8) bytes)) /\
  speed rec = AsUInt16 (take 2 (drop (p + 12) bytes)) /\
  forall k : Z,
    events rec !! k
    = if decide (0 <= k < 144)
      then bytes !! (p + 16 + Z.to_nat k)%nat ≫= eventOfByte
      else None.

(** The block [b] is what the bytes of [bytes] at offset [off] denote: a
    count of records within the limit, and that many records of 160 bytes
    each. *)
Definition blockAt `{IntegerReading} (bytes : list byte) (off : nat)
    (b : block) : Prop :=
  recordCount b = AsUInt32 (take 4 (drop off bytes)) /\
  recordCount b <= maxRecordsPerBlock /\
  exists news,
    records b = map Some news /\ length news = Z.to_nat (recordCount b) /\
    forall j rec, news !! j = Some rec ->
                  recordAt bytes (off + 4 + recordSize * j) rec.

(** The records of the blocks [bs]. *)
Definition recordsOf (bs : list block) : list AnimationDataRecord :=
  flat_map blockRecords (map Some bs).

(** An integer that a byte holds. *)
Definition isByte (x : Z) : bool := (0 <=? x) && (x <? 256).

(** A layer that its nine bytes denote: a type and a draw effect that a
    byte holds, and a weapon class whose code is three code bytes, the
    outer two not white space, which the table of weapon classes maps back
    to the class. *)
Definition encodableLayer `{WeaponClasses} (layer : CofLayer) : Prop :=
  isByte (Type_ layer) = true /\ isByte (DrawEffect layer) = true /\
  WeaponClassFromString (WeaponClass_String (WeaponClass_ layer))
    = WeaponClass_ layer /\
  exists a1 a2 a3 : byte,
    bytes_of_string (WeaponClass_String (WeaponClass_ layer)) = [a1; a2; a3] /\
    isCodeByte a1 && isCodeByte a2 && isCodeByte a3
    && negb (isSpace (ascii_of_byte a1)) && negb (isSpace (ascii_of_byte a3))
    = true.

(** A document that its encoding denotes: 21 and 3 reserved bytes, counts
    that are the sizes of its layers, frame events and priority matrix and
    that a byte holds, as does the speed, layers that their bytes denote,
    the index of the layers by type, frame events and priorities that a
    byte holds, and a matrix with a cell for every frame and an entry for
    every layer. *)
Definition encodable `{WeaponClasses} (c : COF) : Prop :=
  length (unknownHeaderBytes c) = numUnknownHeaderBytes /\
  length (unknownBodyBytes c) = numUnknownBodyBytes /\
  isByte (Speed c) = true /\
  NumberOfLayers c = Z.of_nat (length (CofLayers c)) /\
  isByte (NumberOfLayers c) = true /\
  FramesPerDirection c = Z.of_nat (length (AnimationFrames c)) /\
  isByte (FramesPerDirection c) = true /\
  NumberOfDirections c = Z.of_nat (length (Priority c)) /\
  isByte (NumberOfDirections c) = true /\
  Forall encodableLayer (CofLayers c) /\
  CompositeLayers c = indexLayers 0 (CofLayers c) ∅ /\
  Forall (fun x => isByte x = true) (AnimationFrames c) /\
  wellShaped (length (AnimationFrames c)) (length (CofLayers c)) (Priority c) /\
  Forall (Forall (Forall (fun x => isByte x = true))) (Priority c).

(** The name field of the record at offset [p] ends with a zero byte. *)
Definition terminatedAt (data : list byte) (p : nat) : bool :=
  match data !! (p + 7)%nat with
  | Some b => Byte.eqb b x00
  | None => false
  end.

(** The [n] records from offset [p] on have terminated name fields. *)
Fixpoint recordsLaidOut (data : list byte) (n : nat) (p : nat) : bool :=
  match n with
  | O => true
  | S n' => terminatedAt data p && recordsLaidOut data n' (p + recordSize)
  end.

(** From offset [off] on, [data] consists of [n] blocks and nothing else:
    each has its four count bytes, a count within the limit and that many
    records with terminated name fields, the next block starts where the
    records end, and the last one ends at the end of [data]. *)
Fixpoint blocksLaidOut `{IntegerReading} (data : list byte) (n : nat) (off : nat)
    : bool :=
  match n with
  | O => (off =? length data)%nat
  | S n' =>
      let count := AsUInt32 (take 4 (drop off data)) in
      (off + 4 <=? length data)%nat
      && (count <=? maxRecordsPerBlock)
      && recordsLaidOut data (Z.to_nat count) (off + 4)
      && blocksLaidOut data n' (off + 4 + recordSize * Z.to_nat count)
  end.

(** ** Concrete tables, used to run the code on inputs *)

#[export] Instance LittleEndian : IntegerReading :=
  {| AsUInt32 := le_uint; AsUInt16 := le_uint |}.

(** Modelled from the spec: the weapon classes as an opaque enumeration
    with a string-to-code and a code-to-string mapping; here every string
    is its own code and the zero value is the empty code. *)
#[export] Instance StringCodes : WeaponClasses :=
  {| WeaponClass := string;
     WeaponClass_zero := EmptyString;
     WeaponClassFromString := fun s => s;
     WeaponClass_String := fun w => w |}.

(** Modelled from the spec: a deterministic hash of the name, here the sum
    of its bytes modulo the number of blocks. *)
#[export] Instance ByteSumHash : NameHash :=
  {| hashName := fun s =>
       fold_right (fun b acc => int_of_byte b + acc) 0 (bytes_of_string s)
         mod Z.of_nat numBlocks |}.

Definition zeros (n : nat) : list byte := replicate n x00.

(** The four bytes of [n], least significant first. *)
Definition u32 (n : Z) : list byte :=
  [byte_of_int n; byte_of_int (n / 256); byte_of_int (n / 65536);
   byte_of_int (n / 16777216)].

(** A record of the animation data file: the name padded with zero bytes to
    eight, five frames, speed 256, two padding bytes, and the events
    [firstEvent] at frame 0 and none elsewhere. *)
Definition recordBytes (nm : string) (firstEvent : byte) : list byte :=
  take 8 (bytes_of_string nm ++ zeros 8) ++ u32 5 ++ [x00; x01] ++ zeros 2
    ++ [firstEvent] ++ zeros 143.

(** ** Sample inputs *)

(** An animation data file of two records, "A" then "B", in block 0. *)
Definition twoRecordData : list byte :=
  u32 2 ++ recordBytes "A" x01 ++ recordBytes "B" x03 ++ zeros (4 * 255).

(** An animation data file with "A" and "B" in block 0 and a second "A"
    in block 1. *)
Definition overrideData : list byte :=
  u32 2 ++ recordBytes "A" x01 ++ recordBytes "B" x03
    ++ u32 1 ++ recordBytes "A" x02 ++ zeros (4 * 254).

(** An animation data file whose block 0 is empty and whose block 1
    declares 68 records. *)
Definition oversizedData : list byte := u32 0 ++ u32 68 ++ zeros 64.

(** An animation data file whose block 0 holds 67 records. *)
Definition fullBlockData : list byte :=
  u32 67 ++ concat (replicate 67 (recordBytes "R" x00)) ++ zeros (4 * 255).

(** The store that [Load] returns on [data] (the initial store if it
    returns none), with the little-endian readings and the byte-sum hash. *)
Definition storeOf (data : list byte) : AnimationData :=
  match fst (Load data) with
  | Some ad => ad
  | None => newAnimationData
  end.

(** An animation data file of 256 empty blocks. *)
Definition emptyBlocksData : list byte := zeros (4 * 256).

(** A COF file of two layers (types 1 and 2, codes "hth" and "bow"), one
    frame per direction and two directions: 25 header bytes, 3 body bytes,
    two layer descriptors, one frame event and four priority bytes. *)
Definition cofSample : list byte :=
  ([x02; x01; x02] ++ zeros 21 ++ [x07] ++ [x0a; x0b; x0c]
   ++ [x01; x03; x01; x00; x04; "h"; "t"; "h"; x00]
   ++ [x02; x00; x00; x01; x00; "b"; "o"; "w"; x00]
   ++ [x05] ++ [x01; x02; x02; x01])%byte.

(** A COF file of three layers of types 1, 2 and 1, without frames. *)
Definition cofRepeatedType : list byte :=
  ([x03; x00; x00] ++ zeros 21 ++ [x00] ++ zeros 3
   ++ [x01; x00; x00; x00; x00; "h"; "t"; "h"; x00]
   ++ [x02; x00; x00; x00; x00; "b"; "o"; "w"; x00]
   ++ [x01; x00; x00; x00; x00; "1"; "h"; "s"; x00])%byte.

(** A COF file of one layer whose selectable byte is 2. *)
Definition cofFlagTwo : list byte :=
  ([x01; x00; x00] ++ zeros 21 ++ [x00] ++ zeros 3
   ++ [x01; x00; x02; x00; x00; "h"; "t"; "h"; x00])%byte.

(** A COF file of one layer whose weapon-class field holds the
    two-character code "ab" and two zero bytes. *)
Definition cofShortCode : list byte :=
  ([x01; x00; x00] ++ zeros 21 ++ [x00] ++ zeros 3
   ++ [x01; x00; x00; x00; x00; "a"; "b"; x00; x00])%byte.

(** A COF file that declares one layer and ends after the body bytes. *)
Definition cofTruncated : list byte :=
  ([x01; x02; x03] ++ zeros 21 ++ [x07] ++ [x0a; x0b; x0c])%byte.

(** A document built by hand with a layer count of 257 and a speed of
    300. *)
Definition wrappedDocument : COF :=
  mkCOF (zeros 21) (zeros 3) 0 0 257 300 [] ∅ [] [].

(** Layers built by hand with weapon-class codes of three, of no and of
    four characters. *)
Definition hthLayer : CofLayer := mkCofLayer 1 x03 true false 4 "hth"%string.
Definition emptyCodeLayer : CofLayer := mkCofLayer 1 x00 false false 0 EmptyString.
Definition longCodeLayer : CofLayer := mkCofLayer 1 x00 false false 0 "abcd"%string.


(** A document built by hand with one direction of two frames and one
    layer, whose counts and entries exceed a byte. *)
Definition handBuiltDocument : COF :=
  mkCOF (zeros 21) (zeros 3) 1 2 1 300 [hthLayer] ∅ [5; 261] [[[1]; [258]]].

(** The document that [Unmarshal] returns on [data] (a new document if it
    returns none), and the bytes that [Marshal] writes for it. *)
Definition documentOf (data : list byte) : COF :=
  match fst (Unmarshal data) with
  | Some c => c
  | None => New
  end.

(** Every weapon-class code of the document has at most three characters,
    all below U+0080. *)
Definition shortCodes (c : COF) : bool :=
  forallb (fun layer =>
             let code := WeaponClass_String (WeaponClass_ layer) in
             isASCII code && (String.length code <=? 3)%nat)
          (CofLayers c).

(** The first record of [twoRecordData]: named "A", five frames, speed
    256 and the event 1 at frame 0. *)
Definition recordA : AnimationDataRecord :=
  mkAnimationDataRecord "A" 5 256 {[0 := 1]}.

(** A document built by hand with one direction of two frames and one
    layer, the layer "hth" of type 1. *)
Definition encodableDocument : COF :=
  mkCOF (zeros 21) (zeros 3) 1 2 1 44 [hthLayer] {[1 := 0]} [5; 6] [[[1]; [2]]].

(** An animation data file whose block 0 declares one record, with a name
    field of eight letters and no terminator. *)
Definition unterminatedData : list byte :=
  u32 1 ++ bytes_of_string "ABCDEFGH" ++ zeros 152 ++ zeros (4 * 255).

(** ** Facts on the conversions and the cursor *)

Lemma byte_of_int_of_byte (b : byte) : byte_of_int (int_of_byte b) = b.
Proof. destruct b; reflexivity. Qed.

Lemma int_of_byte_range (b : byte) : 0 <= int_of_byte b < 256.
Proof.
  unfold int_of_byte. pose proof (Byte.to_N_bounded b). lia.
Qed.

Lemma int_of_byte_of_int (x : Z) : int_of_byte (byte_of_int x) = x mod 256.
Proof.
  unfold byte_of_int, int_of_byte.
  assert (Hr : 0 <= x mod 256 < 256) by (apply Z.mod_pos_bound; lia).
  destruct (Byte.of_N (Z.to_N (x mod 256))) as [b|] eqn:E.
  - apply Byte.to_of_N in E. rewrite E. lia.
  - apply Byte.of_N_None_iff in E. lia.
Qed.

Lemma index_Ok {A : Type} (s : list A) (i : nat) (a : A) :
  index s i = Ok a <-> s !! i = Some a.
Proof.
  unfold index. destruct (s !! i); split; intros E; inversion E; reflexivity.
Qed.

Lemma set_index_Ok {A : Type} (s s' : list A) (i : nat) (v : A) :
  set_index s i v = Ok s' <-> (i < length s)%nat /\ s' = <[i := v]> s.
Proof.
  unfold set_index. destruct (Nat.ltb_spec i (length s)); split.
  - intros E. inversion E. auto.
  - intros [_ ->]. reflexivity.
  - intros E. discriminate.
  - intros [Hlt _]. lia.
Qed.

Lemma set_index_lt {A : Type} (s : list A) (i : nat) (v : A) :
  (i < length s)%nat -> set_index s i v = Ok (<[i := v]> s).
Proof. intros Hlt. apply set_index_Ok. auto. Qed.

(** What a successful read says of the cursor before and after. *)
Lemma Next_Ok (n : nat) (r r' : Reader) (bs : list byte) :
  Next n r = Ok (bs, r') ->
  buffer r' = buffer r /\ Position r' = (Position r + n)%nat /\
  bs = take n (drop (Position r) (buffer r)) /\
  (Position r + n <= length (buffer r))%nat /\ length bs = n.
Proof.
  unfold Next. destruct (Nat.leb_spec (Position r + n) (length (buffer r))) as [Hle|Hgt];
    intros E; inversion E; subst; clear E. simpl.
  repeat split; auto.
  rewrite length_take, length_drop. lia.
Qed.

Lemma Next_enough (n : nat) (r : Reader) :
  (Position r + n <= length (buffer r))%nat ->
  Next n r = Ok (take n (drop (Position r) (buffer r)),
                 mkReader (buffer r) (Position r + n)).
Proof.
  intros Hle. unfold Next.
  destruct (Nat.leb_spec (Position r + n) (length (buffer r))); [reflexivity | lia].
Qed.

Lemma Next_Err (n : nat) (r : Reader) (e : error) :
  Next n r = Err e -> e = ErrOutOfData.
Proof.
  unfold Next. destruct (_ <=? _)%nat; intros E; inversion E; reflexivity.
Qed.

Lemma Next_extend (extra : list byte) (n : nat) (r r' : Reader) (bs : list byte) :
  Next n r = Ok (bs, r') ->
  Next n (extend extra r) = Ok (bs, extend extra r').
Proof.
  intros E. destruct (Next_Ok _ _ _ _ E) as (Hb & Hp & Hbs & Hle & _).
  rewrite Next_enough by (simpl; rewrite length_app; lia).
  unfold extend. simpl. rewrite Hb, Hp. f_equal. f_equal.
  rewrite Hbs. rewrite drop_app_le by lia. rewrite take_app_le; [reflexivity|].
  rewrite length_drop. lia.
Qed.

(** ** The loops of [Load] *)

(** Case analysis on the first [result] scrutinised in hypothesis [H]; the
    failing branch is closed by [discriminate], and a tuple obtained in the
    other is split into its components. *)
Ltac split_prod x :=
  let T := type of x in
  let T' := eval hnf in T in
  lazymatch T' with
  | prod _ _ =>
      let a := fresh "s" in
      let b := fresh "s" in
      destruct x as [a b]; split_prod a; split_prod b
  | _ => idtac
  end.

Ltac step_in H :=
  match type of H with
  | context [match ?m with _ => _ end] =>
      lazymatch type of m with
      | result _ =>
          let E := fresh "Estep" in
          let x := fresh "x" in
          destruct m as [x|?] eqn:E; [split_prod x|discriminate H]
      end
  end.

Section LoadFacts.
Context `{IntegerReading} `{NameHash}.

Lemma loadEvents_extend (extra : list byte) (n : nat) :
  forall (eventIdx : Z) (r r' : Reader) (ev ev' : gmap Z FrameEvent),
  loadEvents n eventIdx r ev = Ok (r', ev') ->
  loadEvents n eventIdx (extend extra r) ev = Ok (extend extra r', ev').
Proof.
  induction n as [|n IH]; simpl; intros eventIdx r r' ev ev' E.
  - inversion E. reflexivity.
  - step_in E. rewrite (Next_extend extra _ _ _ _ Estep). apply IH. exact E.
Qed.

Lemma loadRecord_extend (extra : list byte) (recordIdx hashIdx : nat)
    (r r' : Reader) (ad ad' : AnimationData)
    (rs rs' : list (option AnimationDataRecord)) :
  loadRecord recordIdx hashIdx (r, ad, rs) = Ok (r', ad', rs') ->
  loadRecord recordIdx hashIdx (extend extra r, ad, rs) = Ok (extend extra r', ad', rs').
Proof.
  unfold loadRecord. intros E.
  step_in E. rewrite (Next_extend extra _ _ _ _ Estep).
  step_in E. destruct (negb _); [discriminate|].
  step_in E.
  step_in E. rewrite (Next_extend extra _ _ _ _ Estep2).
  step_in E. rewrite (Next_extend extra _ _ _ _ Estep3).
  step_in E. rewrite (Next_extend extra _ _ _ _ Estep4).
  step_in E. rewrite (loadEvents_extend extra _ _ _ _ _ _ Estep5).
  step_in E. inversion E. reflexivity.
Qed.

Lemma loadRecords_extend (extra : list byte) (hashIdx : nat) (n : nat) :
  forall (recordIdx : nat) (r r' : Reader) (ad ad' : AnimationData)
         (rs rs' : list (option AnimationDataRecord)),
  loadRecords n recordIdx hashIdx (r, ad, rs) = Ok (r', ad', rs') ->
  loadRecords n recordIdx hashIdx (extend extra r, ad, rs)
    = Ok (extend extra r', ad', rs').
Proof.
  induction n as [|n IH]; simpl; intros recordIdx r r' ad ad' rs rs' E.
  - inversion E. reflexivity.
  - step_in E.
    rewrite (loadRecord_extend extra _ _ _ _ _ _ _ _ Estep). apply IH. exact E.
Qed.

Lemma loadBlock_extend (extra : list byte) (blockIdx hashIdx : nat)
    (r r' : Reader) (ad ad' : AnimationData) :
  loadBlock blockIdx hashIdx (r, ad) = Ok (r', ad') ->
  loadBlock blockIdx hashIdx (extend extra r, ad) = Ok (extend extra r', ad').
Proof.
  unfold loadBlock. intros E.
  step_in E. rewrite (Next_extend extra _ _ _ _ Estep).
  destruct (_ <? _); [discriminate|].
  step_in E. rewrite (loadRecords_extend extra _ _ _ _ _ _ _ _ _ Estep0).
  step_in E. inversion E. reflexivity.
Qed.

Lemma loadBlocks_extend (extra : list byte) (hashIdx : nat) (n : nat) :
  forall (blockIdx : nat) (r r' : Reader) (ad ad' : AnimationData),
  loadBlocks n blockIdx hashIdx (r, ad) = Ok (r', ad') ->
  loadBlocks n blockIdx hashIdx (extend extra r, ad) = Ok (extend extra r', ad').
Proof.
  induction n as [|n IH]; simpl; intros blockIdx r r' ad ad' E.
  - inversion E. reflexivity.
  - step_in E.
    rewrite (loadBlock_extend extra _ _ _ _ _ _ Estep). apply IH. exact E.
Qed.

(** Running [k + m] iterations is running [k] and then [m]. *)
Lemma loadBlocks_add (hashIdx : nat) (k m : nat) :
  forall (blockIdx : nat) (st : Reader * AnimationData),
  loadBlocks (k + m) blockIdx hashIdx st =
  match loadBlocks k blockIdx hashIdx st with
  | Err e => Err e
  | Ok st' => loadBlocks m (blockIdx + k) hashIdx st'
  end.
Proof.
  induction k as [|k IH]; simpl; intros blockIdx st.
  - rewrite Nat.add_0_r. reflexivity.
  - destruct (loadBlock blockIdx hashIdx st) as [st1|e]; [|reflexivity].
    rewrite IH. replace (S blockIdx + k)%nat with (blockIdx + S k)%nat by lia.
    reflexivity.
Qed.

(** A successful [Load] has run the 256 iterations and stopped at the end
    of the buffer. *)
Lemma Load_Some (data : list byte) (ad : AnimationData) :
  Load data = (Some ad, None) <->
  exists reader, loadBlocks numBlocks 0 0 (FromBytes data, newAnimationData)
                   = Ok (reader, ad) /\ Position reader = length data.
Proof.
  unfold Load.
  destruct (loadBlocks _ _ _ _) as [[r a]|e]; split.
  - destruct (Nat.eqb_spec (Position r) (length data)); simpl; intros E;
      inversion E; subst. eauto.
  - intros (r' & E & Hp). inversion E; subst.
    destruct (Nat.eqb_spec (Position r') (length data)); [reflexivity|contradiction].
  - discriminate.
  - intros (r' & E & _). discriminate.
Qed.

End LoadFacts.

(** Case analysis on the first [result] scrutinised in [H], keeping both
    branches. *)
Ltac case_in H :=
  match type of H with
  | context [match ?m with _ => _ end] =>
      lazymatch type of m with
      | result _ =>
          let E := fresh "Ecase" in
          let x := fresh "x" in
          destruct m as [x|?] eqn:E; [split_prod x|]
      end
  end.

Section LoadErrors.
Context `{IntegerReading} `{NameHash}.

Lemma loadEvents_Err (n : nat) :
  forall (eventIdx : Z) (r : Reader) (ev : gmap Z FrameEvent) (e : error),
  loadEvents n eventIdx r ev = Err e -> e = ErrOutOfData.
Proof.
  induction n as [|n IH]; simpl; intros eventIdx r ev e E; [discriminate|].
  case_in E.
  - eapply IH. exact E.
  - inversion E; subst. eapply Next_Err. eassumption.
Qed.

Lemma index_Err {A : Type} (s : list A) (i : nat) (e : error) :
  index s i = Err e -> e = PanicIndexOutOfRange.
Proof. unfold index. destruct (s !! i); intros E; inversion E; reflexivity. Qed.

Lemma set_index_Err {A : Type} (s : list A) (i : nat) (v : A) (e : error) :
  set_index s i v = Err e -> e = PanicIndexOutOfRange.
Proof.
  unfold set_index. destruct (_ <? _)%nat; intros E; inversion E; reflexivity.
Qed.

Lemma loadRecord_Err (recordIdx hashIdx : nat) (st : recordState) (e : error) :
  loadRecord recordIdx hashIdx st = Err e -> e <> ErrTooManyRecords.
Proof.
  destruct st as [[r ad] rs]. unfold loadRecord. intros E.
  repeat (case_in E;
          [| inversion E; subst;
             match goal with
             | Hc : _ = Err _ |- _ =>
                 first [ apply Next_Err in Hc | apply index_Err in Hc
                       | apply set_index_Err in Hc | apply loadEvents_Err in Hc ]
             end;
             subst; discriminate ];
          try (destruct (negb _); [inversion E; discriminate|])).
  discriminate E.
Qed.

Lemma loadRecords_Err (hashIdx : nat) (n : nat) :
  forall (recordIdx : nat) (st : recordState) (e : error),
  loadRecords n recordIdx hashIdx st = Err e -> e <> ErrTooManyRecords.
Proof.
  induction n as [|n IH]; simpl; intros recordIdx st e E; [discriminate|].
  case_in E.
  - eapply IH. exact E.
  - inversion E; subst. eapply loadRecord_Err. eassumption.
Qed.

(** A block whose declared count is above the limit is refused before any
    of its records is read. *)
Lemma loadBlock_too_many (blockIdx hashIdx : nat) (r r' : Reader)
    (ad : AnimationData) (countBits : list byte) :
  Next 4 r = Ok (countBits, r') ->
  maxRecordsPerBlock < AsUInt32 countBits ->
  loadBlock blockIdx hashIdx (r, ad) = Err ErrTooManyRecords.
Proof.
  intros EN Hgt. unfold loadBlock. rewrite EN.
  destruct (Z.ltb_spec maxRecordsPerBlock (AsUInt32 countBits)); [reflexivity|lia].
Qed.

(** A block whose declared count is within the limit goes on to its
    records. *)
Lemma loadBlock_within (blockIdx hashIdx : nat) (r r' : Reader)
    (ad : AnimationData) (countBits : list byte) :
  Next 4 r = Ok (countBits, r') ->
  AsUInt32 countBits <= maxRecordsPerBlock ->
  loadBlock blockIdx hashIdx (r, ad) =
  match loadRecords (Z.to_nat (AsUInt32 countBits)) 0 hashIdx
          (r', ad, replicate (Z.to_nat (AsUInt32 countBits)) None) with
  | Err e => Err e
  | Ok (reader, animdata, records) =>
      match set_index (blocks animdata) blockIdx
              (Some (mkBlock (AsUInt32 countBits) records)) with
      | Err e => Err e
      | Ok bs => Ok (reader, set_blocks bs animdata)
      end
  end.
Proof.
  intros EN Hle. unfold loadBlock. rewrite EN.
  destruct (Z.ltb_spec maxRecordsPerBlock (AsUInt32 countBits)); [lia|].
  destruct (loadRecords _ _ _ _) as [[[? ?] ?]|?]; reflexivity.
Qed.

End LoadErrors.

(** ** What [Load] stores *)

Section LoadStore.
Context `{IntegerReading} `{NameHash}.

(** One iteration of the record loop stores one record: in the slot
    [recordIdx] of the block's slice, at the end of the list of its name,
    and its hash in the slot [hashIdx] of the hash table. *)
Lemma loadRecord_Ok (recordIdx hashIdx : nat) (r r' : Reader)
    (ad ad' : AnimationData) (rs rs' : list (option AnimationDataRecord)) :
  loadRecord recordIdx hashIdx (r, ad, rs) = Ok (r', ad', rs') ->
  exists rec : AnimationDataRecord,
    (recordIdx < length rs)%nat /\
    rs' = <[recordIdx := Some rec]> rs /\
    blocks ad' = blocks ad /\
    (hashIdx < length (hashTable ad))%nat /\
    hashTable ad' = <[hashIdx := hashName (name rec)]> (hashTable ad) /\
    forall nm, GetRecords ad' nm = GetRecords ad nm ++ named nm [rec].
Proof.
  unfold loadRecord. intros E.
  step_in E. step_in E. destruct (negb _); [discriminate|].
  do 6 step_in E. inversion E; subst; clear E.
  apply set_index_Ok in Estep1 as [Hh ->].
  apply set_index_Ok in Estep6 as [Hi ->].
  eexists. split; [exact Hi|]. split; [reflexivity|].
  split; [reflexivity|]. split; [exact Hh|]. split; [reflexivity|].
  intros nm. unfold GetRecords, named. simpl.
  set (key := stripNUL (string_of_bytes s)).
  rewrite filter_cons, filter_nil. simpl.
  destruct (decide (key = nm)) as [->|Hne].
  - rewrite lookup_insert_eq. simpl.
    destruct (entries ad !! nm) eqn:En; simpl.
    + rewrite En. reflexivity.
    + rewrite lookup_insert_eq. reflexivity.
  - rewrite lookup_insert_ne by exact Hne.
    destruct (entries ad !! key) eqn:En; simpl.
    + rewrite app_nil_r. reflexivity.
    + rewrite lookup_insert_ne by exact Hne. rewrite app_nil_r. reflexivity.
Qed.

(** [n] iterations store [n] records in the slots from [recordIdx] on. *)
Lemma loadRecords_Ok (hashIdx : nat) (n : nat) :
  forall (recordIdx : nat) (r r' : Reader) (ad ad' : AnimationData)
         (rs rs' : list (option AnimationDataRecord)),
  loadRecords n recordIdx hashIdx (r, ad, rs) = Ok (r', ad', rs') ->
  exists news : list AnimationDataRecord,
    length news = n /\
    rs' = take recordIdx rs ++ map Some news ++ drop (recordIdx + n) rs /\
    blocks ad' = blocks ad /\
    length (hashTable ad') = length (hashTable ad) /\
    (forall i, i <> hashIdx -> hashTable ad' !! i = hashTable ad !! i) /\
    hashTable ad' !! hashIdx =
      match last news with
      | Some rec => Some (hashName (name rec))
      | None => hashTable ad !! hashIdx
      end /\
    forall nm, GetRecords ad' nm = GetRecords ad nm ++ named nm news.
Proof.
  induction n as [|n IH]; simpl; intros recordIdx r r' ad ad' rs rs' E.
  - inversion E; subst. exists []. simpl.
    rewrite Nat.add_0_r, take_drop.
    repeat split; auto. intros nm. unfold named. rewrite filter_nil, app_nil_r.
    reflexivity.
  - step_in E.
    apply loadRecord_Ok in Estep
      as (rec & Hi & -> & Hb & Hh & Ht & Hg).
    apply IH in E as (news & Hlen & -> & Hb' & Hl' & Ho' & Hh' & Hg').
    exists (rec :: news). split; [simpl; lia|]. split.
    { rewrite drop_insert_lt by lia.
      replace (recordIdx + S n)%nat with (S recordIdx + n)%nat by lia.
      rewrite (take_S_r _ _ (Some rec))
        by (apply list_lookup_insert_eq; exact Hi).
      rewrite take_insert_ge by lia.
      simpl. rewrite <- app_assoc. reflexivity. }
    split; [congruence|].
    split; [rewrite Hl', Ht, length_insert; reflexivity|].
    split.
    { intros i Hne. rewrite Ho' by exact Hne. rewrite Ht.
      apply list_lookup_insert_ne. auto. }
    split.
    { rewrite Hh'. rewrite Ht. rewrite last_cons.
      destruct (last news); [reflexivity|].
      apply list_lookup_insert_eq. exact Hh. }
    intros nm. rewrite Hg', Hg. unfold named.
    rewrite <- app_assoc. rewrite <- filter_app. reflexivity.
Qed.

End LoadStore.

Lemma omap_id_map_Some {A : Type} (l : list A) : omap id (map Some l) = l.
Proof. induction l as [|x l IH]; simpl; [reflexivity|]. f_equal. exact IH. Qed.

Lemma named_app (nm : string) (l1 l2 : list AnimationDataRecord) :
  named nm (l1 ++ l2) = named nm l1 ++ named nm l2.
Proof. apply filter_app. Qed.

Lemma named_absent (nm : string) (l : list AnimationDataRecord) :
  nm ∉ map name l -> named nm l = [].
Proof.
  unfold named. induction l as [|r l IH]; intros Hnot; [reflexivity|].
  simpl in Hnot. apply not_elem_of_cons in Hnot as [Hne Hl].
  rewrite filter_cons.
  destruct (decide (name r = nm)) as [Heq|_]; [congruence|]. apply IH, Hl.
Qed.

Lemma hashTableSize_pos : (0 < hashTableSize)%nat.
Proof. apply Nat.ltb_lt. vm_compute. reflexivity. Qed.

Section LoadBlocks.
Context `{IntegerReading} `{NameHash}.

Lemma loadBlock_Ok (blockIdx hashIdx : nat) (r r' : Reader) (ad ad' : AnimationData) :
  loadBlock blockIdx hashIdx (r, ad) = Ok (r', ad') ->
  exists b : block,
    fullBlock b /\
    (blockIdx < length (blocks ad))%nat /\
    blocks ad' = <[blockIdx := Some b]> (blocks ad) /\
    length (hashTable ad') = length (hashTable ad) /\
    (forall i, i <> hashIdx -> hashTable ad' !! i = hashTable ad !! i) /\
    hashTable ad' !! hashIdx =
      match last (blockRecords (Some b)) with
      | Some rec => Some (hashName (name rec))
      | None => hashTable ad !! hashIdx
      end /\
    forall nm, GetRecords ad' nm = GetRecords ad nm ++ named nm (blockRecords (Some b)).
Proof.
  unfold loadBlock. intros E. step_in E.
  destruct (Z.ltb_spec maxRecordsPerBlock (AsUInt32 s)) as [|Hle]; [discriminate|].
  step_in E. step_in E. inversion E; subst; clear E.
  apply loadRecords_Ok in Estep0
    as (news & Hlen & Hrs & Hb & Hl & Ho & Hh & Hg).
  apply set_index_Ok in Estep1 as [Hi ->].
  simpl in Hrs. rewrite drop_replicate, Nat.sub_diag in Hrs. simpl in Hrs.
  rewrite app_nil_r in Hrs. rewrite Hrs.
  eexists (mkBlock _ _). split.
  { split; [exact Hle|]. exists news. simpl. auto. }
  simpl. rewrite omap_id_map_Some.
  rewrite Hb in Hi. rewrite Hb. repeat split; auto.
Qed.

Lemma loadBlocks_Ok (hashIdx : nat) (n : nat) :
  forall (blockIdx : nat) (r r' : Reader) (ad ad' : AnimationData),
  loadBlocks n blockIdx hashIdx (r, ad) = Ok (r', ad') ->
  exists bs : list block,
    length bs = n /\ Forall fullBlock bs /\
    blocks ad' = take blockIdx (blocks ad) ++ map Some bs
                   ++ drop (blockIdx + n) (blocks ad) /\
    length (hashTable ad') = length (hashTable ad) /\
    (forall i, i <> hashIdx -> hashTable ad' !! i = hashTable ad !! i) /\
    hashTable ad' !! hashIdx =
      match last (flat_map blockRecords (map Some bs)) with
      | Some rec => Some (hashName (name rec))
      | None => hashTable ad !! hashIdx
      end /\
    forall nm, GetRecords ad' nm
               = GetRecords ad nm ++ named nm (flat_map blockRecords (map Some bs)).
Proof.
  induction n as [|n IH]; simpl; intros blockIdx r r' ad ad' E.
  - inversion E; subst. exists []. simpl.
    rewrite Nat.add_0_r, take_drop.
    repeat split; auto. intros nm. rewrite app_nil_r. reflexivity.
  - step_in E.
    apply loadBlock_Ok in Estep as (b & Hfull & Hi & Hb & Hl & Ho & Hh & Hg).
    apply IH in E as (bs & Hlen & Hall & Hb' & Hl' & Ho' & Hh' & Hg').
    exists (b :: bs). split; [simpl; lia|]. split; [constructor; assumption|]. split.
    { rewrite Hb', Hb. rewrite drop_insert_lt by lia.
      replace (blockIdx + S n)%nat with (S blockIdx + n)%nat by lia.
      rewrite (take_S_r _ _ (Some b)) by (apply list_lookup_insert_eq; exact Hi).
      rewrite take_insert_ge by lia.
      simpl. rewrite <- app_assoc. reflexivity. }
    split; [congruence|].
    split; [intros i Hne; rewrite Ho', Ho by exact Hne; reflexivity|].
    split.
    { rewrite Hh'. change (flat_map blockRecords (map Some (b :: bs)))
        with (blockRecords (Some b) ++ flat_map blockRecords (map Some bs)).
      rewrite last_app.
      destruct (last (flat_map blockRecords (map Some bs))); [reflexivity|].
      exact Hh. }
    intros nm. rewrite Hg', Hg.
    change (flat_map blockRecords (map Some (b :: bs)))
      with (blockRecords (Some b) ++ flat_map blockRecords (map Some bs)).
    rewrite named_app, app_assoc. reflexivity.
Qed.

(** The store of a successful [Load]: 256 full blocks; under every name
    the records of that name in the order they were read; and a hash table
    whose slot 0 holds the hash of the last record read, every other slot
    being as it was created. *)
Lemma Load_store (data : list byte) (ad : AnimationData) :
  Load data = (Some ad, None) ->
  (exists bs, blocks ad = map Some bs /\ length bs = numBlocks /\ Forall fullBlock bs) /\
  (forall nm, GetRecords ad nm = named nm (allRecords ad)) /\
  length (hashTable ad) = hashTableSize /\
  (forall i, (1 <= i < hashTableSize)%nat -> hashTable ad !! i = Some 0) /\
  hashTable ad !! 0%nat =
    Some (match last (allRecords ad) with
          | Some rec => hashName (name rec)
          | None => 0
          end).
Proof.
  intros E. apply Load_Some in E as (reader & E & _).
  apply loadBlocks_Ok in E as (bs & Hlen & Hall & Hb & Hl & Ho & Hh & Hg).
  change (blocks newAnimationData) with (replicate numBlocks (@None block)) in Hb.
  change (hashTable newAnimationData) with (replicate hashTableSize 0) in *.
  rewrite take_0, Nat.add_0_l, drop_replicate, Nat.sub_diag in Hb.
  simpl in Hb. rewrite app_nil_r in Hb.
  unfold allRecords. rewrite Hb.
  split; [exists bs; auto|].
  split; [intros nm; rewrite Hg; reflexivity|].
  split; [rewrite Hl; apply length_replicate|].
  split.
  { intros i Hi. rewrite Ho by lia. apply lookup_replicate_2. lia. }
  rewrite Hh. destruct (last _); [reflexivity|].
  apply lookup_replicate_2. apply hashTableSize_pos.
Qed.

(** [GetRecord] is the last element of [GetRecords]. *)
Lemma GetRecord_last (ad : AnimationData) (nm : string) :
  GetRecord ad nm = last (GetRecords ad nm).
Proof.
  unfold GetRecord. rewrite last_lookup.
  destruct (GetRecords ad nm) as [|x l]; [reflexivity|].
  simpl length. rewrite Nat.sub_1_r. reflexivity.
Qed.

End LoadBlocks.

(** ** The lookups of the animation data store *)

(** C4. After a successful [Load], [GetRecords] returns the records of the
    given name in the order in which they were read, the empty slice for a
    name that was never read, and [GetRecord] returns the last of them
    across all blocks, or [nil] for a name that was never read. *)
Theorem GetRecords_in_read_order `{IntegerReading} `{NameHash}
    (data : list byte) (ad : AnimationData) (nm : string) :
  Load data = (Some ad, None) ->
  GetRecords ad nm = named nm (allRecords ad) /\
  GetRecord ad nm = last (named nm (allRecords ad)) /\
  (nm ∉ map name (allRecords ad) -> GetRecords ad nm = [] /\ GetRecord ad nm = None).
Proof.
  intros E. apply Load_store in E as (_ & Hg & _).
  rewrite GetRecord_last, Hg.
  split; [reflexivity|]. split; [reflexivity|].
  intros Hnot.
  rewrite (named_absent _ _ Hnot). split; reflexivity.
Qed.

Lemma GetRecords_in_read_order_witness :
  Load overrideData = (Some (storeOf overrideData), None) /\
  map (fun r => (name r, events r !! 0)) (allRecords (storeOf overrideData))
    = [("A"%string, Some 1); ("B"%string, Some 3); ("A"%string, Some 2)] /\
  map (fun r => events r !! 0) (GetRecords (storeOf overrideData) "A")
    = [Some 1; Some 2] /\
  GetRecords (storeOf overrideData) "A"
    = named "A" (allRecords (storeOf overrideData)) /\
  GetRecord (storeOf overrideData) "A"
    = last (named "A" (allRecords (storeOf overrideData))) /\
  GetRecords (storeOf overrideData) "C" = [] /\
  GetRecord (storeOf overrideData) "C" = None.
Proof.
  assert (E : Load overrideData = (Some (storeOf overrideData), None))
    by (vm_compute; reflexivity).
  split; [exact E|].
  split; [vm_compute; reflexivity|].
  split; [vm_compute; reflexivity|].
  destruct (GetRecords_in_read_order overrideData _ "A" E) as (HA1 & HA2 & _).
  destruct (GetRecords_in_read_order overrideData _ "C" E) as (_ & _ & HC).
  split; [exact HA1|]. split; [exact HA2|].
  apply HC. vm_compute. intros Hin.
  repeat (apply elem_of_cons in Hin as [Hin|Hin]; [discriminate|]).
  apply elem_of_nil in Hin. exact Hin.
Defined.

(** ** The limit on the records of a block *)

(** C6. When the blocks before block [k] have been read and block [k]
    declares more than 67 records, [Load] fails with the error of a block
    with too many records; a declared count of 67 or less is not refused:
    the iteration goes on to the records and cannot fail with that error. *)
Theorem Load_record_count_limit `{IntegerReading} `{NameHash}
    (data : list byte) (k : nat) (reader reader' : Reader) (ad : AnimationData)
    (countBits : list byte) :
  (k < numBlocks)%nat ->
  loadBlocks k 0 0 (FromBytes data, newAnimationData) = Ok (reader, ad) ->
  Next 4 reader = Ok (countBits, reader') ->
  (maxRecordsPerBlock < AsUInt32 countBits ->
   Load data = (None, Some ErrTooManyRecords)) /\
  (AsUInt32 countBits <= maxRecordsPerBlock ->
   loadBlock k 0 (reader, ad) <> Err ErrTooManyRecords).
Proof.
  intros Hk Hprefix HNext. split.
  - intros Hgt. unfold Load.
    replace numBlocks with (k + S (numBlocks - k - 1))%nat by lia.
    rewrite loadBlocks_add, Hprefix. simpl loadBlocks.
    rewrite (loadBlock_too_many _ _ _ _ _ _ HNext Hgt). reflexivity.
  - intros Hle. rewrite (loadBlock_within _ _ _ _ _ _ HNext Hle).
    destruct (loadRecords _ _ _ _) as [[[r1 ad1] rs1]|e] eqn:ER.
    + destruct (set_index _ _ _) eqn:ES; [discriminate|].
      apply set_index_Err in ES. subst. discriminate.
    + apply loadRecords_Err in ER. congruence.
Qed.

Lemma Load_record_count_limit_witness :
  Load oversizedData = (None, Some ErrTooManyRecords) /\
  loadBlock 0 0 (FromBytes fullBlockData, newAnimationData) <> Err ErrTooManyRecords.
Proof.
  split.
  - refine (proj1 (Load_record_count_limit oversizedData 1
                     (mkReader oversizedData 4) (mkReader oversizedData 8)
                     (set_blocks (<[0%nat := Some (mkBlock 0 [])]>
                                    (blocks newAnimationData)) newAnimationData)
                     (u32 68) _ _ _) _).
    + unfold numBlocks. lia.
    + vm_compute. reflexivity.
    + vm_compute. reflexivity.
    + vm_compute. reflexivity.
  - refine (proj2 (Load_record_count_limit fullBlockData 0
                     (FromBytes fullBlockData) (mkReader fullBlockData 4)
                     newAnimationData (u32 67) _ _ _) _).
    + unfold numBlocks. lia.
    + reflexivity.
    + vm_compute. reflexivity.
    + vm_compute. discriminate.
Defined.

(** ** The hash table *)

(** C3. On a file of two records, "A" then "B", [Load] succeeds and leaves
    the hash of "B", the last record read, in slot 0 of the hash table and
    the initial zero in slot 1: the hashes are not laid down in reading
    order, which would put the hash of "A" in slot 0 and that of "B" in
    slot 1. *)
Theorem Load_hash_table_two_records :
  Load twoRecordData = (Some (storeOf twoRecordData), None) /\
  map name (allRecords (storeOf twoRecordData)) = ["A"%string; "B"%string] /\
  hashTable (storeOf twoRecordData) !! 0%nat = Some (hashName "B") /\
  hashTable (storeOf twoRecordData) !! 1%nat = Some 0 /\
  hashName "A" = 65 /\ hashName "B" = 66.
Proof.
  assert (E : Load twoRecordData = (Some (storeOf twoRecordData), None))
    by (vm_compute; reflexivity).
  assert (Hnames : map name (allRecords (storeOf twoRecordData))
                   = ["A"%string; "B"%string]) by (vm_compute; reflexivity).
  destruct (Load_store _ _ E) as (_ & _ & _ & Hrest & Hzero).
  split; [exact E|]. split; [exact Hnames|]. split.
  - rewrite Hzero. destruct (allRecords (storeOf twoRecordData)) as [|a [|b [|c l]]];
      try discriminate Hnames.
    injection Hnames as _ Hb. unfold last. rewrite Hb. reflexivity.
  - split; [apply Hrest; split; [lia|apply Nat.ltb_lt; vm_compute; reflexivity]|].
    split; vm_compute; reflexivity.
Qed.

(** ** Pieces of a list *)

Lemma length_chunks {A : Type} (n size : nat) :
  forall l : list A, length (chunks n size l) = n.
Proof. induction n as [|n IH]; simpl; intros l; [reflexivity|]. rewrite IH. reflexivity. Qed.

Lemma concat_chunks {A : Type} (n size : nat) :
  forall l : list A, concat (chunks n size l) = take (n * size) l.
Proof.
  induction n as [|n IH]; simpl; intros l; [reflexivity|].
  rewrite IH. apply take_take_drop.
Qed.

Lemma chunks_sized {A : Type} (n size : nat) :
  forall l : list A, (n * size <= length l)%nat ->
  Forall (fun c => length c = size) (chunks n size l).
Proof.
  induction n as [|n IH]; simpl; intros l Hlen; constructor.
  - rewrite length_take. lia.
  - apply IH. rewrite length_drop. lia.
Qed.

Lemma chunks_take {A : Type} (n size : nat) :
  forall (m : nat) (l : list A), (n * size <= m)%nat ->
  chunks n size (take m l) = chunks n size l.
Proof.
  induction n as [|n IH]; simpl; intros m l Hm; [reflexivity|].
  rewrite take_take. replace (size `min` m)%nat with size by lia.
  f_equal. rewrite <- (IH (m - size)%nat (drop size l)) by lia.
  f_equal. rewrite take_drop_commute. f_equal. f_equal. lia.
Qed.

Lemma lookup_chunks {A : Type} (n size : nat) :
  forall (k : nat) (l : list A), (k < n)%nat ->
  chunks n size l !! k = Some (take size (drop (k * size) l)).
Proof.
  induction n as [|n IH]; simpl; intros k l Hk; [lia|].
  destruct k as [|k]; simpl; [reflexivity|].
  rewrite IH by lia. rewrite drop_drop. reflexivity.
Qed.

(** ** The priority matrix *)

Lemma set_index2_Ok {A : Type} (p : list (list A)) (d f : nat) (v : A) (row : list A) :
  p !! d = Some row -> (f < length row)%nat ->
  set_index2 p d f v = Ok (<[d := <[f := v]> row]> p).
Proof.
  intros Hd Hf. unfold set_index2, index. rewrite Hd. simpl.
  rewrite set_index_lt by exact Hf. simpl.
  apply set_index_lt. eapply lookup_lt_Some. exact Hd.
Qed.

Lemma set_index3_Ok {A : Type} (p : list (list (list A))) (d f i : nat) (v : A)
    (row : list (list A)) (cell : list A) :
  p !! d = Some row -> row !! f = Some cell -> (i < length cell)%nat ->
  set_index3 p d f i v = Ok (<[d := <[f := <[i := v]> cell]> row]> p).
Proof.
  intros Hd Hf Hi. unfold set_index3, index. rewrite Hd. simpl. rewrite Hf. simpl.
  rewrite set_index_lt by exact Hi. simpl.
  rewrite set_index_lt by (eapply lookup_lt_Some; exact Hf). simpl.
  apply set_index_lt. eapply lookup_lt_Some. exact Hd.
Qed.

Lemma index3_Ok {A : Type} (p : list (list (list A))) (d f i : nat) (v : A)
    (row : list (list A)) (cell : list A) :
  p !! d = Some row -> row !! f = Some cell -> cell !! i = Some v ->
  index3 p d f i = Ok v.
Proof.
  intros Hd Hf Hi. unfold index3, index. rewrite Hd. simpl. rewrite Hf. simpl.
  rewrite Hi. reflexivity.
Qed.

(** The innermost loop fills the cell [frame] of the row [direction] with
    the next [n] bytes. *)
Lemma loadPriority_layers_Ok (bs : list byte) (d f : nat) (n : nat) :
  forall (i : nat) (p : list (list (list CompositeType))) (idx : nat)
         (row : list (list CompositeType)) (cell : list CompositeType),
  p !! d = Some row -> row !! f = Some cell ->
  length cell = (i + n)%nat -> (idx + n <= length bs)%nat ->
  loadPriority_layers n i d f bs (p, idx) =
  Ok (<[d := <[f := take i cell ++ map int_of_byte (take n (drop idx bs))]> row]> p,
      (idx + n)%nat).
Proof.
  induction n as [|n IH]; intros i p idx row cell Hd Hf Hlen Hbs; simpl.
  - rewrite app_nil_r, take_ge by lia.
    rewrite (list_insert_id row f cell) by exact Hf.
    rewrite list_insert_id by exact Hd. rewrite Nat.add_0_r. reflexivity.
  - destruct (lookup_lt_is_Some_2 bs idx) as [b Hb]; [lia|].
    unfold index at 1. rewrite Hb.
    rewrite (set_index3_Ok _ _ _ _ _ row cell) by (auto; lia).
    rewrite (IH (S i) _ (S idx) (<[f := <[i := int_of_byte b]> cell]> row)
               (<[i := int_of_byte b]> cell)).
    + rewrite !list_insert_insert_eq.
      rewrite (take_S_r _ _ (int_of_byte b)) by (apply list_lookup_insert_eq; lia).
      rewrite take_insert_ge by lia.
      rewrite (drop_S bs b idx Hb). simpl.
      rewrite <- app_assoc. simpl.
      do 2 f_equal. lia.
    + apply list_lookup_insert_eq. eapply lookup_lt_Some. exact Hd.
    + apply list_lookup_insert_eq. eapply lookup_lt_Some. exact Hf.
    + rewrite length_insert. lia.
    + lia.
Qed.

(** The loop over the frames fills the row [direction], frame after
    frame, with pieces of [numLayers] bytes. *)
Lemma loadPriority_frames_Ok (bs : list byte) (d numLayers : nat) (n : nat) :
  forall (f : nat) (p : list (list (list CompositeType))) (idx : nat)
         (row : list (list CompositeType)),
  p !! d = Some row -> length row = (f + n)%nat ->
  (idx + n * numLayers <= length bs)%nat ->
  loadPriority_frames n f d numLayers bs (p, idx) =
  Ok (<[d := take f row
               ++ map (map int_of_byte) (chunks n numLayers (drop idx bs))]> p,
      (idx + n * numLayers)%nat).
Proof.
  induction n as [|n IH]; intros f p idx row Hd Hlen Hbs; simpl.
  - rewrite app_nil_r, take_ge by lia.
    rewrite list_insert_id by exact Hd. rewrite Nat.add_0_r. reflexivity.
  - rewrite (set_index2_Ok _ _ _ _ row) by (auto; lia).
    rewrite (loadPriority_layers_Ok bs d f numLayers 0 _ idx
               (<[f := replicate numLayers 0]> row) (replicate numLayers 0)).
    + rewrite !list_insert_insert_eq. simpl take at 1. simpl app at 1.
      rewrite (IH (S f) _ (idx + numLayers)%nat
                 (<[f := map int_of_byte (take numLayers (drop idx bs))]> row)).
      * rewrite !list_insert_insert_eq.
        rewrite (take_S_r _ _ (map int_of_byte (take numLayers (drop idx bs))))
          by (apply list_lookup_insert_eq; lia).
        rewrite take_insert_ge by lia.
        rewrite drop_drop. rewrite <- app_assoc. simpl.
        do 2 f_equal. lia.
      * apply list_lookup_insert_eq. eapply lookup_lt_Some. exact Hd.
      * rewrite length_insert. lia.
      * lia.
    + apply list_lookup_insert_eq. eapply lookup_lt_Some. exact Hd.
    + apply list_lookup_insert_eq. lia.
    + rewrite length_replicate. reflexivity.
    + lia.
Qed.

(** The loop over the directions fills the matrix, row after row, with
    pieces of [framesPerDir * numLayers] bytes. *)
Lemma loadPriority_directions_Ok (bs : list byte) (framesPerDir numLayers : nat)
    (n : nat) :
  forall (d : nat) (p : list (list (list CompositeType))) (idx : nat),
  length p = (d + n)%nat ->
  (idx + n * (framesPerDir * numLayers) <= length bs)%nat ->
  loadPriority_directions n d framesPerDir numLayers bs (p, idx) =
  Ok (take d p ++ priorityOf n framesPerDir numLayers (drop idx bs),
      (idx + n * (framesPerDir * numLayers))%nat).
Proof.
  unfold priorityOf.
  induction n as [|n IH]; intros d p idx Hlen Hbs; simpl.
  - rewrite app_nil_r, take_ge by lia. rewrite Nat.add_0_r. reflexivity.
  - rewrite set_index_lt by lia.
    rewrite (loadPriority_frames_Ok bs d numLayers framesPerDir 0 _ idx
               (replicate framesPerDir [])).
    + rewrite list_insert_insert_eq. simpl take at 1. simpl app at 1.
      rewrite IH.
      * rewrite (take_S_r _ _ (map (map int_of_byte)
                                  (chunks framesPerDir numLayers (drop idx bs))))
          by (apply list_lookup_insert_eq; lia).
        rewrite take_insert_ge by lia.
        rewrite drop_drop. rewrite <- app_assoc. simpl.
        rewrite chunks_take by lia.
        do 2 f_equal. lia.
      * rewrite length_insert. lia.
      * lia.
    + apply list_lookup_insert_eq. lia.
    + rewrite length_replicate. reflexivity.
    + lia.
Qed.

(** ** The steps of [Unmarshal] *)

Section UnmarshalSteps.
Context `{WeaponClasses}.

Lemma storeAnimationFrames_Ok (b : list byte) :
  forall (i : nat) (fs : list Z),
  length fs = (i + length b)%nat ->
  storeAnimationFrames b i fs = Ok (take i fs ++ map int_of_byte b).
Proof.
  induction b as [|x b IH]; intros i fs Hlen; simpl in *.
  - rewrite app_nil_r, take_ge by lia. reflexivity.
  - rewrite set_index_lt by lia. rewrite IH by (rewrite length_insert; lia).
    rewrite (take_S_r _ _ (int_of_byte x)) by (apply list_lookup_insert_eq; lia).
    rewrite take_insert_ge by lia. rewrite <- app_assoc. reflexivity.
Qed.

Lemma loadAnimationFrames_Ok (b : list byte) (c : COF) :
  length b = Z.to_nat (FramesPerDirection c) ->
  loadAnimationFrames b c = Ok (set_AnimationFrames (map int_of_byte b) c).
Proof.
  intros Hlen. unfold loadAnimationFrames.
  rewrite storeAnimationFrames_Ok by (rewrite length_replicate; lia).
  reflexivity.
Qed.

Lemma loadPriority_Ok (bs : list byte) (c : COF) :
  Priority c = replicate (Z.to_nat (NumberOfDirections c)) [] ->
  length bs = (Z.to_nat (NumberOfDirections c)
               * (Z.to_nat (FramesPerDirection c) * Z.to_nat (NumberOfLayers c)))%nat ->
  loadPriority bs c =
  Ok (set_Priority (priorityOf (Z.to_nat (NumberOfDirections c))
                      (Z.to_nat (FramesPerDirection c))
                      (Z.to_nat (NumberOfLayers c)) bs) c).
Proof.
  intros Hp Hlen. unfold loadPriority.
  rewrite loadPriority_directions_Ok.
  - reflexivity.
  - rewrite Hp, length_replicate. reflexivity.
  - lia.
Qed.

Lemma loadHeader_Ok (b : list byte) (c c' : COF) :
  loadHeader b c = Ok c' ->
  exists b0 b1 b2 sp,
    b !! 0%nat = Some b0 /\ b !! 1%nat = Some b1 /\ b !! 2%nat = Some b2 /\
    b !! 24%nat = Some sp /\
    c' = mkCOF (take 21 (drop 3 b)) (unknownBodyBytes c) (int_of_byte b2)
           (int_of_byte b1) (int_of_byte b0) (int_of_byte sp)
           (CofLayers c) (CompositeLayers c) (AnimationFrames c) (Priority c).
Proof.
  unfold loadHeader, rbind. intros E.
  do 3 step_in E.
  destruct (slice b _ _) as [unknown|] eqn:ES; [|discriminate].
  step_in E. inversion E; subst; clear E.
  repeat match goal with Hx : index _ _ = Ok _ |- _ => apply index_Ok in Hx end.
  unfold slice in ES. destruct (_ && _)%bool; [|discriminate].
  inversion ES; subst; clear ES.
  do 4 eexists. repeat split; eassumption.
Qed.

(** One iteration of [loadCOFLayers] decodes the next nine bytes, stores
    the layer at index [i] and maps its type to [i]. *)
Lemma loadCOFLayer_Ok (i : nat) (s s' : Reader) (c c' : COF) :
  loadCOFLayer i s c = (s', c', None) ->
  exists layer,
    layerOfBytes (take numLayerBytes (drop (Position s) (buffer s))) = Ok layer /\
    buffer s' = buffer s /\ Position s' = (Position s + numLayerBytes)%nat /\
    (Position s' <= length (buffer s))%nat /\
    (i < length (CofLayers c))%nat /\
    c' = set_CompositeLayers (<[Type_ layer := Z.of_nat i]> (CompositeLayers c))
           (set_CofLayers (<[i := layer]> (CofLayers c)) c).
Proof.
  unfold loadCOFLayer. intros E. do 3 step_in E.
  inversion E; subst; clear E.
  apply Next_Ok in Estep as (Hb & Hp & Hbs & Hle & _).
  apply set_index_Ok in Estep1 as [Hi ->].
  match goal with Hx : layerOfBytes _ = Ok ?l |- _ => exists l; rewrite <- Hbs end.
  rewrite Hp. repeat split; auto.
Qed.

Lemma loadCOFLayers_from_Ok (n : nat) :
  forall (i : nat) (s s' : Reader) (c c' : COF),
  loadCOFLayers_from n i s c = (s', c', None) ->
  exists ls,
    Forall2 (fun chunk l => layerOfBytes chunk = Ok l)
      (chunks n numLayerBytes (drop (Position s) (buffer s))) ls /\
    buffer s' = buffer s /\ Position s' = (Position s + n * numLayerBytes)%nat /\
    ((Position s <= length (buffer s))%nat -> (Position s' <= length (buffer s))%nat) /\
    c' = set_CompositeLayers (indexLayers i ls (CompositeLayers c))
           (set_CofLayers (take i (CofLayers c) ++ ls ++ drop (i + n) (CofLayers c)) c).
Proof.
  induction n as [|n IH]; intros i s s' c c' E; simpl in E.
  - inversion E; subst; clear E. exists []. simpl.
    rewrite !Nat.add_0_r, take_drop.
    split; [constructor|]. repeat split; auto. destruct c'; reflexivity.
  - destruct (loadCOFLayer i s c) as [[s1 c1] [e|]] eqn:E1; [discriminate|].
    apply loadCOFLayer_Ok in E1 as (layer & Hl & Hb & Hp & Hle & Hi & ->).
    apply IH in E as (ls & Hall & Hb' & Hp' & Hle' & ->).
    exists (layer :: ls). split.
    { simpl. constructor; [exact Hl|].
      rewrite drop_drop. rewrite Hb, Hp in Hall. exact Hall. }
    split; [congruence|]. split; [rewrite Hp', Hp; unfold numLayerBytes; lia|].
    split; [intros _; rewrite <- Hb; apply Hle'; rewrite Hb; exact Hle|].
    simpl. unfold set_CompositeLayers, set_CofLayers. simpl. f_equal.
    rewrite (take_S_r _ _ layer) by (apply list_lookup_insert_eq; exact Hi).
    rewrite take_insert_ge by lia. rewrite drop_insert_lt by lia.
    rewrite <- app_assoc. simpl.
    replace (i + S n)%nat with (S (i + n)) by lia. reflexivity.
Qed.

End UnmarshalSteps.

(** Reduction of the projections of a document built by the setters. *)
Ltac cof_fields :=
  cbn [unknownHeaderBytes unknownBodyBytes NumberOfDirections FramesPerDirection
       NumberOfLayers Speed CofLayers CompositeLayers AnimationFrames Priority
       set_unknownBodyBytes set_CofLayers set_CompositeLayers set_AnimationFrames
       set_Priority buffer Position FromBytes] in *.

Section UnmarshalResult.
Context `{WeaponClasses}.

Lemma COF_ext (c c' : COF) :
  unknownHeaderBytes c = unknownHeaderBytes c' ->
  unknownBodyBytes c = unknownBodyBytes c' ->
  NumberOfDirections c = NumberOfDirections c' ->
  FramesPerDirection c = FramesPerDirection c' ->
  NumberOfLayers c = NumberOfLayers c' ->
  Speed c = Speed c' ->
  CofLayers c = CofLayers c' ->
  CompositeLayers c = CompositeLayers c' ->
  AnimationFrames c = AnimationFrames c' ->
  Priority c = Priority c' ->
  c = c'.
Proof.
  destruct c, c'. simpl. intros. subst. reflexivity.
Qed.

(** A successful [Unmarshal] has read the header, the body bytes, the
    layers, the frame events and the priority bytes at their offsets, and
    its document holds exactly what they denote. *)
Lemma COF_Unmarshal_Ok (data : list byte) (c0 c : COF) :
  COF_Unmarshal data c0 = (c, None) ->
  exists (b0 b1 b2 sp : byte) (ls : list CofLayer),
    let numLayers := Z.to_nat (int_of_byte b0) in
    let framesPerDir := Z.to_nat (int_of_byte b1) in
    let dirs := Z.to_nat (int_of_byte b2) in
    data !! 0%nat = Some b0 /\ data !! 1%nat = Some b1 /\ data !! 2%nat = Some b2 /\
    data !! 24%nat = Some sp /\
    (documentSize numLayers framesPerDir dirs <= length data)%nat /\
    Forall2 (fun chunk l => layerOfBytes chunk = Ok l)
      (chunks numLayers numLayerBytes (drop layersOffset data)) ls /\
    c = mkCOF (take 21 (drop 3 data)) (take 3 (drop 25 data))
          (int_of_byte b2) (int_of_byte b1) (int_of_byte b0) (int_of_byte sp)
          ls (indexLayers 0 ls ∅)
          (map int_of_byte (take framesPerDir (drop (framesOffset numLayers) data)))
          (priorityOf dirs framesPerDir numLayers
             (drop (priorityOffset numLayers framesPerDir) data)).
Proof.
  unfold COF_Unmarshal. intros E.
  step_in E. step_in E. step_in E.
  match type of E with
  | context [loadCOFLayers ?s ?c] =>
      destruct (loadCOFLayers s c) as [[sL cL] [eL|]] eqn:EL; [discriminate|]
  end.
  step_in E. step_in E. step_in E. step_in E.
  inversion E; subst; clear E.
  apply Next_Ok in Estep as (Hb0 & Hp0 & Hs & Hle0 & _).
  apply loadHeader_Ok in Estep0 as (b0 & b1 & b2 & sp & H0 & H1 & H2 & H24 & ->).
  apply Next_Ok in Estep1 as (Hb1 & Hp1 & Hs1 & Hle1 & _).
  unfold loadCOFLayers in EL.
  apply loadCOFLayers_from_Ok in EL as (ls & Hall & HbL & HpL & HleL & ->).
  cof_fields.
  apply Next_Ok in Estep2 as Hn2. destruct Hn2 as (Hb2 & Hp2 & Hs2 & Hle2 & Hlen2).
  rewrite loadAnimationFrames_Ok in Estep3 by exact Hlen2.
  inversion Estep3; subst x0; clear Estep3.
  cof_fields.
  apply Next_Ok in Estep4 as Hn4. destruct Hn4 as (Hb4 & Hp4 & Hs4 & Hle4 & Hlen4).
  pose proof (int_of_byte_range b0) as R0.
  pose proof (int_of_byte_range b1) as R1.
  pose proof (int_of_byte_range b2) as R2.
  rewrite !Z2Nat.inj_mul in * by lia.
  set (numLayers := Z.to_nat (int_of_byte b0)) in *.
  set (framesPerDir := Z.to_nat (int_of_byte b1)) in *.
  set (dirs := Z.to_nat (int_of_byte b2)) in *.
  rewrite loadPriority_Ok in Estep5
    by (cof_fields; first [reflexivity | fold numLayers framesPerDir dirs; lia]).
  inversion Estep5; subst c; clear Estep5.
  cof_fields. fold numLayers framesPerDir dirs.
  rewrite Hb1, Hb0 in *. rewrite HbL in *. rewrite Hb2 in *.
  unfold numHeaderBytes, numUnknownHeaderBytes, numUnknownBodyBytes in *.
  simpl Nat.add in *. rewrite drop_0 in Hs.
  assert (Hpos2 : Position s2 = 28%nat) by lia.
  assert (HposL : Position sL = framesOffset numLayers)
    by (unfold framesOffset, layersOffset; simpl; lia).
  assert (Hpos4 : Position s4 = priorityOffset numLayers framesPerDir)
    by (unfold priorityOffset; lia).
  exists b0, b1, b2, sp, ls. cbv zeta. fold numLayers framesPerDir dirs.
  rewrite Hs in H0, H1, H2, H24.
  rewrite lookup_take_lt in H0, H1, H2, H24 by lia.
  split; [exact H0|]. split; [exact H1|]. split; [exact H2|]. split; [exact H24|].
  split; [unfold documentSize; lia|].
  split; [rewrite Hpos2 in Hall; exact Hall|].
  apply COF_ext; cof_fields; try reflexivity.
  - rewrite Hs.
    replace (drop 3 (take 25 data)) with (take 22 (drop 3 data))
      by (rewrite take_drop_commute; reflexivity).
    rewrite take_take. reflexivity.
  - rewrite Hs1, Hp0. reflexivity.
  - rewrite drop_replicate, Nat.sub_diag. simpl. rewrite app_nil_r. reflexivity.
  - rewrite Hs2, HposL. reflexivity.
  - rewrite Hs4, Hpos4. unfold priorityOf. rewrite chunks_take by lia. reflexivity.
Qed.

End UnmarshalResult.

(** ** The steps of [Marshal] *)

Lemma writePriority_layers_Ok (p : list (list (list Z))) (d f : nat)
    (row : list (list Z)) (cell : list Z) (n : nat) :
  forall (i : nat) (sw : Writer),
  p !! d = Some row -> row !! f = Some cell -> (i + n <= length cell)%nat ->
  writePriority_layers n i d f p sw
  = Ok (sw ++ map byte_of_int (take n (drop i cell))).
Proof.
  induction n as [|n IH]; intros i sw Hd Hf Hlen; simpl.
  - rewrite app_nil_r. reflexivity.
  - destruct (lookup_lt_is_Some_2 cell i) as [v Hv]; [lia|].
    rewrite (index3_Ok _ _ _ _ v row cell) by assumption.
    rewrite IH by (auto; lia).
    rewrite (drop_S cell v i Hv). unfold WriteByte. simpl.
    rewrite <- app_assoc. reflexivity.
Qed.

Lemma writePriority_frames_Ok (p : list (list (list Z))) (d numLayers : nat)
    (row : list (list Z)) (n : nat) :
  forall (f : nat) (sw : Writer),
  p !! d = Some row -> (f + n <= length row)%nat ->
  Forall (fun cell => length cell = numLayers) row ->
  writePriority_frames n f d numLayers p sw
  = Ok (sw ++ concat (map (map byte_of_int) (take n (drop f row)))).
Proof.
  induction n as [|n IH]; intros f sw Hd Hlen Hcells; simpl.
  - rewrite app_nil_r. reflexivity.
  - destruct (lookup_lt_is_Some_2 row f) as [cell Hc]; [lia|].
    assert (Hl : length cell = numLayers).
    { rewrite Forall_lookup in Hcells. eapply Hcells. exact Hc. }
    rewrite (writePriority_layers_Ok p d f row cell) by (auto; lia).
    rewrite drop_0, take_ge by lia.
    rewrite IH by (auto; lia).
    rewrite (drop_S row cell f Hc). simpl. rewrite <- app_assoc. reflexivity.
Qed.

Lemma writePriority_directions_Ok (p : list (list (list Z)))
    (framesPerDir numLayers : nat) (n : nat) :
  forall (d : nat) (sw : Writer),
  (d + n <= length p)%nat -> wellShaped framesPerDir numLayers p ->
  writePriority_directions n d framesPerDir numLayers p sw
  = Ok (sw ++ flattenPriority (take n (drop d p))).
Proof.
  unfold flattenPriority.
  induction n as [|n IH]; intros d sw Hlen Hshape; simpl.
  - rewrite app_nil_r. reflexivity.
  - destruct (lookup_lt_is_Some_2 p d) as [row Hr]; [lia|].
    assert (Hrow : length row = framesPerDir
                   /\ Forall (fun cell => length cell = numLayers) row).
    { unfold wellShaped in Hshape. rewrite Forall_lookup in Hshape.
      eapply Hshape. exact Hr. }
    destruct Hrow as [Hl Hcells].
    rewrite (writePriority_frames_Ok p d numLayers row) by (auto; lia).
    rewrite drop_0, take_ge by lia.
    rewrite IH by (auto; lia).
    rewrite (drop_S p row d Hr). simpl. rewrite <- app_assoc. reflexivity.
Qed.

(** Whatever the matrix, the three loops only append to the writer. *)
Lemma writePriority_layers_prefix (p : list (list (list Z))) (d f : nat) (n : nat) :
  forall (i : nat) (sw sw' : Writer),
  writePriority_layers n i d f p sw = Ok sw' -> exists rest, sw' = sw ++ rest.
Proof.
  induction n as [|n IH]; intros i sw sw' E; simpl in E.
  - inversion E. exists []. rewrite app_nil_r. reflexivity.
  - step_in E. apply IH in E as [rest ->]. unfold WriteByte.
    eexists. rewrite <- app_assoc. reflexivity.
Qed.

Lemma writePriority_frames_prefix (p : list (list (list Z))) (d numLayers : nat)
    (n : nat) :
  forall (f : nat) (sw sw' : Writer),
  writePriority_frames n f d numLayers p sw = Ok sw' -> exists rest, sw' = sw ++ rest.
Proof.
  induction n as [|n IH]; intros f sw sw' E; simpl in E.
  - inversion E. exists []. rewrite app_nil_r. reflexivity.
  - step_in E. apply writePriority_layers_prefix in Estep as [r1 ->].
    apply IH in E as [rest ->]. eexists. rewrite <- app_assoc. reflexivity.
Qed.

Lemma writePriority_directions_prefix (p : list (list (list Z)))
    (framesPerDir numLayers : nat) (n : nat) :
  forall (d : nat) (sw sw' : Writer),
  writePriority_directions n d framesPerDir numLayers p sw = Ok sw' ->
  exists rest, sw' = sw ++ rest.
Proof.
  induction n as [|n IH]; intros d sw sw' E; simpl in E.
  - inversion E. exists []. rewrite app_nil_r. reflexivity.
  - step_in E. apply writePriority_frames_prefix in Estep as [r1 ->].
    apply IH in E as [rest ->]. eexists. rewrite <- app_assoc. reflexivity.
Qed.

(** The matrix of [priorityOf] has the declared shape and flattens back to
    the bytes it was made of. *)
Lemma priorityOf_wellShaped (dirs framesPerDir numLayers : nat) (bs : list byte) :
  (dirs * (framesPerDir * numLayers) <= length bs)%nat ->
  length (priorityOf dirs framesPerDir numLayers bs) = dirs /\
  wellShaped framesPerDir numLayers (priorityOf dirs framesPerDir numLayers bs).
Proof.
  intros Hlen. unfold priorityOf, wellShaped. split.
  - rewrite length_map, length_chunks. reflexivity.
  - apply Forall_map. eapply Forall_impl; [apply chunks_sized; exact Hlen|].
    intros rowBytes Hrow. simpl in *. split.
    + rewrite length_map, length_chunks. reflexivity.
    + apply Forall_map. eapply Forall_impl; [apply chunks_sized; lia|].
      intros cellBytes Hcell. simpl in *. rewrite length_map. exact Hcell.
Qed.

Lemma map_byte_of_int_of_byte (bs : list byte) :
  map byte_of_int (map int_of_byte bs) = bs.
Proof.
  induction bs as [|b bs IH]; simpl; [reflexivity|].
  rewrite byte_of_int_of_byte, IH. reflexivity.
Qed.

Lemma flattenPriority_priorityOf (dirs framesPerDir numLayers : nat) (bs : list byte) :
  (dirs * (framesPerDir * numLayers) <= length bs)%nat ->
  flattenPriority (priorityOf dirs framesPerDir numLayers bs)
  = take (dirs * (framesPerDir * numLayers)) bs.
Proof.
  intros Hlen. unfold flattenPriority, priorityOf.
  rewrite <- concat_chunks. f_equal. rewrite map_map.
  pose proof (chunks_sized dirs (framesPerDir * numLayers) bs Hlen) as Hsized.
  induction Hsized as [|rowBytes rest Hrow _ IH]; simpl; [reflexivity|].
  f_equal; [|exact IH].
  rewrite map_map.
  rewrite (map_ext _ (fun x => x)) by (intros; apply map_byte_of_int_of_byte).
  rewrite map_id, concat_chunks. apply take_ge. lia.
Qed.

Section MarshalSteps.
Context `{WeaponClasses}.

(** The loop over the weapon code writes its first four characters at
    most: the test [idx > maxCodeLength] lets the indices 0 to 3 through. *)
Lemma writeWeaponCode_take (code : string) :
  forall (sw : Writer) (idx : nat),
  writeWeaponCode sw code idx = sw ++ take (4 - idx) (bytes_of_string code).
Proof.
  induction code as [|letter rest IH]; intros sw idx.
  - change (bytes_of_string EmptyString) with (@nil byte).
    simpl. rewrite take_nil, app_nil_r. reflexivity.
  - change (bytes_of_string (String letter rest))
      with (byte_of_ascii letter :: bytes_of_string rest).
    simpl writeWeaponCode.
    unfold maxCodeLength. destruct (Nat.ltb_spec 3 idx) as [Hgt|Hle].
    + replace (4 - idx)%nat with 0%nat by lia. rewrite app_nil_r. reflexivity.
    + rewrite IH. unfold WriteByte. rewrite <- app_assoc.
      replace (4 - idx)%nat with (S (4 - S idx)) by lia. reflexivity.
Qed.

Lemma writeLayer_eq (sw : Writer) (layer : CofLayer) :
  writeLayer sw layer
  = sw ++ layerAttributes layer
       ++ take 4 (bytes_of_string (WeaponClass_String (WeaponClass_ layer)))
       ++ [x00].
Proof.
  unfold writeLayer, layerAttributes, WriteByte.
  rewrite writeWeaponCode_take.
  change (byte_of_int terminator) with x00.
  change (byte_of_int 1) with x01. change (byte_of_int 0) with x00.
  destruct (Selectable layer), (Transparent layer);
    rewrite <- !app_assoc; reflexivity.
Qed.

Lemma writeLayer_app (sw : Writer) (layer : CofLayer) :
  writeLayer sw layer = sw ++ writeLayer [] layer.
Proof. rewrite (writeLayer_eq sw), (writeLayer_eq []). reflexivity. Qed.

Lemma fold_writeLayer (ls : list CofLayer) :
  forall sw : Writer,
  fold_left writeLayer ls sw = sw ++ concat (map (writeLayer []) ls).
Proof.
  induction ls as [|l ls IH]; intros sw; simpl.
  - rewrite app_nil_r. reflexivity.
  - rewrite IH, (writeLayer_app sw). rewrite <- app_assoc. reflexivity.
Qed.

Lemma fold_writeFrames (fs : list Z) :
  forall sw : Writer,
  fold_left (fun sw i => WriteByte sw (byte_of_int i)) fs sw
  = sw ++ map byte_of_int fs.
Proof.
  induction fs as [|x fs IH]; intros sw; simpl.
  - rewrite app_nil_r. reflexivity.
  - rewrite IH. unfold WriteByte. rewrite <- app_assoc. reflexivity.
Qed.

(** [Marshal] writes the header, the body bytes, the layers and the frame
    events, and then runs the loops over the priority matrix. *)
Lemma COF_Marshal_eq (c : COF) :
  COF_Marshal c =
  match writePriority_directions (Z.to_nat (NumberOfDirections c)) 0
          (Z.to_nat (FramesPerDirection c)) (Z.to_nat (NumberOfLayers c))
          (Priority c)
          ([byte_of_int (NumberOfLayers c); byte_of_int (FramesPerDirection c);
            byte_of_int (NumberOfDirections c)]
           ++ unknownHeaderBytes c ++ [byte_of_int (Speed c)]
           ++ unknownBodyBytes c
           ++ concat (map (writeLayer []) (CofLayers c))
           ++ map byte_of_int (AnimationFrames c)) with
  | Err e => Err e
  | Ok sw => Ok sw
  end.
Proof.
  unfold COF_Marshal, Bytes. rewrite fold_writeFrames, fold_writeLayer.
  unfold WriteByte, WriteBytes. simpl app.
  rewrite <- !app_assoc. simpl app. reflexivity.
Qed.

End MarshalSteps.

(** ** The decoded document *)

Lemma lookup_map {A B : Type} (g : A -> B) (l : list A) :
  forall i : nat, map g l !! i = g <$> (l !! i).
Proof.
  induction l as [|x l IH]; intros [|i]; simpl; auto.
Qed.

(** The entry [i] of the cell [f] of the row [d] of [priorityOf] is the
    byte at [(d * framesPerDir + f) * numLayers + i]. *)
Lemma priorityOf_lookup (dirs framesPerDir numLayers : nat) (bs : list byte)
    (d f i : nat) (row : list (list Z)) (cell : list Z) (v : Z) :
  priorityOf dirs framesPerDir numLayers bs !! d = Some row ->
  row !! f = Some cell -> cell !! i = Some v ->
  exists b, bs !! ((d * framesPerDir + f) * numLayers + i)%nat = Some b
            /\ v = int_of_byte b.
Proof.
  unfold priorityOf. intros Hd Hf Hi.
  rewrite lookup_map in Hd.
  destruct (chunks dirs (framesPerDir * numLayers) bs !! d) as [rowBytes|] eqn:Er;
    [|discriminate].
  assert (Hdlt : (d < dirs)%nat).
  { apply lookup_lt_Some in Er. rewrite length_chunks in Er. exact Er. }
  rewrite lookup_chunks in Er by exact Hdlt.
  simpl in Hd. inversion Hd; subst row; clear Hd.
  rewrite lookup_map in Hf.
  destruct (chunks framesPerDir numLayers rowBytes !! f) as [cellBytes|] eqn:Ec;
    [|discriminate].
  assert (Hflt : (f < framesPerDir)%nat).
  { apply lookup_lt_Some in Ec. rewrite length_chunks in Ec. exact Ec. }
  rewrite lookup_chunks in Ec by exact Hflt.
  simpl in Hf. inversion Hf; subst cell; clear Hf.
  rewrite lookup_map in Hi.
  destruct (cellBytes !! i) as [b|] eqn:Eb; [|discriminate].
  simpl in Hi. inversion Hi; subst v; clear Hi.
  exists b. split; [|reflexivity].
  inversion Ec; subst cellBytes; clear Ec.
  apply lookup_take_Some in Eb as [Eb Hilt].
  rewrite lookup_drop in Eb.
  inversion Er; subst rowBytes; clear Er.
  apply lookup_take_Some in Eb as [Eb _].
  rewrite lookup_drop in Eb. rewrite <- Eb. f_equal. nia.
Qed.

Section Decoded.
Context `{WeaponClasses}.

Lemma Unmarshal_Some (data : list byte) (c : COF) :
  Unmarshal data = (Some c, None) <-> COF_Unmarshal data New = (c, None).
Proof.
  unfold Unmarshal. destruct (COF_Unmarshal data New) as [c' err].
  split; intros E; inversion E; subst; reflexivity.
Qed.

(** C7. In the document of a successful [Unmarshal] the priority matrix
    has as many rows as there are directions, every row has as many cells
    as there are frames per direction, every cell has as many entries as
    there are layers, and the entry [i] of the cell [f] of the row [d] is
    the input byte at offset [(d * framesPerDir + f) * numLayers + i] of
    the priority bytes. *)
Theorem Unmarshal_priority_dimensions (data : list byte) (c : COF) :
  Unmarshal data = (Some c, None) ->
  let numLayers := Z.to_nat (NumberOfLayers c) in
  let framesPerDir := Z.to_nat (FramesPerDirection c) in
  Z.of_nat (length (Priority c)) = NumberOfDirections c /\
  forall d row, Priority c !! d = Some row ->
    Z.of_nat (length row) = FramesPerDirection c /\
    forall f cell, row !! f = Some cell ->
      Z.of_nat (length cell) = NumberOfLayers c /\
      forall i v, cell !! i = Some v ->
        exists b,
          data !! (priorityOffset numLayers framesPerDir
                   + (d * framesPerDir + f) * numLayers + i)%nat = Some b
          /\ v = int_of_byte b.
Proof.
  intros E. apply Unmarshal_Some in E.
  apply COF_Unmarshal_Ok in E
    as (b0 & b1 & b2 & sp & ls & _ & _ & _ & _ & Hsize & _ & ->).
  cbv zeta. cof_fields.
  pose proof (int_of_byte_range b0) as R0.
  pose proof (int_of_byte_range b1) as R1.
  pose proof (int_of_byte_range b2) as R2.
  set (numLayers := Z.to_nat (int_of_byte b0)) in *.
  set (framesPerDir := Z.to_nat (int_of_byte b1)) in *.
  set (dirs := Z.to_nat (int_of_byte b2)) in *.
  set (bs := drop (priorityOffset numLayers framesPerDir) data).
  assert (Hbs : (dirs * (framesPerDir * numLayers) <= length bs)%nat).
  { unfold bs. rewrite length_drop. unfold documentSize in Hsize. lia. }
  destruct (priorityOf_wellShaped dirs framesPerDir numLayers bs Hbs) as [Hlen Hshape].
  split; [rewrite Hlen; unfold dirs; lia|].
  intros d row Hd.
  unfold wellShaped in Hshape. rewrite Forall_lookup in Hshape.
  destruct (Hshape d row Hd) as [Hrow Hcells].
  split; [rewrite Hrow; unfold framesPerDir; lia|].
  intros f cell Hf. rewrite Forall_lookup in Hcells.
  split; [rewrite (Hcells f cell Hf); unfold numLayers; lia|].
  intros i v Hi.
  destruct (priorityOf_lookup _ _ _ _ _ _ _ _ _ _ Hd Hf Hi) as (b & Hb & ->).
  exists b. split; [|reflexivity].
  unfold bs in Hb. rewrite lookup_drop in Hb. rewrite <- Hb. f_equal. lia.
Qed.

End Decoded.

Lemma Unmarshal_priority_dimensions_witness :
  Unmarshal cofSample = (Some (documentOf cofSample), None) /\
  Priority (documentOf cofSample) = [[[1; 2]]; [[2; 1]]] /\
  Z.of_nat (length (Priority (documentOf cofSample)))
    = NumberOfDirections (documentOf cofSample) /\
  (exists b, cofSample !! (47 + (1 * 1 + 0) * 2 + 1)%nat = Some b /\ 1 = int_of_byte b).
Proof.
  assert (E : Unmarshal cofSample = (Some (documentOf cofSample), None))
    by (vm_compute; reflexivity).
  assert (P : Priority (documentOf cofSample) = [[[1; 2]]; [[2; 1]]])
    by (vm_compute; reflexivity).
  destruct (Unmarshal_priority_dimensions cofSample _ E) as [Hdirs Hrows].
  destruct (Hrows 1%nat [[2; 1]]) as [_ Hcells]; [rewrite P; reflexivity|].
  destruct (Hcells 0%nat [2; 1]) as [_ Hentries]; [reflexivity|].
  split; [exact E|]. split; [exact P|]. split; [exact Hdirs|].
  exact (Hentries 1%nat 1 eq_refl).
Defined.

(** ** The map from types to layer indices *)

Section LayerIndex.
Context `{WeaponClasses}.

(** The iterations never remove a key. *)
Lemma indexLayers_keeps (ls : list CofLayer) :
  forall (i : nat) (m : gmap Z Z) (t : Z),
  is_Some (m !! t) -> is_Some (indexLayers i ls m !! t).
Proof.
  induction ls as [|l ls IH]; intros i m t Hm; simpl; [exact Hm|].
  apply IH. destruct (decide (Type_ l = t)) as [->|Hne].
  - rewrite lookup_insert_eq. eauto.
  - rewrite lookup_insert_ne by exact Hne. exact Hm.
Qed.

(** Every type among the layers is a key. *)
Lemma indexLayers_covers (ls : list CofLayer) :
  forall (i : nat) (m : gmap Z Z) (j : nat) (l : CofLayer),
  ls !! j = Some l -> is_Some (indexLayers i ls m !! Type_ l).
Proof.
  induction ls as [|l0 ls IH]; intros i m j l Hj; [discriminate|].
  destruct j as [|j]; simpl in *.
  - inversion Hj; subst. apply indexLayers_keeps. rewrite lookup_insert_eq. eauto.
  - eapply IH. exact Hj.
Qed.

(** A key is mapped to the index of the last layer of that type, or is a
    key of the initial map that no layer has as its type. *)
Lemma indexLayers_lookup (ls : list CofLayer) :
  forall (i : nat) (m : gmap Z Z) (t k : Z),
  indexLayers i ls m !! t = Some k ->
  (exists j l, ls !! j = Some l /\ Type_ l = t /\ k = Z.of_nat (i + j) /\
               forall j' l', (j < j')%nat -> ls !! j' = Some l' -> Type_ l' <> t)
  \/ (m !! t = Some k /\ forall j l, ls !! j = Some l -> Type_ l <> t).
Proof.
  induction ls as [|l0 ls IH]; intros i m t k E; simpl in E.
  - right. split; [exact E|]. intros j l Hj. discriminate.
  - apply IH in E as [(j & l & Hj & Ht & Hk & Hlast)|[Hm Hnone]].
    + left. exists (S j), l. split; [exact Hj|]. split; [exact Ht|].
      split; [lia|]. intros j' l' Hlt Hj'.
      destruct j' as [|j']; [lia|]. simpl in Hj'.
      eapply Hlast; [|exact Hj']. lia.
    + destruct (decide (Type_ l0 = t)) as [Heq|Hne].
      * left. exists 0%nat, l0. split; [reflexivity|]. split; [exact Heq|].
        rewrite Heq, lookup_insert_eq in Hm. inversion Hm.
        split; [lia|]. intros j' l' Hlt Hj'.
        destruct j' as [|j']; [lia|]. simpl in Hj'. eapply Hnone. exact Hj'.
      * right. rewrite lookup_insert_ne in Hm by exact Hne.
        split; [exact Hm|]. intros [|j] l Hj; simpl in Hj.
        -- inversion Hj; subst. exact Hne.
        -- eapply Hnone. exact Hj.
Qed.

(** C9. In the document of a successful [Unmarshal] the layer sequence
    has the declared number of layers, the map from types to indices has a
    key for exactly the types of the layers, and it maps a type to an index
    of the layer sequence, that of the last layer of this type. *)
Theorem Unmarshal_layer_index (data : list byte) (c : COF) :
  Unmarshal data = (Some c, None) ->
  Z.of_nat (length (CofLayers c)) = NumberOfLayers c /\
  (forall t, is_Some (CompositeLayers c !! t)
             <-> exists j l, CofLayers c !! j = Some l /\ Type_ l = t) /\
  (forall t k, CompositeLayers c !! t = Some k ->
     exists j l, k = Z.of_nat j /\ CofLayers c !! j = Some l /\ Type_ l = t /\
       forall j' l', (j < j')%nat -> CofLayers c !! j' = Some l' -> Type_ l' <> t).
Proof.
  intros E. apply Unmarshal_Some in E.
  apply COF_Unmarshal_Ok in E
    as (b0 & b1 & b2 & sp & ls & _ & _ & _ & _ & _ & Hall & ->).
  cof_fields. pose proof (int_of_byte_range b0) as R0.
  split.
  { apply Forall2_length in Hall. rewrite length_chunks in Hall.
    rewrite <- Hall. lia. }
  split.
  - intros t. split.
    + intros [k Hk]. apply indexLayers_lookup in Hk
        as [(j & l & Hj & Ht & _)|[Hempty _]].
      * eauto.
      * rewrite lookup_empty in Hempty. discriminate.
    + intros (j & l & Hj & <-). eapply indexLayers_covers. exact Hj.
  - intros t k Hk. apply indexLayers_lookup in Hk
      as [(j & l & Hj & Ht & Hkj & Hlast)|[Hempty _]].
    + exists j, l. repeat split; auto.
    + rewrite lookup_empty in Hempty. discriminate.
Qed.

End LayerIndex.

Lemma Unmarshal_layer_index_witness :
  Unmarshal cofRepeatedType = (Some (documentOf cofRepeatedType), None) /\
  map Type_ (CofLayers (documentOf cofRepeatedType)) = [1; 2; 1] /\
  CompositeLayers (documentOf cofRepeatedType) !! 1 = Some 2 /\
  CompositeLayers (documentOf cofRepeatedType) !! 2 = Some 1 /\
  Z.of_nat (length (CofLayers (documentOf cofRepeatedType)))
    = NumberOfLayers (documentOf cofRepeatedType) /\
  (exists j l, 2 = Z.of_nat j /\
     CofLayers (documentOf cofRepeatedType) !! j = Some l /\ Type_ l = 1 /\
     forall j' l', (j < j')%nat ->
       CofLayers (documentOf cofRepeatedType) !! j' = Some l' -> Type_ l' <> 1).
Proof.
  assert (E : Unmarshal cofRepeatedType = (Some (documentOf cofRepeatedType), None))
    by (vm_compute; reflexivity).
  assert (M : CompositeLayers (documentOf cofRepeatedType) !! 1 = Some 2)
    by (vm_compute; reflexivity).
  destruct (Unmarshal_layer_index cofRepeatedType _ E) as (Hlen & _ & Hlast).
  split; [exact E|]. split; [vm_compute; reflexivity|].
  split; [exact M|]. split; [vm_compute; reflexivity|].
  split; [exact Hlen|]. exact (Hlast 1 2 M).
Defined.

(** ** The bytes of the counts *)

(** C10. [Marshal] writes the layer count, the frames per direction, the
    direction count and the speed as one byte each, the integer reduced
    modulo 256, at the offsets 0, 1, 2 and after the reserved header bytes.
    In the document of a successful [Unmarshal] the four fields lie in
    0..255 and the bytes so written are the header bytes they were read
    from. *)
Theorem Marshal_count_bytes `{WeaponClasses} :
  (forall (c : COF) (out : list byte), Marshal c = Ok out ->
     exists rest,
       out = [byte_of_int (NumberOfLayers c); byte_of_int (FramesPerDirection c);
              byte_of_int (NumberOfDirections c)]
             ++ unknownHeaderBytes c ++ [byte_of_int (Speed c)] ++ rest) /\
  (forall x : Z, int_of_byte (byte_of_int x) = x mod 256) /\
  (forall (data : list byte) (c : COF), Unmarshal data = (Some c, None) ->
     (0 <= NumberOfLayers c < 256 /\ 0 <= FramesPerDirection c < 256 /\
      0 <= NumberOfDirections c < 256 /\ 0 <= Speed c < 256) /\
     data !! 0%nat = Some (byte_of_int (NumberOfLayers c)) /\
     data !! 1%nat = Some (byte_of_int (FramesPerDirection c)) /\
     data !! 2%nat = Some (byte_of_int (NumberOfDirections c)) /\
     data !! 24%nat = Some (byte_of_int (Speed c))).
Proof.
  split; [|split].
  - intros c out E. unfold Marshal in E. rewrite COF_Marshal_eq in E.
    destruct (writePriority_directions _ _ _ _ _ _) as [sw|e] eqn:EW; [|discriminate].
    inversion E; subst sw; clear E.
    apply writePriority_directions_prefix in EW as [rest ->].
    eexists. simpl. rewrite <- !app_assoc. simpl. reflexivity.
  - exact int_of_byte_of_int.
  - intros data c E. apply Unmarshal_Some in E.
    apply COF_Unmarshal_Ok in E
      as (b0 & b1 & b2 & sp & ls & H0 & H1 & H2 & H24 & _ & _ & ->).
    cof_fields. rewrite !byte_of_int_of_byte.
    pose proof (int_of_byte_range b0). pose proof (int_of_byte_range b1).
    pose proof (int_of_byte_range b2). pose proof (int_of_byte_range sp).
    repeat split; auto; lia.
Qed.

Lemma Marshal_count_bytes_witness :
  (exists rest,
     Marshal wrappedDocument
     = Ok ([x01; x00; x00] ++ zeros 21 ++ ["044"%byte] ++ rest)) /\
  257 mod 256 = int_of_byte x01 /\ 300 mod 256 = int_of_byte "044"%byte /\
  Unmarshal cofSample = (Some (documentOf cofSample), None) /\
  cofSample !! 0%nat = Some (byte_of_int (NumberOfLayers (documentOf cofSample))) /\
  cofSample !! 24%nat = Some (byte_of_int (Speed (documentOf cofSample))).
Proof.
  destruct (@Marshal_count_bytes StringCodes) as (Hout & Hmod & Hdec).
  assert (EM : exists out, Marshal wrappedDocument = Ok out)
    by (eexists; vm_compute; reflexivity).
  destruct EM as [out EM].
  destruct (Hout _ _ EM) as [rest Hrest].
  assert (E : Unmarshal cofSample = (Some (documentOf cofSample), None))
    by (vm_compute; reflexivity).
  destruct (Hdec _ _ E) as (_ & H0 & _ & _ & H24).
  split; [exists rest; rewrite EM, Hrest; reflexivity|].
  split; [rewrite <- Hmod; reflexivity|].
  split; [rewrite <- Hmod; reflexivity|].
  split; [exact E|]. split; [exact H0|exact H24].
Defined.

(** ** The weapon-class field *)

Lemma length_bytes_of_string (s : string) :
  length (bytes_of_string s) = String.length s.
Proof.
  induction s as [|c s IH]; [reflexivity|].
  change (bytes_of_string (String c s)) with (byte_of_ascii c :: bytes_of_string s).
  simpl. rewrite IH. reflexivity.
Qed.

(** C2. [Marshal] writes the layers after the 28 bytes of header and body,
    one descriptor after the other; for a layer whose weapon-class code has
    at most three characters, all below U+0080, the descriptor is the five
    attribute bytes, the characters of the code without any padding, and
    one zero byte: [6 + n] bytes for a code of [n] characters, hence the
    nine bytes of the file format exactly when the code has three. *)
Theorem Marshal_weapon_code `{WeaponClasses} (c : COF) (out : list byte) :
  Marshal c = Ok out ->
  (exists rest,
     out = [byte_of_int (NumberOfLayers c); byte_of_int (FramesPerDirection c);
            byte_of_int (NumberOfDirections c)]
           ++ unknownHeaderBytes c ++ [byte_of_int (Speed c)] ++ unknownBodyBytes c
           ++ concat (map (writeLayer []) (CofLayers c)) ++ rest) /\
  forall layer, layer ∈ CofLayers c ->
    let code := WeaponClass_String (WeaponClass_ layer) in
    isASCII code = true -> (String.length code <= 3)%nat ->
    writeLayer [] layer = layerAttributes layer ++ bytes_of_string code ++ [x00] /\
    length (writeLayer [] layer) = (6 + String.length code)%nat /\
    (length (writeLayer [] layer) = numLayerBytes <-> String.length code = 3%nat).
Proof.
  intros E. split.
  - unfold Marshal in E. rewrite COF_Marshal_eq in E.
    destruct (writePriority_directions _ _ _ _ _ _) as [sw|e] eqn:EW; [|discriminate].
    inversion E; subst sw; clear E.
    apply writePriority_directions_prefix in EW as [rest ->].
    exists (map byte_of_int (AnimationFrames c) ++ rest).
    repeat (progress simpl app || rewrite <- app_assoc). reflexivity.
  - intros layer _ code _ Hshort.
    assert (Heq : writeLayer [] layer
                  = layerAttributes layer ++ bytes_of_string code ++ [x00]).
    { rewrite writeLayer_eq. simpl app. fold code.
      rewrite take_ge by (rewrite length_bytes_of_string; lia). reflexivity. }
    split; [exact Heq|].
    assert (Hlen : length (writeLayer [] layer) = (6 + String.length code)%nat).
    { rewrite Heq. unfold layerAttributes.
      rewrite !length_app, length_bytes_of_string. simpl. lia. }
    split; [exact Hlen|]. rewrite Hlen. unfold numLayerBytes. lia.
Qed.

Lemma Marshal_weapon_code_witness :
  hthLayer ∈ CofLayers (documentOf cofSample) /\
  writeLayer [] hthLayer
  = ([x01; x03; x01; x00; x04] ++ ["h"; "t"; "h"] ++ [x00])%byte /\
  length (writeLayer [] hthLayer) = 9%nat.
Proof.
  assert (EM : exists out, Marshal (documentOf cofSample) = Ok out)
    by (eexists; vm_compute; reflexivity).
  destruct EM as [out EM].
  destruct (Marshal_weapon_code (documentOf cofSample) out EM) as [_ Hlayers].
  assert (Hin : hthLayer ∈ CofLayers (documentOf cofSample))
    by (vm_compute; left).
  destruct (Hlayers hthLayer Hin) as (Hw & Hl & _).
  - vm_compute. reflexivity.
  - vm_compute. lia.
  - split; [exact Hin|]. split; [exact Hw|exact Hl].
Defined.

(** C2, as stated, fails: with every string its own code, the descriptor
    of a layer without weapon class has six bytes, and the descriptor of a
    layer whose code has four characters has ten. *)
Lemma Marshal_weapon_code_not_padded :
  writeLayer [] emptyCodeLayer = [x01; x00; x00; x00; x00; x00] /\
  length (writeLayer [] emptyCodeLayer) = 6%nat /\
  length (writeLayer [] longCodeLayer) = 10%nat /\
  Marshal (mkCOF (zeros 21) (zeros 3) 0 0 1 0 [emptyCodeLayer] ∅ [] [])
  = Ok ([x01; x00; x00] ++ zeros 21 ++ [x00] ++ zeros 3
        ++ [x01; x00; x00; x00; x00; x00]).
Proof. vm_compute. repeat split; reflexivity. Qed.

(** ** Decoding and encoding again *)

Lemma isCodeByte_not_NUL (a : byte) :
  isCodeByte a = true -> Ascii.eqb (ascii_of_byte a) Ascii.zero = false.
Proof. destruct a; intros Hc; try reflexivity; discriminate Hc. Qed.

Lemma isFlag_written_back (b : byte) :
  isFlag b = true -> (if 0 <? int_of_byte b then x01 else x00) = b.
Proof. destruct b; intros Hf; try reflexivity; discriminate Hf. Qed.

Lemma TrimSpace_code (c1 c2 c3 : ascii) :
  isSpace c1 = false -> isSpace c3 = false ->
  TrimSpace (String c1 (String c2 (String c3 EmptyString)))
  = String c1 (String c2 (String c3 EmptyString)).
Proof.
  intros H1 H3. unfold TrimSpace. simpl trimLeft. rewrite H1.
  simpl. rewrite H3. reflexivity.
Qed.

Section RoundTrip.
Context `{WeaponClasses}.

(** A canonical layer descriptor is written back as it was read. *)
Lemma canonicalLayer_written_back (b : list byte) (layer : CofLayer) :
  canonicalLayer b = true -> layerOfBytes b = Ok layer -> writeLayer [] layer = b.
Proof.
  destruct b as [|ty [|sh [|se [|tr [|de [|a1 [|a2 [|a3 [|z [|? ?]]]]]]]]]];
    try (intros Hc; discriminate Hc).
  unfold canonicalLayer. intros Hc Hl.
  repeat match goal with
         | Hx : _ && _ = true |- _ => apply andb_prop in Hx as [Hx ?]
         end.
  repeat match goal with
         | Hx : negb _ = true |- _ => apply negb_true_iff in Hx
         end.
  match goal with Hx : Byte.eqb z x00 = true |- _ => apply Byte.byte_dec_bl in Hx; subst z end.
  match goal with Hx : String.eqb _ _ = true |- _ => apply String.eqb_eq in Hx; rename Hx into Hcode end.
  unfold layerOfBytes, index, slice, rbind in Hl. simpl in Hl.
  inversion Hl; subst layer; clear Hl.
  rewrite writeLayer_eq. unfold layerAttributes.
  cbn [Type_ Shadow Selectable Transparent DrawEffect WeaponClass_].
  rewrite !byte_of_int_of_byte.
  rewrite !isFlag_written_back by assumption.
  unfold string_of_bytes, string_of_list_byte in *.
  simpl map in *. simpl string_of_list_ascii in *.
  simpl stripNUL.
  rewrite !isCodeByte_not_NUL by assumption.
  rewrite TrimSpace_code by assumption.
  rewrite Hcode.
  change (bytes_of_string
            (String (ascii_of_byte a1)
               (String (ascii_of_byte a2) (String (ascii_of_byte a3) EmptyString))))
    with [byte_of_ascii (ascii_of_byte a1); byte_of_ascii (ascii_of_byte a2);
          byte_of_ascii (ascii_of_byte a3)].
  rewrite !byte_of_ascii_of_byte. reflexivity.
Qed.

Lemma canonical_layers_written_back (cs : list (list byte)) (ls : list CofLayer) :
  Forall2 (fun chunk l => layerOfBytes chunk = Ok l) cs ls ->
  Forall (fun chunk => canonicalLayer chunk = true) cs ->
  map (writeLayer []) ls = cs.
Proof.
  induction 1 as [|chunk l cs ls Hl _ IH]; intros Hc; [reflexivity|].
  inversion Hc; subst. simpl. f_equal.
  - apply canonicalLayer_written_back; assumption.
  - apply IH. assumption.
Qed.

Lemma take_3_lookup {A : Type} (l : list A) (x0 x1 x2 : A) :
  l !! 0%nat = Some x0 -> l !! 1%nat = Some x1 -> l !! 2%nat = Some x2 ->
  take 3 l = [x0; x1; x2].
Proof.
  destruct l as [|y0 [|y1 [|y2 rest]]]; simpl; intros E0 E1 E2;
    try discriminate.
  injection E0 as ->. injection E1 as ->. injection E2 as ->.
  rewrite take_0. reflexivity.
Qed.

Lemma drop_split {A : Type} (l : list A) (a n : nat) :
  drop a l = take n (drop a l) ++ drop (a + n) l.
Proof. rewrite <- drop_drop. symmetry. apply take_drop. Qed.

(** C1. When a buffer is decoded, has no byte after its priority bytes and
    has only canonical layer descriptors (flag bytes 0 or 1, and a
    weapon-class field of three code bytes and a zero byte whose code the
    table of weapon classes gives back), encoding the decoded document
    yields the buffer. *)
Theorem Marshal_Unmarshal_canonical (data : list byte) (c : COF) :
  Unmarshal data = (Some c, None) ->
  length data = documentSize (Z.to_nat (NumberOfLayers c))
                  (Z.to_nat (FramesPerDirection c))
                  (Z.to_nat (NumberOfDirections c)) ->
  Forall (fun chunk => canonicalLayer chunk = true)
    (chunks (Z.to_nat (NumberOfLayers c)) numLayerBytes (drop layersOffset data)) ->
  Marshal c = Ok data.
Proof.
  intros E. apply Unmarshal_Some in E.
  apply COF_Unmarshal_Ok in E
    as (b0 & b1 & b2 & sp & ls & H0 & H1 & H2 & H24 & Hsize & Hall & ->).
  cof_fields. intros Hlen Hcanon.
  set (numLayers := Z.to_nat (int_of_byte b0)) in *.
  set (framesPerDir := Z.to_nat (int_of_byte b1)) in *.
  set (dirs := Z.to_nat (int_of_byte b2)) in *.
  set (bs := drop (priorityOffset numLayers framesPerDir) data).
  assert (Hbs : length bs = (dirs * (framesPerDir * numLayers))%nat).
  { unfold bs. rewrite length_drop, Hlen. unfold documentSize. lia. }
  destruct (priorityOf_wellShaped dirs framesPerDir numLayers bs) as [Hrows Hshape];
    [lia|].
  unfold Marshal. rewrite COF_Marshal_eq. cof_fields.
  fold numLayers framesPerDir dirs. fold bs.
  rewrite (writePriority_directions_Ok _ framesPerDir numLayers dirs 0)
    by (auto; lia).
  rewrite drop_0, (take_ge (priorityOf dirs framesPerDir numLayers bs)) by lia.
  rewrite flattenPriority_priorityOf by lia.
  rewrite (canonical_layers_written_back _ _ Hall Hcanon), concat_chunks.
  rewrite !byte_of_int_of_byte, map_byte_of_int_of_byte.
  rewrite (take_ge bs) by lia.
  f_equal.
  pose proof (take_3_lookup data b0 b1 b2 H0 H1 H2) as H3.
  unfold bs, priorityOffset, framesOffset, layersOffset.
  change (numHeaderBytes + numUnknownBodyBytes)%nat with 28%nat.
  symmetry. etransitivity; [symmetry; apply (take_drop 3 data)|].
  rewrite H3.
  rewrite (drop_split data 3 21) at 1. change (3 + 21)%nat with 24%nat.
  rewrite (drop_S data sp 24 H24).
  rewrite (drop_split data 25 3) at 1. change (25 + 3)%nat with 28%nat.
  rewrite (drop_split data 28 (numLayers * numLayerBytes)) at 1.
  rewrite (drop_split data (28 + numLayers * numLayerBytes) framesPerDir) at 1.
  repeat (progress simpl app || rewrite <- app_assoc). reflexivity.
Qed.

End RoundTrip.

Lemma Marshal_Unmarshal_canonical_witness :
  Unmarshal cofSample = (Some (documentOf cofSample), None) /\
  Marshal (documentOf cofSample) = Ok cofSample.
Proof.
  assert (E : Unmarshal cofSample = (Some (documentOf cofSample), None))
    by (vm_compute; reflexivity).
  split; [exact E|].
  apply (Marshal_Unmarshal_canonical cofSample (documentOf cofSample) E).
  - vm_compute. reflexivity.
  - vm_compute. repeat constructor.
Defined.

(** C1, as stated, fails: with every string its own code, a buffer with a
    byte after its priority bytes, a buffer with a flag byte 2 and a buffer
    with a weapon-class code of two characters are decoded, all their codes
    have at most three characters below U+0080, and the encoding of the
    decoded document is another buffer. *)
Lemma Marshal_Unmarshal_not_identity :
  (Unmarshal (cofSample ++ [xff]) = (Some (documentOf (cofSample ++ [xff])), None) /\
   shortCodes (documentOf (cofSample ++ [xff])) = true /\
   Marshal (documentOf (cofSample ++ [xff])) = Ok cofSample /\
   Marshal (documentOf (cofSample ++ [xff])) <> Ok (cofSample ++ [xff])) /\
  (Unmarshal cofFlagTwo = (Some (documentOf cofFlagTwo), None) /\
   shortCodes (documentOf cofFlagTwo) = true /\
   cofFlagTwo !! 30%nat = Some x02 /\
   (fun out => match out with Ok bs => bs !! 30%nat | Err _ => None end)
     (Marshal (documentOf cofFlagTwo)) = Some x01 /\
   Marshal (documentOf cofFlagTwo) <> Ok cofFlagTwo) /\
  (Unmarshal cofShortCode = (Some (documentOf cofShortCode), None) /\
   shortCodes (documentOf cofShortCode) = true /\
   length cofShortCode = 37%nat /\
   (fun out => match out with Ok bs => length bs | Err _ => 0%nat end)
     (Marshal (documentOf cofShortCode)) = 36%nat /\
   Marshal (documentOf cofShortCode) <> Ok cofShortCode).
Proof.
  split; [|split].
  - split; [|split; [|split]];
      first [ vm_compute; reflexivity | vm_compute; intros E; discriminate E ].
  - split; [|split; [|split; [|split]]];
      first [ vm_compute; reflexivity | vm_compute; intros E; discriminate E ].
  - split; [|split; [|split; [|split]]];
      first [ vm_compute; reflexivity | vm_compute; intros E; discriminate E ].
Qed.

(** ** Bytes after the end *)

Section Trailing.
Context `{WeaponClasses}.

Lemma loadCOFLayer_extend (extra : list byte) (i : nat) (s s' : Reader) (c c' : COF) :
  loadCOFLayer i s c = (s', c', None) ->
  loadCOFLayer i (extend extra s) c = (extend extra s', c', None).
Proof.
  unfold loadCOFLayer. intros E.
  step_in E. rewrite (Next_extend extra _ _ _ _ Estep).
  step_in E. step_in E. inversion E; subst. reflexivity.
Qed.

Lemma loadCOFLayers_from_extend (extra : list byte) (n : nat) :
  forall (i : nat) (s s' : Reader) (c c' : COF),
  loadCOFLayers_from n i s c = (s', c', None) ->
  loadCOFLayers_from n i (extend extra s) c = (extend extra s', c', None).
Proof.
  induction n as [|n IH]; intros i s s' c c' E; simpl in *.
  - inversion E; subst. reflexivity.
  - destruct (loadCOFLayer i s c) as [[s1 c1] [e|]] eqn:E1; [discriminate|].
    rewrite (loadCOFLayer_extend extra _ _ _ _ _ E1). apply IH. exact E.
Qed.

Lemma COF_Unmarshal_extend (extra data : list byte) (c0 c : COF) :
  COF_Unmarshal data c0 = (c, None) ->
  COF_Unmarshal (data ++ extra) c0 = (c, None).
Proof.
  unfold COF_Unmarshal. intros E.
  change (FromBytes (data ++ extra)) with (extend extra (FromBytes data)).
  step_in E. rewrite (Next_extend extra _ _ _ _ Estep).
  step_in E.
  step_in E. rewrite (Next_extend extra _ _ _ _ Estep1).
  match type of E with
  | context [loadCOFLayers ?s ?c] =>
      destruct (loadCOFLayers s c) as [[sL cL] [eL|]] eqn:EL; [discriminate|]
  end.
  unfold loadCOFLayers in *.
  rewrite (loadCOFLayers_from_extend extra _ _ _ _ _ _ EL).
  step_in E. rewrite (Next_extend extra _ _ _ _ Estep2).
  step_in E.
  step_in E. rewrite (Next_extend extra _ _ _ _ Estep4).
  step_in E. exact E.
Qed.

End Trailing.

(** C5. [Load] fails with the error of unparsable data when, after the 256
    blocks, the cursor is not at the end of the buffer; so it fails on every
    buffer that is a readable file followed by at least one more byte.
    [Unmarshal] has no such check: a readable COF file followed by any bytes
    is decoded, to the same document. *)
Theorem trailing_bytes `{IntegerReading} `{NameHash} `{WeaponClasses} :
  (forall (data : list byte) (reader : Reader) (ad : AnimationData),
     loadBlocks numBlocks 0 0 (FromBytes data, newAnimationData) = Ok (reader, ad) ->
     Position reader <> length data ->
     Load data = (None, Some ErrUnableToParse)) /\
  (forall (data extra : list byte) (ad : AnimationData),
     Load data = (Some ad, None) -> extra <> [] ->
     Load (data ++ extra) = (None, Some ErrUnableToParse)) /\
  (forall (data extra : list byte) (c : COF),
     Unmarshal data = (Some c, None) ->
     Unmarshal (data ++ extra) = (Some c, None)).
Proof.
  assert (Hfirst : forall (data : list byte) (reader : Reader) (ad : AnimationData),
     loadBlocks numBlocks 0 0 (FromBytes data, newAnimationData) = Ok (reader, ad) ->
     Position reader <> length data ->
     Load data = (None, Some ErrUnableToParse)).
  { intros data reader ad E Hpos. unfold Load. rewrite E.
    destruct (Nat.eqb_spec (Position reader) (length data)); [contradiction|].
    reflexivity. }
  split; [exact Hfirst|]. split.
  - intros data extra ad E Hextra.
    apply Load_Some in E as (reader & E & Hpos).
    apply (loadBlocks_extend extra) in E.
    apply (Hfirst _ _ _ E). simpl. rewrite length_app, Hpos.
    destruct extra; [contradiction|]. simpl. lia.
  - intros data extra c E. apply Unmarshal_Some in E. apply Unmarshal_Some.
    apply COF_Unmarshal_extend. exact E.
Qed.

Lemma trailing_bytes_witness :
  Load emptyBlocksData = (Some (storeOf emptyBlocksData), None) /\
  allRecords (storeOf emptyBlocksData) = [] /\
  Load (emptyBlocksData ++ [x00]) = (None, Some ErrUnableToParse) /\
  Load (twoRecordData ++ [x00; x01]) = (None, Some ErrUnableToParse) /\
  Unmarshal (cofSample ++ [xff]) = (Some (documentOf cofSample), None).
Proof.
  destruct (@trailing_bytes LittleEndian ByteSumHash StringCodes)
    as (Hfirst & Hload & Hcof).
  assert (E0 : Load emptyBlocksData = (Some (storeOf emptyBlocksData), None))
    by (vm_compute; reflexivity).
  assert (E2 : Load twoRecordData = (Some (storeOf twoRecordData), None))
    by (vm_compute; reflexivity).
  assert (Ec : Unmarshal cofSample = (Some (documentOf cofSample), None))
    by (vm_compute; reflexivity).
  split; [exact E0|]. split; [vm_compute; reflexivity|].
  split.
  { apply (Hfirst (emptyBlocksData ++ [x00])
             (mkReader (emptyBlocksData ++ [x00]) 1024)
             (storeOf emptyBlocksData)).
    - vm_compute. reflexivity.
    - vm_compute. intros E. discriminate E. }
  split; [apply (Hload _ _ _ E2); discriminate|].
  apply (Hcof _ _ _ Ec).
Defined.

(** ** What a failed decoding returns *)

Section Failure.
Context `{WeaponClasses}.

Lemma sameCounts_refl (c : COF) : sameCounts c c.
Proof. unfold sameCounts. auto. Qed.

Lemma sameCounts_trans (c1 c2 c3 : COF) :
  sameCounts c1 c2 -> sameCounts c2 c3 -> sameCounts c1 c3.
Proof. unfold sameCounts. intuition congruence. Qed.

Lemma loadCOFLayer_counts (i : nat) (s s' : Reader) (c c' : COF) (err : option error) :
  loadCOFLayer i s c = (s', c', err) -> sameCounts c c'.
Proof.
  unfold loadCOFLayer. intros E.
  repeat (case_in E; [|inversion E; subst; apply sameCounts_refl]).
  inversion E; subst. unfold sameCounts. cof_fields. auto.
Qed.

Lemma loadCOFLayers_from_counts (n : nat) :
  forall (i : nat) (s s' : Reader) (c c' : COF) (err : option error),
  loadCOFLayers_from n i s c = (s', c', err) -> sameCounts c c'.
Proof.
  induction n as [|n IH]; intros i s s' c c' err E; simpl in E.
  - inversion E; subst. apply sameCounts_refl.
  - destruct (loadCOFLayer i s c) as [[s1 c1] [e|]] eqn:E1.
    + inversion E; subst. eapply loadCOFLayer_counts. exact E1.
    + eapply sameCounts_trans.
      * eapply loadCOFLayer_counts. exact E1.
      * eapply IH. exact E.
Qed.

Lemma loadAnimationFrames_counts (b : list byte) (c c' : COF) :
  loadAnimationFrames b c = Ok c' -> sameCounts c c'.
Proof.
  unfold loadAnimationFrames. intros E. step_in E. inversion E; subst.
  unfold sameCounts. cof_fields. auto.
Qed.

Lemma loadPriority_counts (b : list byte) (c c' : COF) :
  loadPriority b c = Ok c' -> sameCounts c c'.
Proof.
  unfold loadPriority. intros E. step_in E. inversion E; subst.
  unfold sameCounts. cof_fields. auto.
Qed.

(** The header of 25 bytes is always loaded. *)
Lemma loadHeader_total (b : list byte) (c : COF) :
  length b = numHeaderBytes -> exists c', loadHeader b c = Ok c'.
Proof.
  intros Hlen. unfold loadHeader, rbind, index, slice. rewrite Hlen.
  destruct (lookup_lt_is_Some_2 b headerNumLayers) as [x0 ->];
    [rewrite Hlen; unfold headerNumLayers, numHeaderBytes; simpl; lia|].
  destruct (lookup_lt_is_Some_2 b headerFramesPerDir) as [x1 ->];
    [rewrite Hlen; unfold headerFramesPerDir, numHeaderBytes; simpl; lia|].
  destruct (lookup_lt_is_Some_2 b headerNumDirs) as [x2 ->];
    [rewrite Hlen; unfold headerNumDirs, numHeaderBytes; simpl; lia|].
  destruct (lookup_lt_is_Some_2 b headerSpeed) as [x3 ->];
    [rewrite Hlen; unfold headerSpeed, numHeaderBytes; simpl; lia|].
  simpl. eexists. reflexivity.
Qed.

(** Once the header could be read, the document that [Unmarshal] leaves
    carries its counts and speed, whether the call fails or not. *)
Lemma COF_Unmarshal_counts (data : list byte) (c0 c : COF) (err : option error) :
  COF_Unmarshal data c0 = (c, err) ->
  (numHeaderBytes <= length data)%nat ->
  exists b0 b1 b2 sp,
    data !! 0%nat = Some b0 /\ data !! 1%nat = Some b1 /\ data !! 2%nat = Some b2 /\
    data !! 24%nat = Some sp /\
    NumberOfLayers c = int_of_byte b0 /\ FramesPerDirection c = int_of_byte b1 /\
    NumberOfDirections c = int_of_byte b2 /\ Speed c = int_of_byte sp.
Proof.
  unfold COF_Unmarshal. intros E Hlen.
  rewrite Next_enough in E by (simpl; lia).
  cbn [buffer Position FromBytes] in E. rewrite drop_0 in E.
  destruct (loadHeader_total (take numHeaderBytes data) c0) as [c1 Hh];
    [rewrite length_take; lia|].
  rewrite Hh in E.
  apply loadHeader_Ok in Hh as (b0 & b1 & b2 & sp & H0 & H1 & H2 & H24 & ->).
  unfold numHeaderBytes, numUnknownHeaderBytes in *.
  rewrite lookup_take_lt in H0, H1, H2, H24 by lia.
  exists b0, b1, b2, sp.
  split; [exact H0|]. split; [exact H1|]. split; [exact H2|]. split; [exact H24|].
  case_in E; [|inversion E; subst; cof_fields; auto].
  match type of E with
  | context [loadCOFLayers ?s ?c] =>
      destruct (loadCOFLayers s c) as [[sL cL] eL] eqn:EL
  end.
  unfold loadCOFLayers in EL. apply loadCOFLayers_from_counts in EL.
  unfold sameCounts in EL. cof_fields. destruct EL as (EL0 & EL1 & EL2 & EL3).
  destruct eL as [eL|]; [inversion E; subst; auto|].
  case_in E; [|inversion E; subst; auto].
  case_in E; [|inversion E; subst; auto].
  match goal with
  | Hx : loadAnimationFrames _ _ = Ok _ |- _ =>
      apply loadAnimationFrames_counts in Hx as (EA0 & EA1 & EA2 & EA3)
  end.
  case_in E; [|inversion E; subst; cof_fields; repeat split; congruence].
  case_in E.
  - match goal with
    | Hx : loadPriority _ _ = Ok _ |- _ =>
        apply loadPriority_counts in Hx as (EP0 & EP1 & EP2 & EP3)
    end.
    cof_fields. inversion E; subst. repeat split; congruence.
  - inversion E; subst; cof_fields; repeat split; congruence.
Qed.

End Failure.

(** C8. When [Load] returns an error it returns no store.  [Unmarshal]
    always returns the document it created, also together with an error;
    once the 25 bytes of the header could be read, that document carries
    the counts and the speed of the header. *)
Theorem decoders_on_error `{IntegerReading} `{NameHash} `{WeaponClasses} :
  (forall (data : list byte) (e : error),
     snd (Load data) = Some e -> fst (Load data) = None) /\
  (forall data : list byte, exists c, fst (Unmarshal data) = Some c) /\
  (forall (data : list byte) (c : COF) (e : error),
     Unmarshal data = (Some c, Some e) ->
     (numHeaderBytes <= length data)%nat ->
     exists b0 b1 b2 sp,
       data !! 0%nat = Some b0 /\ data !! 1%nat = Some b1 /\
       data !! 2%nat = Some b2 /\ data !! 24%nat = Some sp /\
       NumberOfLayers c = int_of_byte b0 /\ FramesPerDirection c = int_of_byte b1 /\
       NumberOfDirections c = int_of_byte b2 /\ Speed c = int_of_byte sp).
Proof.
  split; [|split].
  - intros data e. unfold Load.
    destruct (loadBlocks _ _ _ _) as [[reader ad]|e']; [|reflexivity].
    destruct (negb _); [reflexivity|discriminate].
  - intros data. unfold Unmarshal.
    destruct (COF_Unmarshal data New) as [c err]. exists c. reflexivity.
  - intros data c e E Hlen. unfold Unmarshal in E.
    destruct (COF_Unmarshal data New) as [c' err] eqn:EU.
    inversion E; subst. eapply COF_Unmarshal_counts; eassumption.
Qed.

Lemma decoders_on_error_witness :
  Load oversizedData = (None, Some ErrTooManyRecords) /\
  Unmarshal cofTruncated = (Some (documentOf cofTruncated), Some ErrOutOfData) /\
  NumberOfLayers (documentOf cofTruncated) = 1 /\
  FramesPerDirection (documentOf cofTruncated) = 2 /\
  NumberOfDirections (documentOf cofTruncated) = 3 /\
  Speed (documentOf cofTruncated) = 7.
Proof.
  destruct (@decoders_on_error LittleEndian ByteSumHash StringCodes)
    as (Hload & Hsome & Hcounts).
  assert (EL : snd (Load oversizedData) = Some ErrTooManyRecords)
    by (vm_compute; reflexivity).
  pose proof (Hload _ _ EL) as HL.
  assert (EU : Unmarshal cofTruncated
               = (Some (documentOf cofTruncated), Some ErrOutOfData))
    by (vm_compute; reflexivity).
  destruct (Hcounts _ _ _ EU) as (b0 & b1 & b2 & sp & H0 & H1 & H2 & H24 & -> & -> & -> & ->).
  { vm_compute. lia. }
  split.
  { destruct (Load oversizedData) as [o1 o2]. simpl in *. subst. reflexivity. }
  split; [exact EU|].
  vm_compute in H0, H1, H2, H24.
  injection H0 as <-. injection H1 as <-. injection H2 as <-. injection H24 as <-.
  repeat split; reflexivity.
Defined.

(** C8, as stated, fails for [Unmarshal]: on a buffer that declares one
    layer and ends after the body bytes it returns, together with the error
    of a short read, a document that holds the counts, the speed and the
    body bytes read so far. *)
Lemma Unmarshal_returns_partial_document :
  snd (Unmarshal cofTruncated) = Some ErrOutOfData /\
  fst (Unmarshal cofTruncated) = Some (documentOf cofTruncated) /\
  NumberOfLayers (documentOf cofTruncated) = 1 /\
  Speed (documentOf cofTruncated) = 7 /\
  unknownBodyBytes (documentOf cofTruncated) = [x0a; x0b; x0c] /\
  length (CofLayers (documentOf cofTruncated)) = 1%nat /\
  NumberOfLayers New = 0.
Proof.
  split; [|split; [|split; [|split; [|split; [|split]]]]]; vm_compute; reflexivity.
Qed.

(** * Further properties of the COF codec *)

(** ** When [Unmarshal] fails *)

Lemma Next_short (n : nat) (r : Reader) (e : error) :
  Next n r = Err e ->
  e = ErrOutOfData /\ (length (buffer r) < Position r + n)%nat.
Proof.
  unfold Next. destruct (Nat.leb_spec (Position r + n) (length (buffer r)));
    intros E; inversion E. split; [reflexivity|lia].
Qed.

Section UnmarshalFailure.
Context `{WeaponClasses}.

(** Nine bytes always decode to a layer. *)
Lemma layerOfBytes_total (b : list byte) :
  length b = numLayerBytes -> exists layer, layerOfBytes b = Ok layer.
Proof.
  intros Hlen.
  do 9 (destruct b as [|? b]; [discriminate Hlen|]).
  destruct b; [|discriminate Hlen].
  eexists. reflexivity.
Qed.

(** An iteration of [loadCOFLayers] on an index of the layer slice fails
    only when fewer than nine bytes are left, with the error of the
    cursor. *)
Lemma loadCOFLayer_Some (i : nat) (s s' : Reader) (c c' : COF) (e : error) :
  (i < length (CofLayers c))%nat ->
  loadCOFLayer i s c = (s', c', Some e) ->
  e = ErrOutOfData /\ (length (buffer s) < Position s + numLayerBytes)%nat.
Proof.
  unfold loadCOFLayer. intros Hi E.
  destruct (Next numLayerBytes s) as [[b s1]|e1] eqn:EN.
  - exfalso. apply Next_Ok in EN as (_ & _ & _ & _ & Hlen).
    destruct (layerOfBytes_total b Hlen) as [layer Hl]. rewrite Hl in E.
    rewrite set_index_lt in E by exact Hi. discriminate E.
  - inversion E; subst. eapply Next_short. exact EN.
Qed.

Lemma loadCOFLayers_from_Some (n : nat) :
  forall (i : nat) (s s' : Reader) (c c' : COF) (e : error),
  (i + n <= length (CofLayers c))%nat ->
  loadCOFLayers_from n i s c = (s', c', Some e) ->
  e = ErrOutOfData /\ (length (buffer s) < Position s + n * numLayerBytes)%nat.
Proof.
  induction n as [|n IH]; intros i s s' c c' e Hlen E; simpl in E.
  - discriminate E.
  - destruct (loadCOFLayer i s c) as [[s1 c1] [e1|]] eqn:E1.
    + inversion E; subst. apply loadCOFLayer_Some in E1 as [-> Hshort]; [|lia].
      split; [reflexivity|]. unfold numLayerBytes in *. lia.
    + apply loadCOFLayer_Ok in E1 as (layer & _ & Hb & Hp & _ & _ & ->).
      apply IH in E as [-> Hshort].
      * split; [reflexivity|]. rewrite Hb, Hp in Hshort.
        unfold numLayerBytes in *. lia.
      * cof_fields. rewrite length_insert. lia.
Qed.

(** [Unmarshal] never panics: its only error is that of a short read, and
    it fails only on a buffer shorter than the size that its header
    declares. *)
Lemma COF_Unmarshal_Some (data : list byte) (c0 c : COF) (e : error) :
  COF_Unmarshal data c0 = (c, Some e) ->
  e = ErrOutOfData /\
  match declaredSize data with
  | Some size => (length data < size)%nat
  | None => True
  end.
Proof.
  unfold COF_Unmarshal. intros E.
  destruct (Next numHeaderBytes (FromBytes data)) as [[hb s0]|e0] eqn:EN0.
  2:{ injection E as _ He; subst e. apply Next_short in EN0 as [-> Hshort].
      split; [reflexivity|]. cbn [buffer Position FromBytes] in Hshort.
      unfold declaredSize. destruct (data !! 0%nat), (data !! 1%nat), (data !! 2%nat);
        auto. unfold documentSize, priorityOffset, framesOffset, layersOffset. lia. }
  apply Next_Ok in EN0 as (Hb0 & Hp0 & Hs0 & Hle0 & Hlen0).
  cbn [buffer Position FromBytes] in *. rewrite drop_0 in Hs0.
  destruct (loadHeader_total hb c0 Hlen0) as [c1 Hh]. rewrite Hh in E.
  apply loadHeader_Ok in Hh as (b0 & b1 & b2 & sp & H0 & H1 & H2 & H24 & ->).
  rewrite Hs0 in H0, H1, H2, H24.
  unfold numHeaderBytes, numUnknownHeaderBytes in *.
  rewrite lookup_take_lt in H0, H1, H2, H24 by lia.
  unfold declaredSize. rewrite H0, H1, H2.
  pose proof (int_of_byte_range b0) as R0.
  pose proof (int_of_byte_range b1) as R1.
  pose proof (int_of_byte_range b2) as R2.
  set (numLayers := Z.to_nat (int_of_byte b0)).
  set (framesPerDir := Z.to_nat (int_of_byte b1)).
  set (dirs := Z.to_nat (int_of_byte b2)).
  unfold documentSize, priorityOffset, framesOffset, layersOffset,
    numHeaderBytes, numUnknownHeaderBytes, numUnknownBodyBytes.
  destruct (Next numUnknownBodyBytes s0) as [[bb s1]|e1] eqn:EN1.
  2:{ injection E as _ He; subst e. apply Next_short in EN1 as [-> Hshort].
      split; [reflexivity|]. unfold numUnknownBodyBytes in Hshort.
      rewrite Hb0 in Hshort. lia. }
  apply Next_Ok in EN1 as (Hb1 & Hp1 & _ & Hle1 & _).
  unfold numUnknownBodyBytes in *.
  match type of E with
  | context [loadCOFLayers ?s ?c] =>
      destruct (loadCOFLayers s c) as [[sL cL] [eL|]] eqn:EL
  end.
  { injection E as _ He; subst e. unfold loadCOFLayers in EL.
    apply loadCOFLayers_from_Some in EL as [-> Hshort].
    - split; [reflexivity|]. cof_fields. fold numLayers in Hshort.
      rewrite Hb1, Hb0 in Hshort. lia.
    - cof_fields. rewrite length_replicate. lia. }
  unfold loadCOFLayers in EL.
  apply loadCOFLayers_from_Ok in EL as (ls & _ & HbL & HpL & _ & ->).
  cof_fields. fold numLayers framesPerDir dirs in E |- *.
  destruct (Next framesPerDir sL) as [[fb s2]|e2] eqn:EN2.
  2:{ injection E as _ He; subst e. apply Next_short in EN2 as [-> Hshort].
      split; [reflexivity|]. rewrite HbL, Hb1, Hb0 in Hshort. lia. }
  apply Next_Ok in EN2 as (Hb2 & Hp2 & _ & Hle2 & Hlen2).
  rewrite loadAnimationFrames_Ok in E by (cof_fields; exact Hlen2).
  cof_fields. fold numLayers framesPerDir dirs in E |- *.
  rewrite !Z2Nat.inj_mul in E by lia.
  fold numLayers framesPerDir dirs in E.
  destruct (Next (framesPerDir * dirs * numLayers) s2) as [[pb s3]|e3] eqn:EN3.
  2:{ injection E as _ He; subst e. apply Next_short in EN3 as [-> Hshort].
      split; [reflexivity|]. rewrite Hb2, HbL, Hb1, Hb0 in Hshort. lia. }
  apply Next_Ok in EN3 as (_ & _ & _ & _ & Hlen3).
  rewrite loadPriority_Ok in E
    by (cof_fields; first [reflexivity | fold numLayers framesPerDir dirs; lia]).
  discriminate E.
Qed.

End UnmarshalFailure.

(** X1. [Unmarshal] succeeds exactly on the buffers that are at least as
    long as the size that their first three bytes declare (25 header bytes,
    3 body bytes, 9 bytes a layer, the frame events and the priority
    bytes), and its only error is that of a short read: no index of the
    decoder is ever out of range. *)
Theorem Unmarshal_outcome `{WeaponClasses} (data : list byte) :
  (snd (Unmarshal data) = None
   <-> exists size, declaredSize data = Some size /\ (size <= length data)%nat) /\
  (forall e, snd (Unmarshal data) = Some e -> e = ErrOutOfData).
Proof.
  unfold Unmarshal.
  destruct (COF_Unmarshal data New) as [c [e|]] eqn:E; simpl.
  - apply COF_Unmarshal_Some in E as [-> Hshort]. split.
    + split; [discriminate|]. intros (size & Hsize & Hle).
      rewrite Hsize in Hshort. lia.
    + intros e He. inversion He. reflexivity.
  - split; [|discriminate]. split; [|reflexivity]. intros _.
    apply COF_Unmarshal_Ok in E
      as (b0 & b1 & b2 & sp & ls & H0 & H1 & H2 & _ & Hsize & _).
    unfold declaredSize. rewrite H0, H1, H2. eexists. split; [reflexivity|].
    exact Hsize.
Qed.



(** X3. Encoding the document of a successful [Unmarshal] never fails, and
    gives back the 28 bytes of header and body, then the descriptors that
    [Marshal] writes for the layers, then the frame events and the priority
    bytes of the input unchanged; bytes after the priority bytes are
    dropped. *)
Theorem Marshal_of_decoded `{WeaponClasses} (data : list byte) (c : COF) :
  Unmarshal data = (Some c, None) ->
  let numLayers := Z.to_nat (NumberOfLayers c) in
  let framesPerDir := Z.to_nat (FramesPerDirection c) in
  let dirs := Z.to_nat (NumberOfDirections c) in
  Marshal c
  = Ok (take layersOffset data
        ++ concat (map (writeLayer []) (CofLayers c))
        ++ take (framesPerDir + dirs * (framesPerDir * numLayers))
             (drop (framesOffset numLayers) data)).
Proof.
  intros E. apply Unmarshal_Some in E.
  apply COF_Unmarshal_Ok in E
    as (b0 & b1 & b2 & sp & ls & H0 & H1 & H2 & H24 & Hsize & Hall & ->).
  cbv zeta. cof_fields.
  set (numLayers := Z.to_nat (int_of_byte b0)) in *.
  set (framesPerDir := Z.to_nat (int_of_byte b1)) in *.
  set (dirs := Z.to_nat (int_of_byte b2)) in *.
  set (bs := drop (priorityOffset numLayers framesPerDir) data).
  assert (Hbs : (dirs * (framesPerDir * numLayers) <= length bs)%nat).
  { unfold bs. rewrite length_drop. unfold documentSize in Hsize. lia. }
  destruct (priorityOf_wellShaped dirs framesPerDir numLayers bs) as [Hrows Hshape];
    [exact Hbs|].
  unfold Marshal. rewrite COF_Marshal_eq. cof_fields.
  fold numLayers framesPerDir dirs. fold bs.
  rewrite (writePriority_directions_Ok _ framesPerDir numLayers dirs 0)
    by (auto; lia).
  rewrite drop_0, (take_ge (priorityOf dirs framesPerDir numLayers bs)) by lia.
  rewrite flattenPriority_priorityOf by exact Hbs.
  rewrite !byte_of_int_of_byte, map_byte_of_int_of_byte.
  f_equal.
  pose proof (take_3_lookup data b0 b1 b2 H0 H1 H2) as H3.
  assert (Hhead : take layersOffset data
                  = [b0; b1; b2] ++ take 21 (drop 3 data) ++ [sp]
                    ++ take 3 (drop 25 data)).
  { assert (A1 : take 24 data = [b0; b1; b2] ++ take 21 (drop 3 data))
      by (rewrite <- H3; symmetry; apply (take_take_drop data 3 21)).
    assert (A2 : take 25 data = take 24 data ++ [sp])
      by (apply (take_S_r data 24 sp H24)).
    assert (A3 : take 28 data = take 25 data ++ take 3 (drop 25 data))
      by (symmetry; apply (take_take_drop data 25 3)).
    change layersOffset with 28%nat. rewrite A3, A2, A1.
    repeat (progress simpl app || rewrite <- app_assoc). reflexivity. }
  rewrite Hhead.
  unfold bs, priorityOffset.
  rewrite <- (take_take_drop (drop (framesOffset numLayers) data) framesPerDir).
  rewrite drop_drop.
  repeat (progress simpl app || rewrite <- app_assoc). reflexivity.
Qed.

Lemma Marshal_of_decoded_witness :
  Unmarshal cofFlagTwo = (Some (documentOf cofFlagTwo), None) /\
  Marshal (documentOf cofFlagTwo)
  = Ok (take 28 cofFlagTwo ++ [x01; x00; x01; x00; x00; "h"; "t"; "h"; x00]%byte).
Proof.
  assert (E : Unmarshal cofFlagTwo = (Some (documentOf cofFlagTwo), None))
    by (vm_compute; reflexivity).
  split; [exact E|].
  rewrite (Marshal_of_decoded cofFlagTwo _ E). vm_compute. reflexivity.
Defined.

(** ** [Marshal] on documents built by hand *)


(** X4. For a document whose priority matrix has at least as many rows as
    there are directions, every row with as many cells as there are frames
    per direction and every cell with as many entries as there are layers,
    [Marshal] succeeds and writes the three counts, the reserved header
    bytes, the speed, the body bytes, the layers, one byte for each frame
    event and the entries of the first rows of the matrix, every integer
    reduced to its low byte. *)
Theorem Marshal_well_shaped `{WeaponClasses} (c : COF) :
  let numLayers := Z.to_nat (NumberOfLayers c) in
  let framesPerDir := Z.to_nat (FramesPerDirection c) in
  let dirs := Z.to_nat (NumberOfDirections c) in
  (dirs <= length (Priority c))%nat ->
  wellShaped framesPerDir numLayers (Priority c) ->
  Marshal c
  = Ok ([byte_of_int (NumberOfLayers c); byte_of_int (FramesPerDirection c);
         byte_of_int (NumberOfDirections c)]
        ++ unknownHeaderBytes c ++ [byte_of_int (Speed c)] ++ unknownBodyBytes c
        ++ concat (map (writeLayer []) (CofLayers c))
        ++ map byte_of_int (AnimationFrames c)
        ++ flattenPriority (take dirs (Priority c))).
Proof.
  intros numLayers framesPerDir dirs Hrows Hshape.
  unfold Marshal. rewrite COF_Marshal_eq.
  fold numLayers framesPerDir dirs.
  rewrite (writePriority_directions_Ok _ framesPerDir numLayers dirs 0)
    by (auto; lia).
  rewrite drop_0. repeat (progress simpl app || rewrite <- app_assoc). reflexivity.
Qed.

Lemma Marshal_well_shaped_witness :
  Marshal handBuiltDocument
  = Ok ([x01; x02; x01] ++ zeros 21 ++ ["044"] ++ zeros 3
        ++ [x01; x03; x01; x00; x04; "h"; "t"; "h"; x00]
        ++ [x05; x05] ++ [x01; x02])%byte.
Proof.
  rewrite (Marshal_well_shaped handBuiltDocument).
  - vm_compute. reflexivity.
  - vm_compute. lia.
  - vm_compute. repeat constructor.
Defined.



(** * Further properties of the animation data decoder *)

(** ** The layout of a record *)

(** The loop over the events reads [n] bytes and keeps the non-zero ones
    under their indices. *)
Lemma loadEvents_layout (n : nat) :
  forall (eventIdx : Z) (r r' : Reader) (ev ev' : gmap Z Z),
  loadEvents n eventIdx r ev = Ok (r', ev') ->
  buffer r' = buffer r /\ Position r' = (Position r + n)%nat /\
  ((Position r <= length (buffer r))%nat -> (Position r' <= length (buffer r))%nat) /\
  forall k : Z,
    ev' !! k
    = if decide (eventIdx <= k < eventIdx + Z.of_nat n)
      then match buffer r !! (Position r + Z.to_nat (k - eventIdx))%nat
                 ≫= eventOfByte with
           | Some v => Some v
           | None => ev !! k
           end
      else ev !! k.
Proof.
  induction n as [|n IH]; intros eventIdx r r' ev ev' E; simpl in E.
  - inversion E; subst. split; [reflexivity|]. split; [lia|]. split; [auto|].
    intros k. destruct (decide _); [lia|reflexivity].
  - destruct (Next 1 r) as [[bs r1]|e] eqn:EN; [|discriminate].
    apply Next_Ok in EN as (Hb & Hp & Hbs & Hle & _).
    apply IH in E as (Hb' & Hp' & Hle' & Hev).
    split; [congruence|]. split; [lia|].
    split; [intros _; rewrite <- Hb; apply Hle'; rewrite Hb; lia|].
    destruct (lookup_lt_is_Some_2 (buffer r) (Position r)) as [b Hbyte]; [lia|].
    assert (HAs : AsByte bs = b).
    { rewrite Hbs, (drop_S _ _ _ Hbyte). reflexivity. }
    rewrite HAs in Hev. clear HAs Hbs.
    intros k. rewrite Hev. rewrite Hb, Hp.
    destruct (decide (eventIdx + 1 <= k < eventIdx + 1 + Z.of_nat n)) as [Hin|Hout].
    + destruct (decide (eventIdx <= k < eventIdx + Z.of_nat (S n))) as [_|Hno]; [|lia].
      replace (Position r + 1 + Z.to_nat (k - (eventIdx + 1)))%nat
        with (Position r + Z.to_nat (k - eventIdx))%nat by lia.
      destruct (buffer r !! _ ≫= eventOfByte); [reflexivity|].
      destruct (int_of_byte b =? EventNone); [reflexivity|].
      apply lookup_insert_ne. lia.
    + destruct (decide (k = eventIdx)) as [->|Hne].
      * destruct (decide (eventIdx <= eventIdx < eventIdx + Z.of_nat (S n)))
          as [_|Hno]; [|lia].
        rewrite Z.sub_diag. simpl Z.to_nat. rewrite Nat.add_0_r, Hbyte. simpl.
        unfold eventOfByte.
        destruct (int_of_byte b =? EventNone); [reflexivity|].
        apply lookup_insert_eq.
      * destruct (decide (eventIdx <= k < eventIdx + Z.of_nat (S n))) as [Hin'|_];
          [lia|].
        destruct (int_of_byte b =? EventNone); [reflexivity|].
        apply lookup_insert_ne. lia.
Qed.

Section LoadLayout.
Context `{IntegerReading} `{NameHash}.

(** One iteration of the record loop reads the 160 bytes of a record at
    the cursor and stores the record that they denote. *)
Lemma loadRecord_layout (recordIdx hashIdx : nat) (r r' : Reader)
    (ad ad' : AnimationData) (rs rs' : list (option AnimationDataRecord)) :
  loadRecord recordIdx hashIdx (r, ad, rs) = Ok (r', ad', rs') ->
  buffer r' = buffer r /\ Position r' = (Position r + recordSize)%nat /\
  (Position r' <= length (buffer r))%nat /\
  exists rec,
    (recordIdx < length rs)%nat /\
    rs' = <[recordIdx := Some rec]> rs /\
    recordAt (buffer r) (Position r) rec /\
    blocks ad' = blocks ad /\
    forall nm, is_Some (entries ad' !! nm)
               <-> is_Some (entries ad !! nm) \/ nm = name rec.
Proof.
  unfold loadRecord. intros E.
  destruct (Next byteCountName r) as [[nameBytes r1]|?] eqn:EN1; [|discriminate].
  destruct (index nameBytes (byteCountName - 1)) as [term|?] eqn:EI; [|discriminate].
  destruct (Byte.eqb term x00) eqn:ET; [|discriminate]. simpl negb in E. cbv iota in E.
  destruct (set_index (hashTable ad) hashIdx _) as [table|?] eqn:ES1; [|discriminate].
  destruct (Next 4 r1) as [[framesBits r2]|?] eqn:EN2; [|discriminate].
  destruct (Next 2 r2) as [[speedBytes r3]|?] eqn:EN3; [|discriminate].
  destruct (Next byteCountSpeedPadding r3) as [[pad r4]|?] eqn:EN4; [|discriminate].
  destruct (loadEvents numEvents 0 r4 ∅) as [[r5 evs]|?] eqn:EE; [|discriminate].
  destruct (set_index rs recordIdx _) as [rs1|?] eqn:ES2; [|discriminate].
  inversion E; subst r' ad' rs'; clear E.
  apply Byte.byte_dec_bl in ET. subst term.
  apply Next_Ok in EN1 as (Hb1 & Hp1 & Hs1 & Hle1 & _).
  apply Next_Ok in EN2 as (Hb2 & Hp2 & Hs2 & Hle2 & _).
  apply Next_Ok in EN3 as (Hb3 & Hp3 & Hs3 & Hle3 & _).
  apply Next_Ok in EN4 as (Hb4 & Hp4 & _ & Hle4 & _).
  apply loadEvents_layout in EE as (Hb5 & Hp5 & Hle5 & Hev).
  apply set_index_Ok in ES2 as [Hri ->].
  apply index_Ok in EI.
  unfold recordSize in *.
  unfold byteCountName, byteCountSpeedPadding, numEvents in *.
  rewrite Hb4, Hb3, Hb2, Hb1 in *.
  split; [exact Hb5|]. split; [lia|]. split; [apply Hle5; lia|].
  eexists. split; [exact Hri|]. split; [reflexivity|]. split; [|split; [reflexivity|]].
  - unfold recordAt. cbn [name frames speed events].
    split.
    { rewrite Hs1 in EI. simpl Nat.sub in EI.
      rewrite lookup_take_lt, lookup_drop in EI by lia. exact EI. }
    split; [rewrite Hs1; reflexivity|].
    split; [rewrite Hs2, Hp1; reflexivity|].
    split; [rewrite Hs3, Hp2, Hp1; f_equal; f_equal; f_equal; lia|].
    intros k. rewrite Hev. rewrite lookup_empty.
    destruct (decide (0 <= k < 0 + Z.of_nat 144)) as [Hin|Hout].
    + destruct (decide (0 <= k < 144)) as [_|Hno]; [|lia].
      replace (Position r4 + Z.to_nat (k - 0))%nat
        with (Position r + 16 + Z.to_nat k)%nat by lia.
      destruct (_ ≫= eventOfByte); reflexivity.
    + destruct (decide (0 <= k < 144)) as [Hin|_]; [lia|reflexivity].
  - intros nm. unfold set_entries, set_hashTable. cbn [entries name].
    set (key := stripNUL (string_of_bytes nameBytes)).
    destruct (decide (nm = key)) as [->|Hne].
    + rewrite lookup_insert_eq. split; [auto|eauto].
    + rewrite lookup_insert_ne by auto.
      destruct (entries ad !! key).
      * split; [auto|intros [Hs|Hk]; [exact Hs|contradiction]].
      * rewrite lookup_insert_ne by auto.
        split; [auto|intros [Hs|Hk]; [exact Hs|contradiction]].
Qed.

Lemma loadRecords_layout (hashIdx : nat) (n : nat) :
  forall (recordIdx : nat) (r r' : Reader) (ad ad' : AnimationData)
         (rs rs' : list (option AnimationDataRecord)),
  loadRecords n recordIdx hashIdx (r, ad, rs) = Ok (r', ad', rs') ->
  buffer r' = buffer r /\ Position r' = (Position r + recordSize * n)%nat /\
  ((Position r <= length (buffer r))%nat -> (Position r' <= length (buffer r))%nat) /\
  exists news,
    length news = n /\
    rs' = take recordIdx rs ++ map Some news ++ drop (recordIdx + n) rs /\
    (forall j rec, news !! j = Some rec ->
                   recordAt (buffer r) (Position r + recordSize * j) rec) /\
    blocks ad' = blocks ad /\
    forall nm, is_Some (entries ad' !! nm)
               <-> is_Some (entries ad !! nm) \/ nm ∈ map name news.
Proof.
  induction n as [|n IH]; intros recordIdx r r' ad ad' rs rs' E; simpl in E.
  - inversion E; subst. split; [reflexivity|]. split; [lia|]. split; [auto|].
    exists []. simpl. rewrite Nat.add_0_r, take_drop.
    split; [reflexivity|]. split; [reflexivity|].
    split; [intros j rec Hj; discriminate Hj|]. split; [reflexivity|].
    intros nm. split; [auto|]. intros [Hs|Hin]; [exact Hs|].
    apply elem_of_nil in Hin. contradiction.
  - destruct (loadRecord recordIdx hashIdx (r, ad, rs)) as [[[r1 ad1] rs1]|?] eqn:E1;
      [|discriminate].
    apply loadRecord_layout in E1
      as (Hb & Hp & Hle & rec & Hri & -> & Hrec & Hbl & Hkeys).
    apply IH in E as (Hb' & Hp' & Hle' & news & Hlen & -> & Hnews & Hbl' & Hkeys').
    split; [congruence|]. split; [lia|].
    split; [intros _; rewrite <- Hb; apply Hle'; rewrite Hb; exact Hle|].
    exists (rec :: news). split; [simpl; lia|]. split.
    { rewrite drop_insert_lt by lia.
      replace (recordIdx + S n)%nat with (S recordIdx + n)%nat by lia.
      rewrite (take_S_r _ _ (Some rec)) by (apply list_lookup_insert_eq; exact Hri).
      rewrite take_insert_ge by lia.
      simpl. rewrite <- app_assoc. reflexivity. }
    split.
    { intros [|j] rec' Hj; simpl in Hj.
      - inversion Hj; subst rec'. rewrite Nat.mul_0_r, Nat.add_0_r. exact Hrec.
      - apply Hnews in Hj. rewrite Hb, Hp in Hj.
        replace (Position r + recordSize * S j)%nat
          with (Position r + recordSize + recordSize * j)%nat by lia.
        exact Hj. }
    split; [congruence|].
    intros nm. rewrite Hkeys', Hkeys. simpl. rewrite elem_of_cons. tauto.
Qed.

(** One iteration of the block loop reads the count of the block and its
    records. *)
Lemma loadBlock_layout (blockIdx hashIdx : nat) (r r' : Reader)
    (ad ad' : AnimationData) :
  loadBlock blockIdx hashIdx (r, ad) = Ok (r', ad') ->
  buffer r' = buffer r /\ (Position r' <= length (buffer r))%nat /\
  exists b,
    (blockIdx < length (blocks ad))%nat /\
    blocks ad' = <[blockIdx := Some b]> (blocks ad) /\
    blockAt (buffer r) (Position r) b /\
    Position r' = (Position r + 4 + recordSize * length (blockRecords (Some b)))%nat /\
    forall nm, is_Some (entries ad' !! nm)
               <-> is_Some (entries ad !! nm)
                   \/ nm ∈ map name (blockRecords (Some b)).
Proof.
  unfold loadBlock. intros E.
  destruct (Next 4 r) as [[countBits r1]|?] eqn:EN; [|discriminate].
  destruct (Z.ltb_spec maxRecordsPerBlock (AsUInt32 countBits)) as [|Hle];
    [discriminate|].
  destruct (loadRecords _ _ _ _) as [[[r2 ad2] rs2]|?] eqn:ER; [|discriminate].
  destruct (set_index (blocks ad2) blockIdx _) as [bs|?] eqn:ES; [|discriminate].
  inversion E; subst r' ad'; clear E.
  apply Next_Ok in EN as (Hb1 & Hp1 & Hs1 & Hle1 & _).
  apply loadRecords_layout in ER
    as (Hb2 & Hp2 & Hle2 & news & Hlen & Hrs & Hnews & Hbl & Hkeys).
  apply set_index_Ok in ES as [Hi ->].
  simpl in Hrs. rewrite drop_replicate, Nat.sub_diag in Hrs. simpl in Hrs.
  rewrite app_nil_r in Hrs. subst rs2.
  rewrite Hb1 in *. rewrite Hbl in *.
  split; [exact Hb2|]. split; [apply Hle2; lia|].
  eexists. split; [exact Hi|]. split; [reflexivity|].
  cbn [blockRecords records]. rewrite omap_id_map_Some.
  split.
  { unfold blockAt. cbn [recordCount records]. subst countBits.
    split; [reflexivity|]. split; [exact Hle|].
    exists news. split; [reflexivity|]. split; [exact Hlen|].
    intros j rec Hj. apply Hnews in Hj. rewrite Hp1 in Hj. exact Hj. }
  split; [lia|].
  intros nm. unfold set_blocks. cbn [entries]. apply Hkeys.
Qed.

Lemma recordsOf_cons (b : block) (bs : list block) :
  recordsOf (b :: bs) = blockRecords (Some b) ++ recordsOf bs.
Proof. reflexivity. Qed.

(** [n] iterations of the block loop read [n] blocks, one after the
    other. *)
Lemma loadBlocks_layout (hashIdx : nat) (n : nat) :
  forall (blockIdx : nat) (r r' : Reader) (ad ad' : AnimationData),
  loadBlocks n blockIdx hashIdx (r, ad) = Ok (r', ad') ->
  buffer r' = buffer r /\
  ((Position r <= length (buffer r))%nat -> (Position r' <= length (buffer r))%nat) /\
  exists bs,
    length bs = n /\
    blocks ad' = take blockIdx (blocks ad) ++ map Some bs
                   ++ drop (blockIdx + n) (blocks ad) /\
    Position r' = (Position r + 4 * n + recordSize * length (recordsOf bs))%nat /\
    (forall k b, bs !! k = Some b ->
       blockAt (buffer r)
         (Position r + 4 * k + recordSize * length (recordsOf (take k bs))) b) /\
    forall nm, is_Some (entries ad' !! nm)
               <-> is_Some (entries ad !! nm) \/ nm ∈ map name (recordsOf bs).
Proof.
  induction n as [|n IH]; intros blockIdx r r' ad ad' E; simpl in E.
  - inversion E; subst. split; [reflexivity|]. split; [auto|].
    exists []. simpl. rewrite Nat.add_0_r, take_drop.
    split; [reflexivity|]. split; [reflexivity|]. split; [lia|].
    split; [intros k b Hk; discriminate Hk|].
    intros nm. split; [auto|]. intros [Hs|Hin]; [exact Hs|].
    apply elem_of_nil in Hin. contradiction.
  - destruct (loadBlock blockIdx hashIdx (r, ad)) as [[r1 ad1]|?] eqn:E1;
      [|discriminate].
    apply loadBlock_layout in E1
      as (Hb & Hle & b & Hi & Hbl & Hblock & Hp & Hkeys).
    apply IH in E as (Hb' & Hle' & bs & Hlen & Hbl' & Hp' & Hblocks & Hkeys').
    split; [congruence|].
    split; [intros _; rewrite <- Hb; apply Hle'; rewrite Hb; exact Hle|].
    exists (b :: bs). split; [simpl; lia|]. split.
    { rewrite Hbl', Hbl. rewrite drop_insert_lt by lia.
      replace (blockIdx + S n)%nat with (S blockIdx + n)%nat by lia.
      rewrite (take_S_r _ _ (Some b)) by (apply list_lookup_insert_eq; exact Hi).
      rewrite take_insert_ge by lia.
      simpl. rewrite <- app_assoc. reflexivity. }
    split; [rewrite Hp', Hp, recordsOf_cons, length_app; lia|].
    split.
    { intros [|k] b' Hk; simpl in Hk.
      - inversion Hk; subst b'. rewrite take_0.
        change (recordsOf []) with (@nil AnimationDataRecord). simpl length.
        rewrite Nat.mul_0_r, !Nat.add_0_r. exact Hblock.
      - apply Hblocks in Hk. rewrite Hb, Hp in Hk.
        change (take (S k) (b :: bs)) with (b :: take k bs).
        rewrite recordsOf_cons, length_app.
        replace (Position r + 4 * S k
                 + recordSize * (length (blockRecords (Some b))
                                 + length (recordsOf (take k bs))))%nat
          with (Position r + 4 + recordSize * length (blockRecords (Some b))
                + 4 * k + recordSize * length (recordsOf (take k bs)))%nat by lia.
        exact Hk. }
    intros nm. rewrite Hkeys', Hkeys, recordsOf_cons, map_app, elem_of_app. tauto.
Qed.

(** The file that [Load] reads: 256 blocks, each a count followed by its
    records, and nothing else. *)
Lemma Load_layout_of (data : list byte) (ad : AnimationData) :
  Load data = (Some ad, None) ->
  exists bs,
    blocks ad = map Some bs /\ length bs = numBlocks /\
    allRecords ad = recordsOf bs /\
    length data = (4 * numBlocks + recordSize * length (allRecords ad))%nat /\
    (forall k b, bs !! k = Some b ->
       blockAt data (4 * k + recordSize * length (recordsOf (take k bs))) b) /\
    forall nm, is_Some (entries ad !! nm) <-> nm ∈ map name (allRecords ad).
Proof.
  intros E. apply Load_Some in E as (reader & E & Hpos).
  apply loadBlocks_layout in E as (_ & _ & bs & Hlen & Hbl & Hp & Hblocks & Hkeys).
  change (blocks newAnimationData) with (replicate numBlocks (@None block)) in Hbl.
  rewrite take_0, Nat.add_0_l, drop_replicate, Nat.sub_diag in Hbl.
  simpl in Hbl. rewrite app_nil_r in Hbl.
  cbn [buffer Position FromBytes] in *.
  exists bs. split; [exact Hbl|]. split; [exact Hlen|].
  assert (Hall : allRecords ad = recordsOf bs)
    by (unfold allRecords, recordsOf; rewrite Hbl; reflexivity).
  split; [exact Hall|]. split; [rewrite Hall; lia|].
  split; [exact Hblocks|].
  intros nm. rewrite Hkeys, Hall.
  change (entries newAnimationData) with (∅ : gmap string (list AnimationDataRecord)).
  rewrite lookup_empty. split; [intros [[x Hx]|Hin]; [discriminate|exact Hin]|auto].
Qed.

End LoadLayout.

(** ** The records of a file that was read *)

Lemma string_of_bytes_cons (b : byte) (l : list byte) :
  string_of_bytes (b :: l) = String (ascii_of_byte b) (string_of_bytes l).
Proof. reflexivity. Qed.

Lemma length_string_of_bytes (l : list byte) :
  String.length (string_of_bytes l) = length l.
Proof.
  induction l as [|b l IH]; [reflexivity|].
  rewrite string_of_bytes_cons. simpl. rewrite IH. reflexivity.
Qed.

Lemma stripNUL_noNUL (s : string) : noNUL (stripNUL s) = true.
Proof.
  induction s as [|c s IH]; [reflexivity|]. simpl.
  destruct (Ascii.eqb c Ascii.zero) eqn:E; [exact IH|].
  unfold noNUL in *. simpl. rewrite E. exact IH.
Qed.

Lemma stripNUL_length (s : string) :
  (String.length (stripNUL s) <= String.length s)%nat.
Proof.
  induction s as [|c s IH]; [reflexivity|]. simpl.
  destruct (Ascii.eqb c Ascii.zero); simpl; lia.
Qed.

Lemma stripNUL_terminated (l : list byte) :
  stripNUL (string_of_bytes (l ++ [x00])) = stripNUL (string_of_bytes l).
Proof.
  induction l as [|b l IH]; [reflexivity|].
  simpl app. rewrite !string_of_bytes_cons. simpl. rewrite IH. reflexivity.
Qed.

Section LoadedRecords.
Context `{IntegerReading} `{NameHash}.

(** The name of a record has no zero byte and at most seven characters. *)
Lemma recordAt_name (bytes : list byte) (p : nat) (rec : AnimationDataRecord) :
  recordAt bytes p rec ->
  noNUL (name rec) = true /\ (String.length (name rec) <= 7)%nat.
Proof.
  intros (Hterm & Hname & _). rewrite Hname. split; [apply stripNUL_noNUL|].
  rewrite (take_S_r _ 7 x00) by (rewrite lookup_drop; exact Hterm).
  rewrite stripNUL_terminated.
  etransitivity; [apply stripNUL_length|].
  rewrite length_string_of_bytes, length_take. lia.
Qed.

(** The events of a record are the non-zero event bytes, under their
    indices. *)
Lemma recordAt_events (bytes : list byte) (p : nat) (rec : AnimationDataRecord)
    (k : Z) (v : FrameEvent) :
  recordAt bytes p rec -> events rec !! k = Some v ->
  0 <= k < 144 /\ 1 <= v <= 255 /\
  bytes !! (p + 16 + Z.to_nat k)%nat = Some (byte_of_int v).
Proof.
  intros (_ & _ & _ & _ & Hev) Hk. rewrite Hev in Hk.
  destruct (decide (0 <= k < 144)) as [Hr|]; [|discriminate].
  split; [exact Hr|].
  destruct (bytes !! (p + 16 + Z.to_nat k)%nat) as [b|]; [|discriminate].
  simpl in Hk. unfold eventOfByte in Hk.
  destruct (Z.eqb_spec (int_of_byte b) EventNone) as [|Hne]; [discriminate|].
  inversion Hk; subst v. rewrite byte_of_int_of_byte.
  pose proof (int_of_byte_range b). unfold EventNone in Hne.
  split; [lia|reflexivity].
Qed.

Lemma recordsOf_elem (bs : list block) (rec : AnimationDataRecord) :
  rec ∈ recordsOf bs ->
  exists k b, bs !! k = Some b /\ rec ∈ blockRecords (Some b).
Proof.
  induction bs as [|b bs IH]; intros Hin.
  - apply elem_of_nil in Hin. contradiction.
  - rewrite recordsOf_cons in Hin. apply elem_of_app in Hin as [Hin|Hin].
    + exists 0%nat, b. split; [reflexivity|exact Hin].
    + destruct (IH Hin) as (k & b' & Hk & Hb). exists (S k), b'. auto.
Qed.

(** Every record of a store that was read lies somewhere in the file. *)
Lemma Load_record_at (data : list byte) (ad : AnimationData)
    (rec : AnimationDataRecord) :
  Load data = (Some ad, None) -> rec ∈ allRecords ad ->
  exists p, (p + recordSize <= length data)%nat /\ recordAt data p rec.
Proof.
  intros E Hin.
  apply Load_layout_of in E as (bs & _ & Hbs & Hall & Hlen & Hblocks & _).
  rewrite Hall in Hin. apply recordsOf_elem in Hin as (k & b & Hk & Hin).
  pose proof (Hblocks k b Hk) as (_ & _ & news & Hrs & Hn & Hrecs).
  cbn [blockRecords] in Hin. rewrite Hrs, omap_id_map_Some in Hin.
  apply list_elem_of_lookup in Hin as [j Hj].
  eexists. split; [|apply (Hrecs j rec Hj)].
  unfold recordSize, byteCountName, byteCountSpeedPadding, numEvents.
  assert (Hj' : (j < length news)%nat) by (eapply lookup_lt_Some; exact Hj).
  assert (Hsplit : recordsOf bs = recordsOf (take k bs) ++ news ++ recordsOf (drop (S k) bs)).
  { rewrite <- (take_drop_middle bs k b Hk) at 1.
    unfold recordsOf. rewrite map_app, flat_map_app. simpl.
    rewrite Hrs, omap_id_map_Some. reflexivity. }
  rewrite Hall, Hsplit, !length_app in Hlen.
  unfold recordSize, byteCountName, byteCountSpeedPadding, numEvents, numBlocks in Hlen.
  apply lookup_lt_Some in Hk. unfold numBlocks in Hbs.
  lia.
Qed.

End LoadedRecords.

(** X6. A file that [Load] accepts consists of 256 blocks and nothing else:
    each block is a four-byte count of at most 67 followed by that many
    records of 160 bytes, a block starts where the one before it ends, and
    the size of the file is 1024 bytes plus 160 bytes for every record of
    the store.  The store holds the 256 blocks, and every record is what
    its 160 bytes denote. *)
Theorem Load_file_layout `{IntegerReading} `{NameHash}
    (data : list byte) (ad : AnimationData) :
  Load data = (Some ad, None) ->
  exists bs : list block,
    blocks ad = map Some bs /\ length bs = numBlocks /\
    allRecords ad = recordsOf bs /\
    length data = (4 * numBlocks + recordSize * length (allRecords ad))%nat /\
    forall k b, bs !! k = Some b ->
      blockAt data (4 * k + recordSize * length (recordsOf (take k bs))) b.
Proof.
  intros E.
  apply Load_layout_of in E as (bs & Hbl & Hlen & Hall & Hsize & Hblocks & _).
  exists bs. auto.
Qed.

Lemma Load_file_layout_witness :
  Load twoRecordData = (Some (storeOf twoRecordData), None) /\
  length twoRecordData = (4 * 256 + 160 * 2)%nat /\
  exists bs : list block,
    blocks (storeOf twoRecordData) = map Some bs /\ length bs = numBlocks /\
    allRecords (storeOf twoRecordData) = recordsOf bs /\
    length twoRecordData
    = (4 * numBlocks + recordSize * length (allRecords (storeOf twoRecordData)))%nat /\
    forall k b, bs !! k = Some b ->
      blockAt twoRecordData (4 * k + recordSize * length (recordsOf (take k bs))) b.
Proof.
  assert (E : Load twoRecordData = (Some (storeOf twoRecordData), None))
    by (vm_compute; reflexivity).
  split; [exact E|]. split; [vm_compute; reflexivity|].
  exact (Load_file_layout twoRecordData _ E).
Defined.

(** X7. Every record of a store that [Load] returns has a name without
    zero byte and of at most seven characters, and events only at the
    frames 0 to 143, each of them a value from 1 to 255: the event none is
    never stored. *)
Theorem Load_record_fields `{IntegerReading} `{NameHash}
    (data : list byte) (ad : AnimationData) (rec : AnimationDataRecord) :
  Load data = (Some ad, None) -> rec ∈ allRecords ad ->
  noNUL (name rec) = true /\ (String.length (name rec) <= 7)%nat /\
  forall (k : Z) (v : FrameEvent),
    events rec !! k = Some v -> 0 <= k < 144 /\ EventNone < v <= 255.
Proof.
  intros E Hin. destruct (Load_record_at _ _ _ E Hin) as (p & _ & Hrec).
  destruct (recordAt_name _ _ _ Hrec) as [Hn Hl].
  split; [exact Hn|]. split; [exact Hl|].
  intros k v Hk. destruct (recordAt_events _ _ _ _ _ Hrec Hk) as (Hr & Hv & _).
  unfold EventNone. split; [exact Hr|lia].
Qed.

Lemma Load_record_fields_witness :
  Load twoRecordData = (Some (storeOf twoRecordData), None) /\
  recordA ∈ allRecords (storeOf twoRecordData) /\
  noNUL (name recordA) = true /\ (String.length (name recordA) <= 7)%nat /\
  forall (k : Z) (v : FrameEvent),
    events recordA !! k = Some v -> 0 <= k < 144 /\ EventNone < v <= 255.
Proof.
  assert (E : Load twoRecordData = (Some (storeOf twoRecordData), None))
    by (vm_compute; reflexivity).
  assert (Hin : recordA ∈ allRecords (storeOf twoRecordData))
    by (apply (list_elem_of_lookup_2 _ 0%nat); vm_compute; reflexivity).
  split; [exact E|]. split; [exact Hin|].
  exact (Load_record_fields twoRecordData _ recordA E Hin).
Defined.

(** X8. After a successful [Load], [GetRecordNames] lists every name that
    was read exactly once and no other name, and the listed names are those
    for which [GetRecord] returns a record. *)
Theorem GetRecordNames_of_Load `{IntegerReading} `{NameHash}
    (data : list byte) (ad : AnimationData) :
  Load data = (Some ad, None) ->
  NoDup (GetRecordNames ad) /\
  forall nm : string,
    (nm ∈ GetRecordNames ad <-> exists rec, rec ∈ allRecords ad /\ name rec = nm) /\
    (nm ∈ GetRecordNames ad <-> is_Some (GetRecord ad nm)).
Proof.
  intros E. unfold GetRecordNames.
  split; [apply NoDup_fst_map_to_list|].
  assert (Hkeys : forall nm, nm ∈ (map_to_list (entries ad)).*1
                             <-> is_Some (entries ad !! nm)).
  { intros nm. rewrite list_elem_of_fmap. split.
    - intros ([k x] & -> & Hin). apply elem_of_map_to_list in Hin.
      simpl. eauto.
    - intros [x Hx]. exists (nm, x). split; [reflexivity|].
      apply elem_of_map_to_list. exact Hx. }
  assert (Hnames : forall nm, nm ∈ map name (allRecords ad)
                              <-> exists rec, rec ∈ allRecords ad /\ name rec = nm).
  { intros nm. change (map name (allRecords ad)) with (name <$> allRecords ad).
    rewrite list_elem_of_fmap. split; intros (rec & H1 & H2); eauto. }
  pose proof (Load_store _ _ E) as (_ & Hg & _).
  apply Load_layout_of in E as (_ & _ & _ & _ & _ & _ & Hdom).
  intros nm. rewrite Hkeys, Hdom, Hnames. split; [reflexivity|].
  rewrite GetRecord_last, Hg. unfold named. split.
  - intros (rec & Hin & Hname).
    assert (Hf : rec ∈ filter (fun r => name r = nm) (allRecords ad))
      by (apply list_elem_of_filter; auto).
    destruct (filter _ _) as [|x l] eqn:Ef using rev_ind.
    + apply elem_of_nil in Hf. contradiction.
    + rewrite last_snoc. eauto.
  - intros [rec Hlast]. apply last_Some in Hlast as [l Hl].
    assert (Hf : rec ∈ filter (fun r => name r = nm) (allRecords ad))
      by (rewrite Hl; apply elem_of_app; right; apply list_elem_of_singleton;
          reflexivity).
    apply list_elem_of_filter in Hf as [Hname Hin]. eauto.
Qed.

Lemma GetRecordNames_of_Load_witness :
  Load overrideData = (Some (storeOf overrideData), None) /\
  NoDup (GetRecordNames (storeOf overrideData)) /\
  ("A"%string ∈ GetRecordNames (storeOf overrideData)) /\
  ("C"%string ∉ GetRecordNames (storeOf overrideData)).
Proof.
  assert (E : Load overrideData = (Some (storeOf overrideData), None))
    by (vm_compute; reflexivity).
  destruct (GetRecordNames_of_Load overrideData _ E) as [Hnodup Hnames].
  split; [exact E|]. split; [exact Hnodup|]. split.
  - apply (proj2 (Hnames "A"%string)). vm_compute. eauto.
  - intros Hin. apply (proj2 (Hnames "C"%string)) in Hin.
    destruct Hin as [rec Hrec]. vm_compute in Hrec. discriminate Hrec.
Defined.

(** X9. After a successful [Load], the hash table has kept its size, its
    slot 0 holds the hash of the name of the last record of the file (zero
    for a file without records), and every other slot holds zero. *)
Theorem Load_hash_table `{IntegerReading} `{NameHash}
    (data : list byte) (ad : AnimationData) :
  Load data = (Some ad, None) ->
  length (hashTable ad) = hashTableSize /\
  (forall i, (1 <= i < hashTableSize)%nat -> hashTable ad !! i = Some 0) /\
  hashTable ad !! 0%nat
  = Some (match last (allRecords ad) with
          | Some rec => hashName (name rec)
          | None => 0
          end).
Proof.
  intros E. apply Load_store in E as (_ & _ & Hlen & Hothers & Hzero). auto.
Qed.

Lemma Load_hash_table_witness :
  Load overrideData = (Some (storeOf overrideData), None) /\
  hashTable (storeOf overrideData) !! 0%nat = Some (hashName "A") /\
  hashTable (storeOf overrideData) !! 1%nat = Some 0 /\
  hashTable (storeOf overrideData) !! 2%nat = Some 0.
Proof.
  assert (E : Load overrideData = (Some (storeOf overrideData), None))
    by (vm_compute; reflexivity).
  destruct (Load_hash_table overrideData _ E) as (_ & Hothers & Hzero).
  split; [exact E|]. split.
  - rewrite Hzero. vm_compute. reflexivity.
  - split; apply Hothers;
      (split; [lia | apply Nat.ltb_lt; vm_compute; reflexivity]).
Defined.

(** ** The errors of [Load] *)

Section LoadSafety.
Context `{IntegerReading} `{NameHash}.

(** One iteration of the record loop fails only on a short read or a name
    field without terminator, when its two indices are in range. *)
Lemma loadRecord_fails (recordIdx hashIdx : nat) (r : Reader)
    (ad : AnimationData) (rs : list (option AnimationDataRecord)) (e : error) :
  (recordIdx < length rs)%nat -> (hashIdx < length (hashTable ad))%nat ->
  loadRecord recordIdx hashIdx (r, ad, rs) = Err e ->
  e = ErrOutOfData \/ e = ErrMissingTerminator.
Proof.
  unfold loadRecord. intros Hri Hh E.
  case_in E; [|inversion E; subst; apply Next_Err in Ecase; auto].
  apply Next_Ok in Ecase as (_ & _ & _ & _ & Hlen).
  unfold index in E.
  destruct (lookup_lt_is_Some_2 s (byteCountName - 1)) as [t Ht];
    [rewrite Hlen; unfold byteCountName; lia|].
  rewrite Ht in E.
  destruct (negb _); [inversion E; auto|].
  rewrite set_index_lt in E by exact Hh.
  case_in E; [|inversion E; subst; apply Next_Err in Ecase; auto].
  case_in E; [|inversion E; subst; apply Next_Err in Ecase0; auto].
  case_in E; [|inversion E; subst; apply Next_Err in Ecase1; auto].
  case_in E; [|inversion E; subst; apply loadEvents_Err in Ecase2; auto].
  rewrite set_index_lt in E by exact Hri. discriminate E.
Qed.

Lemma loadRecords_fails (hashIdx : nat) (n : nat) :
  forall (recordIdx : nat) (r : Reader) (ad : AnimationData)
         (rs : list (option AnimationDataRecord)) (e : error),
  (recordIdx + n <= length rs)%nat -> (hashIdx < length (hashTable ad))%nat ->
  loadRecords n recordIdx hashIdx (r, ad, rs) = Err e ->
  e = ErrOutOfData \/ e = ErrMissingTerminator.
Proof.
  induction n as [|n IH]; simpl; intros recordIdx r ad rs e Hri Hh E; [discriminate|].
  destruct (loadRecord recordIdx hashIdx (r, ad, rs)) as [[[r1 ad1] rs1]|e1] eqn:E1.
  - apply loadRecord_Ok in E1 as (rec & _ & -> & _ & _ & Ht & _).
    eapply IH; [| |exact E].
    + rewrite length_insert. lia.
    + rewrite Ht, length_insert. exact Hh.
  - inversion E; subst e1. eapply loadRecord_fails; [| |exact E1]; [lia|exact Hh].
Qed.

Lemma loadBlock_fails (blockIdx hashIdx : nat) (r : Reader) (ad : AnimationData)
    (e : error) :
  (blockIdx < length (blocks ad))%nat -> (hashIdx < length (hashTable ad))%nat ->
  loadBlock blockIdx hashIdx (r, ad) = Err e ->
  e = ErrOutOfData \/ e = ErrTooManyRecords \/ e = ErrMissingTerminator.
Proof.
  unfold loadBlock. intros Hbi Hh E.
  case_in E; [|inversion E; subst; apply Next_Err in Ecase; auto].
  destruct (_ <? _); [inversion E; auto|].
  destruct (loadRecords _ _ _ _) as [[[r2 ad2] rs2]|e2] eqn:ER.
  - apply loadRecords_Ok in ER as (_ & _ & _ & Hbl & _).
    rewrite set_index_lt in E by (rewrite Hbl; exact Hbi). discriminate E.
  - inversion E; subst e2.
    apply loadRecords_fails in ER as [->| ->]; auto.
    rewrite length_replicate. lia.
Qed.

Lemma loadBlocks_fails (hashIdx : nat) (n : nat) :
  forall (blockIdx : nat) (r : Reader) (ad : AnimationData) (e : error),
  (blockIdx + n <= length (blocks ad))%nat ->
  (hashIdx < length (hashTable ad))%nat ->
  loadBlocks n blockIdx hashIdx (r, ad) = Err e ->
  e = ErrOutOfData \/ e = ErrTooManyRecords \/ e = ErrMissingTerminator.
Proof.
  induction n as [|n IH]; simpl; intros blockIdx r ad e Hbi Hh E; [discriminate|].
  destruct (loadBlock blockIdx hashIdx (r, ad)) as [[r1 ad1]|e1] eqn:E1.
  - apply loadBlock_Ok in E1 as (b & _ & _ & Hbl & Hl & _).
    eapply IH; [| |exact E].
    + rewrite Hbl, length_insert. lia.
    + rewrite Hl. exact Hh.
  - inversion E; subst e1. eapply loadBlock_fails; [| |exact E1]; [lia|exact Hh].
Qed.

(** ** Shorter and longer buffers *)

(** A failure other than a short read is the same on every longer buffer. *)
Lemma loadRecord_extend_Err (extra : list byte) (recordIdx hashIdx : nat)
    (r : Reader) (ad : AnimationData) (rs : list (option AnimationDataRecord))
    (e : error) :
  loadRecord recordIdx hashIdx (r, ad, rs) = Err e -> e <> ErrOutOfData ->
  loadRecord recordIdx hashIdx (extend extra r, ad, rs) = Err e.
Proof.
  unfold loadRecord. intros E Hne.
  case_in E; [|inversion E; subst; apply Next_Err in Ecase; contradiction].
  rewrite (Next_extend extra _ _ _ _ Ecase).
  destruct (index s _) as [t|e0]; [|exact E].
  destruct (negb _); [exact E|].
  destruct (set_index (hashTable ad) _ _) as [table|e0]; [|exact E].
  case_in E; [|inversion E; subst; apply Next_Err in Ecase0; contradiction].
  rewrite (Next_extend extra _ _ _ _ Ecase0).
  case_in E; [|inversion E; subst; apply Next_Err in Ecase1; contradiction].
  rewrite (Next_extend extra _ _ _ _ Ecase1).
  case_in E; [|inversion E; subst; apply Next_Err in Ecase2; contradiction].
  rewrite (Next_extend extra _ _ _ _ Ecase2).
  case_in E; [|inversion E; subst; apply loadEvents_Err in Ecase3; contradiction].
  rewrite (loadEvents_extend extra _ _ _ _ _ _ Ecase3).
  destruct (set_index rs _ _) as [rs'|e0]; [discriminate E|exact E].
Qed.

Lemma loadRecords_extend_Err (extra : list byte) (hashIdx : nat) (n : nat) :
  forall (recordIdx : nat) (r : Reader) (ad : AnimationData)
         (rs : list (option AnimationDataRecord)) (e : error),
  loadRecords n recordIdx hashIdx (r, ad, rs) = Err e -> e <> ErrOutOfData ->
  loadRecords n recordIdx hashIdx (extend extra r, ad, rs) = Err e.
Proof.
  induction n as [|n IH]; simpl; intros recordIdx r ad rs e E Hne; [discriminate|].
  destruct (loadRecord recordIdx hashIdx (r, ad, rs)) as [[[r1 ad1] rs1]|e1] eqn:E1.
  - rewrite (loadRecord_extend extra _ _ _ _ _ _ _ _ E1). apply IH; assumption.
  - inversion E; subst e1.
    rewrite (loadRecord_extend_Err extra _ _ _ _ _ _ E1 Hne). reflexivity.
Qed.

Lemma loadBlock_extend_Err (extra : list byte) (blockIdx hashIdx : nat)
    (r : Reader) (ad : AnimationData) (e : error) :
  loadBlock blockIdx hashIdx (r, ad) = Err e -> e <> ErrOutOfData ->
  loadBlock blockIdx hashIdx (extend extra r, ad) = Err e.
Proof.
  unfold loadBlock. intros E Hne.
  case_in E; [|inversion E; subst; apply Next_Err in Ecase; contradiction].
  rewrite (Next_extend extra _ _ _ _ Ecase).
  destruct (_ <? _); [exact E|].
  destruct (loadRecords _ _ _ (s0, ad, _)) as [[[r2 ad2] rs2]|e2] eqn:ER.
  - rewrite (loadRecords_extend extra _ _ _ _ _ _ _ _ _ ER).
    destruct (set_index _ _ _); [discriminate E|exact E].
  - inversion E; subst e2.
    rewrite (loadRecords_extend_Err extra _ _ _ _ _ _ _ ER Hne). reflexivity.
Qed.

Lemma loadBlocks_extend_Err (extra : list byte) (hashIdx : nat) (n : nat) :
  forall (blockIdx : nat) (r : Reader) (ad : AnimationData) (e : error),
  loadBlocks n blockIdx hashIdx (r, ad) = Err e -> e <> ErrOutOfData ->
  loadBlocks n blockIdx hashIdx (extend extra r, ad) = Err e.
Proof.
  induction n as [|n IH]; simpl; intros blockIdx r ad e E Hne; [discriminate|].
  destruct (loadBlock blockIdx hashIdx (r, ad)) as [[r1 ad1]|e1] eqn:E1.
  - rewrite (loadBlock_extend extra _ _ _ _ _ _ E1). apply IH; assumption.
  - inversion E; subst e1.
    rewrite (loadBlock_extend_Err extra _ _ _ _ _ E1 Hne). reflexivity.
Qed.

Lemma extend_FromBytes (data extra : list byte) :
  extend extra (FromBytes data) = FromBytes (data ++ extra).
Proof. reflexivity. Qed.

End LoadSafety.

(** X10. [Load] fails in four ways only: a short read, a block that
    declares too many records, a name field without terminator, or bytes
    left over after the last block.  No index of the decoder is ever out of
    range, whatever the bytes are. *)
Theorem Load_errors `{IntegerReading} `{NameHash} (data : list byte) (e : error) :
  snd (Load data) = Some e ->
  e = ErrOutOfData \/ e = ErrTooManyRecords \/ e = ErrMissingTerminator
  \/ e = ErrUnableToParse.
Proof.
  unfold Load.
  destruct (loadBlocks _ _ _ _) as [[r ad]|e1] eqn:E; simpl.
  - destruct (negb _); simpl; intros He; inversion He; auto.
  - intros He; inversion He; subst e1.
    assert (Hb : (0 + numBlocks <= length (blocks newAnimationData))%nat).
    { change (blocks newAnimationData) with (replicate numBlocks (@None block)).
      rewrite length_replicate. lia. }
    assert (Hh : (0 < length (hashTable newAnimationData))%nat).
    { change (hashTable newAnimationData) with (replicate hashTableSize 0).
      rewrite length_replicate. apply hashTableSize_pos. }
    destruct (loadBlocks_fails _ _ _ _ _ _ Hb Hh E) as [->|[->| ->]]; auto.
Qed.

Lemma Load_errors_witness :
  snd (Load oversizedData) = Some ErrTooManyRecords /\
  (ErrTooManyRecords = ErrOutOfData \/ ErrTooManyRecords = ErrTooManyRecords
   \/ ErrTooManyRecords = ErrMissingTerminator
   \/ ErrTooManyRecords = ErrUnableToParse).
Proof.
  assert (E : snd (Load oversizedData) = Some ErrTooManyRecords)
    by (vm_compute; reflexivity).
  split; [exact E|]. exact (Load_errors oversizedData _ E).
Defined.

(** X11. A file that [Load] accepts is not accepted when it is cut short:
    every proper prefix of it is refused with the error of a short read. *)
Theorem Load_truncated `{IntegerReading} `{NameHash}
    (data : list byte) (ad : AnimationData) (n : nat) :
  Load data = (Some ad, None) -> (n < length data)%nat ->
  Load (take n data) = (None, Some ErrOutOfData).
Proof.
  intros E Hn. apply Load_Some in E as (reader & E & Hpos).
  rewrite <- (take_drop n data) in E at 1. rewrite <- extend_FromBytes in E.
  unfold Load.
  destruct (loadBlocks numBlocks 0 0 (FromBytes (take n data), newAnimationData))
    as [[r1 ad1]|e1] eqn:E1.
  - pose proof (loadBlocks_layout _ _ _ _ _ _ _ E1) as (Hb & Hle & _).
    rewrite (loadBlocks_extend (drop n data) _ _ _ _ _ _ _ E1) in E.
    inversion E; subst reader ad1. simpl in Hpos, Hle, Hb.
    specialize (Hle ltac:(lia)). rewrite length_take in Hle. lia.
  - assert (Hdec : e1 = ErrOutOfData \/ e1 <> ErrOutOfData)
      by (destruct e1; auto; right; discriminate).
    destruct Hdec as [->|Hne]; [reflexivity|].
    rewrite (loadBlocks_extend_Err (drop n data) _ _ _ _ _ _ E1 Hne) in E.
    discriminate E.
Qed.

Lemma Load_truncated_witness :
  Load twoRecordData = (Some (storeOf twoRecordData), None) /\
  (100 < length twoRecordData)%nat /\
  Load (take 100 twoRecordData) = (None, Some ErrOutOfData).
Proof.
  assert (E : Load twoRecordData = (Some (storeOf twoRecordData), None))
    by (vm_compute; reflexivity).
  assert (Hn : (100 < length twoRecordData)%nat)
    by (apply Nat.ltb_lt; vm_compute; reflexivity).
  split; [exact E|]. split; [exact Hn|].
  exact (Load_truncated twoRecordData _ 100 E Hn).
Defined.

(** X12. When [Load] refuses a buffer with an error other than that of a
    short read, it refuses every buffer that starts with it with the same
    error: bytes appended to it are never looked at. *)
Theorem Load_error_stable `{IntegerReading} `{NameHash}
    (data extra : list byte) (e : error) :
  snd (Load data) = Some e -> e <> ErrOutOfData ->
  Load (data ++ extra) = (None, Some e).
Proof.
  unfold Load. rewrite <- (extend_FromBytes data extra).
  destruct (loadBlocks numBlocks 0 0 (FromBytes data, newAnimationData))
    as [[r ad]|e1] eqn:E.
  - pose proof (loadBlocks_layout _ _ _ _ _ _ _ E) as (_ & Hle & _).
    simpl in Hle. specialize (Hle ltac:(lia)).
    rewrite (loadBlocks_extend extra _ _ _ _ _ _ _ E).
    destruct (Nat.eqb_spec (Position r) (length data)) as [Heq|Hne]; simpl;
      intros He Hnot; inversion He; subst e.
    destruct (Nat.eqb_spec (Position r) (length (data ++ extra))) as [Heq|_];
      [|reflexivity].
    rewrite length_app in Heq. assert (length extra = 0%nat) by lia.
    lia.
  - cbn [snd]. intros He Hnot. inversion He; subst e1.
    rewrite (loadBlocks_extend_Err extra _ _ _ _ _ _ E Hnot). reflexivity.
Qed.

Lemma Load_error_stable_witness :
  snd (Load oversizedData) = Some ErrTooManyRecords /\
  ErrTooManyRecords <> ErrOutOfData /\
  Load (oversizedData ++ [x01; x02]) = (None, Some ErrTooManyRecords).
Proof.
  assert (E : snd (Load oversizedData) = Some ErrTooManyRecords)
    by (vm_compute; reflexivity).
  assert (Hne : ErrTooManyRecords <> ErrOutOfData) by discriminate.
  split; [exact E|]. split; [exact Hne|].
  exact (Load_error_stable oversizedData [x01; x02] _ E Hne).
Defined.

(** * Decoding what [Marshal] wrote *)

Lemma isByte_range (x : Z) : isByte x = true <-> 0 <= x < 256.
Proof. unfold isByte. rewrite andb_true_iff, Z.leb_le, Z.ltb_lt. reflexivity. Qed.

Lemma int_of_byte_of_int_small (x : Z) :
  isByte x = true -> int_of_byte (byte_of_int x) = x.
Proof.
  intros Hx. apply isByte_range in Hx. rewrite int_of_byte_of_int.
  apply Z.mod_small. exact Hx.
Qed.

Lemma map_int_of_byte_of_int (l : list Z) :
  Forall (fun x => isByte x = true) l -> map int_of_byte (map byte_of_int l) = l.
Proof.
  induction 1 as [|x l Hx _ IH]; simpl; [reflexivity|].
  rewrite int_of_byte_of_int_small by exact Hx. f_equal. exact IH.
Qed.

Lemma length_concat_sized {A : Type} (size : nat) (ps : list (list A)) :
  Forall (fun p => length p = size) ps ->
  length (concat ps) = (length ps * size)%nat.
Proof.
  induction 1 as [|p ps Hp _ IH]; simpl; [reflexivity|].
  rewrite length_app, IH, Hp. reflexivity.
Qed.

(** Cutting the concatenation of pieces of one size gives the pieces. *)
Lemma chunks_concat {A : Type} (size : nat) (ps : list (list A)) (rest : list A) :
  Forall (fun p => length p = size) ps ->
  chunks (length ps) size (concat ps ++ rest) = ps.
Proof.
  induction 1 as [|p ps Hp _ IH]; [reflexivity|].
  simpl. rewrite <- app_assoc.
  rewrite take_app_length' by (symmetry; exact Hp).
  rewrite drop_app_length' by (symmetry; exact Hp).
  rewrite IH. reflexivity.
Qed.

(** A row of the matrix is read back from its bytes. *)
Lemma row_read_back (framesPerDir numLayers : nat) (row : list (list Z)) :
  length row = framesPerDir ->
  Forall (fun cell => length cell = numLayers) row ->
  Forall (Forall (fun x => isByte x = true)) row ->
  length (concat (map (map byte_of_int) row)) = (framesPerDir * numLayers)%nat /\
  map (map int_of_byte)
    (chunks framesPerDir numLayers (concat (map (map byte_of_int) row))) = row.
Proof.
  intros Hlen Hcells Hbytes.
  assert (Hsized : Forall (fun p => length p = numLayers) (map (map byte_of_int) row)).
  { clear Hlen Hbytes. induction Hcells as [|cell row Hc _ IH]; simpl; constructor.
    - rewrite length_map. exact Hc.
    - exact IH. }
  split.
  - rewrite (length_concat_sized numLayers) by exact Hsized.
    rewrite length_map, Hlen. reflexivity.
  - rewrite <- (app_nil_r (concat _)).
    rewrite <- Hlen, <- (length_map (map byte_of_int) row).
    rewrite chunks_concat by exact Hsized.
    clear Hlen Hcells Hsized.
    induction Hbytes as [|cell row Hc _ IH]; simpl; [reflexivity|].
    rewrite map_int_of_byte_of_int by exact Hc. f_equal. exact IH.
Qed.

(** A matrix is read back from its bytes. *)
Lemma priorityOf_flattenPriority (framesPerDir numLayers : nat)
    (p : list (list (list Z))) :
  wellShaped framesPerDir numLayers p ->
  Forall (Forall (Forall (fun x => isByte x = true))) p ->
  length (flattenPriority p) = (length p * (framesPerDir * numLayers))%nat /\
  priorityOf (length p) framesPerDir numLayers (flattenPriority p) = p.
Proof.
  unfold wellShaped. intros Hshape.
  induction Hshape as [|row p [Hlen Hcells] _ IH]; intros Hbytes.
  - split; reflexivity.
  - apply Forall_cons in Hbytes as [Hrow Hrest].
    destruct (row_read_back framesPerDir numLayers row Hlen Hcells Hrow) as [Hl Hr].
    destruct (IH Hrest) as [IHl IHp].
    unfold flattenPriority, priorityOf in *. simpl map. simpl concat. split.
    + rewrite length_app, Hl, IHl. simpl. lia.
    + simpl length. simpl chunks.
      rewrite take_app_length' by (symmetry; exact Hl).
      rewrite drop_app_length' by (symmetry; exact Hl).
      simpl map. rewrite Hr, IHp. reflexivity.
Qed.

Section EncodeDecode.
Context `{WeaponClasses}.

(** The nine bytes written for a layer denote the layer. *)
Lemma encodableLayer_read_back (layer : CofLayer) :
  encodableLayer layer ->
  length (writeLayer [] layer) = numLayerBytes /\
  layerOfBytes (writeLayer [] layer) = Ok layer.
Proof.
  intros (Ht & Hd & Hw & a1 & a2 & a3 & Hcode & Hok).
  repeat match goal with
         | Hx : _ && _ = true |- _ => apply andb_prop in Hx as [Hx ?]
         end.
  repeat match goal with
         | Hx : negb _ = true |- _ => apply negb_true_iff in Hx
         end.
  assert (Hstr : WeaponClass_String (WeaponClass_ layer)
                 = String (ascii_of_byte a1)
                     (String (ascii_of_byte a2)
                        (String (ascii_of_byte a3) EmptyString))).
  { rewrite <- (string_of_list_byte_of_string (WeaponClass_String (WeaponClass_ layer))).
    unfold bytes_of_string in Hcode. rewrite Hcode. reflexivity. }
  rewrite writeLayer_eq, Hcode. unfold layerAttributes.
  split; [reflexivity|].
  unfold layerOfBytes, index, slice, rbind. simpl.
  rewrite !int_of_byte_of_int_small by assumption.
  unfold string_of_bytes, string_of_list_byte.
  simpl map. simpl string_of_list_ascii. simpl stripNUL.
  rewrite !isCodeByte_not_NUL by assumption.
  rewrite TrimSpace_code by assumption.
  rewrite <- Hstr, Hw.
  destruct layer as [ty sh se tr de wc]. simpl.
  destruct se, tr; reflexivity.
Qed.

Lemma layers_read_back (ls : list CofLayer) :
  Forall encodableLayer ls ->
  Forall (fun p => length p = numLayerBytes) (map (writeLayer []) ls) /\
  forall ls', Forall2 (fun chunk l => layerOfBytes chunk = Ok l)
                (map (writeLayer []) ls) ls' -> ls' = ls.
Proof.
  induction 1 as [|l ls Hl _ [IH1 IH2]]; simpl.
  - split; [constructor|]. intros ls' Hall. inversion Hall. reflexivity.
  - destruct (encodableLayer_read_back l Hl) as [Hlen Hread].
    split; [constructor; assumption|].
    intros ls' Hall. inversion Hall as [|? l' ? ls'' Hhead Htail]; subst.
    rewrite Hread in Hhead. inversion Hhead; subst l'.
    f_equal. apply IH2. exact Htail.
Qed.

End EncodeDecode.

Section DecodeEncoded.
Context `{WeaponClasses}.

(** X13. Decoding is the inverse of encoding on the documents that an
    encoding denotes: when the counts of a document are the sizes of its
    layers, frame events and priority matrix, every number of it fits a
    byte, the reserved fields have 21 and 3 bytes, the layer index is that
    of the layers, the matrix has a cell for every frame and an entry for
    every layer, and the weapon classes have three-character codes that the
    table maps back to them, then [Marshal] succeeds, writes 28 bytes, 9
    bytes a layer, one byte a frame and one byte a priority, and
    [Unmarshal] of these bytes returns the document, without error. *)
Theorem Unmarshal_Marshal_encodable (c : COF) :
  encodable c ->
  exists data,
    Marshal c = Ok data /\
    length data = documentSize (length (CofLayers c)) (length (AnimationFrames c))
                    (length (Priority c)) /\
    Unmarshal data = (Some c, None).
Proof.
  intros (Huh & Hub & Hsp & HL & HLb & HF & HFb & HD & HDb & Hlayers & Hidx
          & Hframes & Hshape & Hprio).
  destruct (layers_read_back _ Hlayers) as [Hsized Hread].
  destruct (priorityOf_flattenPriority _ _ _ Hshape Hprio) as [Hplen Hpread].
  set (L := length (CofLayers c)) in *.
  set (F := length (AnimationFrames c)) in *.
  set (D := length (Priority c)) in *.
  set (LB := concat (map (writeLayer []) (CofLayers c))).
  set (FB := map byte_of_int (AnimationFrames c)).
  set (PB := flattenPriority (Priority c)) in *.
  assert (HLB : length LB = (L * numLayerBytes)%nat).
  { unfold LB. rewrite (length_concat_sized numLayerBytes) by exact Hsized.
    rewrite length_map. reflexivity. }
  assert (HFB : length FB = F) by (unfold FB; apply length_map).
  unfold Marshal. rewrite COF_Marshal_eq.
  rewrite HL, HF, HD, !Nat2Z.id. fold L F D.
  rewrite (writePriority_directions_Ok _ F L D 0) by (auto; lia).
  rewrite drop_0, (take_ge (Priority c)) by (fold D; lia).
  fold LB FB PB.
  set (bL := byte_of_int (Z.of_nat L)).
  set (bF := byte_of_int (Z.of_nat F)).
  set (bD := byte_of_int (Z.of_nat D)).
  set (bS := byte_of_int (Speed c)).
  set (uh := unknownHeaderBytes c) in *.
  set (ub := unknownBodyBytes c) in *.
  eexists. split; [reflexivity|].
  match goal with |- length ?d = _ /\ _ => set (data := d) end.
  assert (D3 : drop 3 data = uh ++ [bS] ++ ub ++ LB ++ FB ++ PB).
  { unfold data. rewrite <- !app_assoc. reflexivity. }
  assert (D24 : drop 24 data = [bS] ++ ub ++ LB ++ FB ++ PB).
  { change 24%nat with (3 + 21)%nat. rewrite <- drop_drop, D3.
    apply drop_app_length'. exact (eq_sym Huh). }
  assert (D25 : drop 25 data = ub ++ LB ++ FB ++ PB).
  { change 25%nat with (24 + 1)%nat. rewrite <- drop_drop, D24. reflexivity. }
  assert (D28 : drop 28 data = LB ++ FB ++ PB).
  { change 28%nat with (25 + 3)%nat. rewrite <- drop_drop, D25.
    apply drop_app_length'. exact (eq_sym Hub). }
  assert (DF : drop (28 + L * numLayerBytes) data = FB ++ PB).
  { rewrite <- drop_drop, D28. apply drop_app_length'. exact (eq_sym HLB). }
  assert (DP : drop (28 + L * numLayerBytes + F) data = PB).
  { rewrite <- drop_drop, DF. apply drop_app_length'. exact (eq_sym HFB). }
  assert (Hlen : length data = documentSize L F D).
  { unfold data. rewrite !length_app, HLB, HFB, Hplen. fold uh ub.
    rewrite Huh, Hub. simpl length.
    unfold documentSize, priorityOffset, framesOffset, layersOffset,
      numHeaderBytes, numUnknownHeaderBytes, numUnknownBodyBytes. lia. }
  split; [exact Hlen|].
  assert (HbL : int_of_byte bL = Z.of_nat L)
    by (apply int_of_byte_of_int_small; rewrite <- HL; exact HLb).
  assert (HbF : int_of_byte bF = Z.of_nat F)
    by (apply int_of_byte_of_int_small; rewrite <- HF; exact HFb).
  assert (HbD : int_of_byte bD = Z.of_nat D)
    by (apply int_of_byte_of_int_small; rewrite <- HD; exact HDb).
  assert (H0 : data !! 0%nat = Some bL) by reflexivity.
  assert (H1 : data !! 1%nat = Some bF) by reflexivity.
  assert (H2 : data !! 2%nat = Some bD) by reflexivity.
  assert (H24 : data !! 24%nat = Some bS).
  { rewrite <- (Nat.add_0_r 24), <- lookup_drop, D24. reflexivity. }
  unfold Unmarshal.
  destruct (COF_Unmarshal data New) as [c' [e|]] eqn:E.
  - exfalso. apply COF_Unmarshal_Some in E as [_ Hshort].
    unfold declaredSize in Hshort. rewrite H0, H1, H2 in Hshort.
    rewrite HbL, HbF, HbD, !Nat2Z.id in Hshort. lia.
  - f_equal. f_equal.
    apply COF_Unmarshal_Ok in E
      as (b0 & b1 & b2 & sp & ls & E0 & E1 & E2 & E24 & _ & Hall & ->).
    rewrite H0 in E0. rewrite H1 in E1. rewrite H2 in E2. rewrite H24 in E24.
    injection E0 as <-. injection E1 as <-. injection E2 as <-. injection E24 as <-.
    rewrite HbL, HbF, HbD, !Nat2Z.id in *.
    unfold priorityOffset, framesOffset, layersOffset in *.
    change (numHeaderBytes + numUnknownBodyBytes)%nat with 28%nat in *.
    assert (Hch : chunks L numLayerBytes (LB ++ FB ++ PB)
                  = map (writeLayer []) (CofLayers c)).
    { unfold L, LB. rewrite <- (length_map (writeLayer []) (CofLayers c)).
      apply chunks_concat. exact Hsized. }
    rewrite D28, Hch in Hall.
    apply Hread in Hall. subst ls.
    rewrite D3, D25, DF, DP.
    rewrite (take_app_length' uh) by exact (eq_sym Huh).
    rewrite (take_app_length' ub) by exact (eq_sym Hub).
    rewrite (take_app_length' FB) by exact (eq_sym HFB).
    unfold FB. rewrite map_int_of_byte_of_int by exact Hframes.
    fold D. rewrite Hpread.
    apply COF_ext; cof_fields; try reflexivity.
    + symmetry. exact HD.
    + symmetry. exact HF.
    + symmetry. exact HL.
    + apply int_of_byte_of_int_small. exact Hsp.
    + symmetry. exact Hidx.
Qed.

End DecodeEncoded.

Lemma Unmarshal_Marshal_encodable_witness :
  encodable encodableDocument /\
  exists data,
    Marshal encodableDocument = Ok data /\
    length data = documentSize 1 2 1 /\
    Unmarshal data = (Some encodableDocument, None).
Proof.
  assert (Henc : encodable encodableDocument).
  { unfold encodable, encodableDocument. cof_fields.
    split; [reflexivity|]. split; [reflexivity|]. split; [reflexivity|].
    split; [reflexivity|]. split; [reflexivity|]. split; [reflexivity|].
    split; [reflexivity|]. split; [reflexivity|]. split; [reflexivity|].
    split.
    { constructor; [|constructor]. unfold encodableLayer, hthLayer.
      cbn [Type_ DrawEffect WeaponClass_].
      split; [reflexivity|]. split; [reflexivity|]. split; [reflexivity|].
      exists "h"%byte, "t"%byte, "h"%byte. split; reflexivity. }
    split; [reflexivity|].
    split; [repeat constructor|].
    split; [repeat constructor|].
    repeat constructor. }
  split; [exact Henc|].
  exact (Unmarshal_Marshal_encodable encodableDocument Henc).
Defined.

(** ** The files that [Load] accepts *)

Lemma blocksLaidOut_within `{IntegerReading} (data : list byte) (n : nat) :
  forall off, blocksLaidOut data n off = true -> (off <= length data)%nat.
Proof.
  induction n as [|n IH]; intros off Hl; cbn [blocksLaidOut] in Hl.
  - apply Nat.eqb_eq in Hl. lia.
  - apply andb_prop in Hl as [_ Hl]. apply IH in Hl. lia.
Qed.

Section LoadAccepts.
Context `{IntegerReading} `{NameHash}.

Lemma loadEvents_runs (n : nat) :
  forall (eventIdx : Z) (r : Reader) (ev : gmap Z Z),
  (Position r + n <= length (buffer r))%nat ->
  exists r' ev', loadEvents n eventIdx r ev = Ok (r', ev').
Proof.
  induction n as [|n IH]; simpl; intros eventIdx r ev Hle; [eauto|].
  rewrite Next_enough by lia. apply IH. simpl. lia.
Qed.

(** One iteration of the record loop succeeds when the 160 bytes of the
    record are there and its name field is terminated. *)
Lemma loadRecord_runs (recordIdx hashIdx : nat) (r : Reader) (ad : AnimationData)
    (rs : list (option AnimationDataRecord)) :
  terminatedAt (buffer r) (Position r) = true ->
  (Position r + recordSize <= length (buffer r))%nat ->
  (recordIdx < length rs)%nat -> (hashIdx < length (hashTable ad))%nat ->
  exists st, loadRecord recordIdx hashIdx (r, ad, rs) = Ok st.
Proof.
  unfold terminatedAt, recordSize, byteCountName, byteCountSpeedPadding, numEvents.
  intros Hterm Hle Hri Hh.
  destruct (buffer r !! (Position r + 7)%nat) as [t|] eqn:Ht; [|discriminate].
  unfold loadRecord, byteCountName, byteCountSpeedPadding, numEvents.
  rewrite Next_enough by lia.
  unfold index. change (8 - 1)%nat with 7%nat.
  rewrite lookup_take_lt by lia. rewrite lookup_drop, Ht, Hterm.
  cbn [negb]. rewrite set_index_lt by exact Hh.
  rewrite Next_enough by (simpl; lia).
  rewrite Next_enough by (simpl; lia).
  rewrite Next_enough by (simpl; lia).
  match goal with
  | |- context [loadEvents 144 0 ?r' ∅] =>
      destruct (loadEvents_runs 144 0 r' ∅) as (r2 & ev & ->); [simpl; lia|]
  end.
  rewrite set_index_lt by exact Hri. eauto.
Qed.

Lemma loadRecords_runs (hashIdx : nat) (n : nat) :
  forall (recordIdx : nat) (r : Reader) (ad : AnimationData)
         (rs : list (option AnimationDataRecord)),
  recordsLaidOut (buffer r) n (Position r) = true ->
  (Position r + recordSize * n <= length (buffer r))%nat ->
  (recordIdx + n <= length rs)%nat -> (hashIdx < length (hashTable ad))%nat ->
  exists st, loadRecords n recordIdx hashIdx (r, ad, rs) = Ok st.
Proof.
  induction n as [|n IH]; intros recordIdx r ad rs Hl Hle Hri Hh;
    cbn [loadRecords recordsLaidOut] in *; [eauto|].
  apply andb_prop in Hl as [Hterm Hl].
  destruct (loadRecord_runs recordIdx hashIdx r ad rs) as [[[r1 ad1] rs1] E1];
    [exact Hterm|lia|lia|exact Hh|].
  rewrite E1.
  pose proof (loadRecord_layout _ _ _ _ _ _ _ _ E1) as (Hb & Hp & _).
  apply loadRecord_Ok in E1 as (rec & _ & -> & _ & _ & Ht & _).
  apply IH.
  - rewrite Hb, Hp. exact Hl.
  - rewrite Hb, Hp. lia.
  - rewrite length_insert. lia.
  - rewrite Ht, length_insert. exact Hh.
Qed.

Lemma loadRecords_laidOut (hashIdx : nat) (n : nat) :
  forall (recordIdx : nat) (st : recordState) (r : Reader) (ad : AnimationData)
         (rs : list (option AnimationDataRecord)),
  loadRecords n recordIdx hashIdx (r, ad, rs) = Ok st ->
  recordsLaidOut (buffer r) n (Position r) = true.
Proof.
  induction n as [|n IH]; intros recordIdx st r ad rs E;
    cbn [loadRecords recordsLaidOut] in *; [reflexivity|].
  destruct (loadRecord recordIdx hashIdx (r, ad, rs)) as [[[r1 ad1] rs1]|?] eqn:E1;
    [|discriminate].
  apply loadRecord_layout in E1 as (Hb & Hp & _ & rec & _ & _ & (Hterm & _) & _).
  apply IH in E. rewrite Hb, Hp in E. rewrite E.
  unfold terminatedAt. rewrite Hterm. reflexivity.
Qed.

(** The block loop succeeds exactly when the bytes from the cursor on are
    laid out as its blocks, up to the end of the buffer. *)
Lemma loadBlocks_runs (hashIdx : nat) (n : nat) :
  forall (blockIdx : nat) (r : Reader) (ad : AnimationData),
  blocksLaidOut (buffer r) n (Position r) = true ->
  (blockIdx + n <= length (blocks ad))%nat ->
  (hashIdx < length (hashTable ad))%nat ->
  exists r' ad', loadBlocks n blockIdx hashIdx (r, ad) = Ok (r', ad')
                 /\ Position r' = length (buffer r).
Proof.
  induction n as [|n IH]; intros blockIdx r ad Hl Hbi Hh;
    cbn [loadBlocks blocksLaidOut] in *.
  - apply Nat.eqb_eq in Hl. eauto.
  - apply andb_prop in Hl as [Hl Hrest].
    apply andb_prop in Hl as [Hl Hrecs].
    apply andb_prop in Hl as [Hfour Hcount].
    apply Nat.leb_le in Hfour. apply Z.leb_le in Hcount.
    pose proof (blocksLaidOut_within _ _ _ Hrest) as Hend.
    assert (E1 : exists r1 ad1, loadBlock blockIdx hashIdx (r, ad) = Ok (r1, ad1)).
    { unfold loadBlock. rewrite Next_enough by exact Hfour.
      destruct (Z.ltb_spec maxRecordsPerBlock
                  (AsUInt32 (take 4 (drop (Position r) (buffer r)))));
        [lia|].
      match goal with
      | |- context [loadRecords ?k 0 hashIdx (?r', ad, ?rs')] =>
          destruct (loadRecords_runs hashIdx k 0 r' ad rs')
            as [[[r2 ad2] rs2] E2]
      end.
      - exact Hrecs.
      - cbn [buffer Position]. lia.
      - rewrite length_replicate. lia.
      - exact Hh.
      - rewrite E2. apply loadRecords_Ok in E2 as (_ & _ & _ & Hbl & _).
        rewrite set_index_lt by (rewrite Hbl; lia). eauto. }
    destruct E1 as (r1 & ad1 & E1). rewrite E1.
    pose proof (loadBlock_layout _ _ _ _ _ _ E1)
      as (Hb & _ & b & _ & _ & (Hc & _ & news & Hrs & Hn & _) & Hp & _).
    apply loadBlock_Ok in E1 as (b' & _ & _ & Hbl & Hlt & _).
    cbn [blockRecords] in Hp. rewrite Hrs, omap_id_map_Some, Hn, Hc in Hp.
    destruct (IH (S blockIdx) r1 ad1) as (r' & ad' & E & Hpos).
    + rewrite Hb, Hp. exact Hrest.
    + rewrite Hbl, length_insert. lia.
    + rewrite Hlt. exact Hh.
    + exists r', ad'. rewrite <- Hb. auto.
Qed.

Lemma loadBlocks_laidOut (hashIdx : nat) (n : nat) :
  forall (blockIdx : nat) (r r' : Reader) (ad ad' : AnimationData),
  loadBlocks n blockIdx hashIdx (r, ad) = Ok (r', ad') ->
  Position r' = length (buffer r) ->
  blocksLaidOut (buffer r) n (Position r) = true.
Proof.
  induction n as [|n IH]; intros blockIdx r r' ad ad' E Hpos;
    cbn [loadBlocks blocksLaidOut] in *.
  - inversion E; subst. apply Nat.eqb_eq. exact Hpos.
  - destruct (loadBlock blockIdx hashIdx (r, ad)) as [[r1 ad1]|?] eqn:E1;
      [|discriminate].
    pose proof (loadBlock_layout _ _ _ _ _ _ E1)
      as (Hb & _ & b & _ & _ & (Hc & Hle & news & Hrs & Hn & _) & Hp & _).
    cbn [blockRecords] in Hp. rewrite Hrs, omap_id_map_Some, Hn, Hc in Hp.
    apply IH in E; [|rewrite Hb; exact Hpos]. rewrite Hb, Hp in E. rewrite E.
    rewrite Hc in Hle.
    unfold loadBlock in E1.
    destruct (Next 4 r) as [[countBits r0]|?] eqn:EN; [|discriminate].
    apply Next_Ok in EN as (Hb0 & Hp0 & -> & Hfour & _).
    destruct (_ <? _); [discriminate|].
    destruct (loadRecords _ _ _ _) as [[[r2 ad2] rs2]|?] eqn:ER; [|discriminate].
    apply loadRecords_laidOut in ER. rewrite Hb0, Hp0 in ER. rewrite ER.
    rewrite (proj2 (Nat.leb_le _ _) Hfour), (proj2 (Z.leb_le _ _) Hle).
    reflexivity.
Qed.

End LoadAccepts.

(** X14. [Load] accepts a buffer exactly when it consists of 256 blocks and
    nothing else, where a block is a four-byte count of at most 67 followed
    by that many records of 160 bytes whose eighth byte is zero.  Nothing
    else of the bytes matters: not the names nor the frame counts, the
    speeds, the padding or the event bytes. *)
Theorem Load_accepts `{IntegerReading} `{NameHash} (data : list byte) :
  (exists ad, Load data = (Some ad, None))
  <-> blocksLaidOut data numBlocks 0 = true.
Proof.
  split.
  - intros [ad E]. apply Load_Some in E as (reader & E & Hpos).
    apply (loadBlocks_laidOut _ _ _ _ _ _ _ E). exact Hpos.
  - intros Hl.
    destruct (loadBlocks_runs 0 numBlocks 0 (FromBytes data) newAnimationData)
      as (r' & ad' & E & Hpos).
    + exact Hl.
    + change (blocks newAnimationData) with (replicate numBlocks (@None block)).
      rewrite length_replicate. lia.
    + change (hashTable newAnimationData) with (replicate hashTableSize 0).
      rewrite length_replicate. apply hashTableSize_pos.
    + exists ad'. apply Load_Some. eauto.
Qed.

(** ** Long weapon-class codes *)

(** X15. For a layer whose weapon-class code has four characters or more,
    all below U+0080, the loop of [Marshal] over the code writes its first
    four characters, one more than [maxCodeLength]: the descriptor is the
    five attribute bytes, four characters and the zero byte, ten bytes
    instead of the nine of the file format. *)
Theorem Marshal_long_weapon_code `{WeaponClasses} (sw : Writer) (layer : CofLayer) :
  let code := WeaponClass_String (WeaponClass_ layer) in
  isASCII code = true -> (maxCodeLength < String.length code)%nat ->
  writeLayer sw layer
  = sw ++ layerAttributes layer ++ take 4 (bytes_of_string code) ++ [x00] /\
  length (writeLayer [] layer) = (numLayerBytes + 1)%nat.
Proof.
  intros code _ Hlong. unfold maxCodeLength in Hlong.
  split; [apply writeLayer_eq|].
  rewrite writeLayer_eq. fold code. unfold layerAttributes.
  rewrite !length_app, length_take, length_bytes_of_string.
  unfold numLayerBytes. cbn [length]. lia.
Qed.

Lemma Marshal_long_weapon_code_witness :
  writeLayer [] longCodeLayer
  = ([x01; x00; x00; x00; x00] ++ ["a"; "b"; "c"; "d"] ++ [x00])%byte /\
  length (writeLayer [] longCodeLayer) = 10%nat.
Proof.
  destruct (Marshal_long_weapon_code [] longCodeLayer) as [Heq Hlen].
  - reflexivity.
  - vm_compute. lia.
  - split; [rewrite Heq; reflexivity|exact Hlen].
Defined.


(** ** A name field without terminator *)

Section Unterminated.
Context `{IntegerReading} `{NameHash}.

(** Running [k + m] iterations of the record loop is running [k] and then
    [m]. *)
Lemma loadRecords_add (hashIdx : nat) (k m : nat) :
  forall (recordIdx : nat) (st : recordState),
  loadRecords (k + m) recordIdx hashIdx st =
  match loadRecords k recordIdx hashIdx st with
  | Err e => Err e
  | Ok st' => loadRecords m (recordIdx + k) hashIdx st'
  end.
Proof.
  induction k as [|k IH]; simpl; intros recordIdx st.
  - rewrite Nat.add_0_r. reflexivity.
  - destruct (loadRecord recordIdx hashIdx st) as [st1|e]; [|reflexivity].
    rewrite IH. replace (S recordIdx + k)%nat with (recordIdx + S k)%nat by lia.
    reflexivity.
Qed.

(** An iteration of the record loop on a name field whose eighth byte is
    there and is not zero fails with the error of the missing terminator. *)
Lemma loadRecord_unterminated (recordIdx hashIdx : nat) (r : Reader)
    (ad : AnimationData) (rs : list (option AnimationDataRecord)) :
  (Position r + byteCountName <= length (buffer r))%nat ->
  terminatedAt (buffer r) (Position r) = false ->
  loadRecord recordIdx hashIdx (r, ad, rs) = Err ErrMissingTerminator.
Proof.
  unfold terminatedAt, byteCountName. intros Hle Hterm.
  destruct (lookup_lt_is_Some_2 (buffer r) (Position r + 7)) as [t Ht]; [lia|].
  rewrite Ht in Hterm.
  unfold loadRecord, byteCountName. rewrite Next_enough by lia.
  unfold index. change (8 - 1)%nat with 7%nat.
  rewrite lookup_take_lt by lia. rewrite lookup_drop, Ht, Hterm. reflexivity.
Qed.

End Unterminated.

(** X16. When the blocks before block [k] have been read, block [k]
    declares a count within the limit, the name fields of its first [j]
    records are terminated and the eight bytes of the name field of its
    record [j] are there with a last byte that is not zero, [Load] fails
    with the error of the missing terminator. *)
Theorem Load_missing_terminator `{IntegerReading} `{NameHash}
    (data : list byte) (k j : nat) (reader : Reader) (ad : AnimationData) :
  let off := Position reader in
  let count := AsUInt32 (take 4 (drop off data)) in
  let p := (off + 4 + recordSize * j)%nat in
  (k < numBlocks)%nat ->
  loadBlocks k 0 0 (FromBytes data, newAnimationData) = Ok (reader, ad) ->
  count <= maxRecordsPerBlock -> (j < Z.to_nat count)%nat ->
  recordsLaidOut data j (off + 4) = true ->
  (p + byteCountName <= length data)%nat ->
  terminatedAt data p = false ->
  Load data = (None, Some ErrMissingTerminator).
Proof.
  intros off count p Hk Hprefix Hcount Hj Hlaid Hle Hterm.
  pose proof (loadBlocks_layout _ _ _ _ _ _ _ Hprefix) as (Hb & _).
  pose proof (loadBlocks_Ok _ _ _ _ _ _ _ Hprefix) as (_ & _ & _ & _ & Hh & _).
  change (hashTable newAnimationData) with (replicate hashTableSize 0) in Hh.
  rewrite length_replicate in Hh. pose proof hashTableSize_pos as Hpos.
  cbn [buffer FromBytes] in Hb.
  unfold Load.
  replace numBlocks with (k + S (numBlocks - k - 1))%nat by lia.
  rewrite loadBlocks_add, Hprefix. cbn [loadBlocks].
  assert (E : loadBlock (0 + k) 0 (reader, ad) = Err ErrMissingTerminator).
  { unfold loadBlock. unfold p, byteCountName in Hle.
    rewrite Next_enough by (rewrite Hb; fold off; lia).
    rewrite Hb. fold off. fold count.
    destruct (Z.ltb_spec maxRecordsPerBlock count); [lia|].
    replace (Z.to_nat count) with (j + S (Z.to_nat count - j - 1))%nat at 1 by lia.
    rewrite loadRecords_add.
    match goal with
    | |- context [loadRecords j 0 0 (?r', ad, ?rs')] =>
        destruct (loadRecords_runs 0 j 0 r' ad rs') as [[[r2 ad2] rs2] E2]
    end.
    - cbn [buffer Position]. exact Hlaid.
    - cbn [buffer Position]. lia.
    - rewrite length_replicate. lia.
    - lia.
    - rewrite E2.
      apply loadRecords_layout in E2 as (Hb2 & Hp2 & _).
      cbn [buffer Position] in Hb2, Hp2. cbn [loadRecords].
      rewrite loadRecord_unterminated; [reflexivity| |].
      + rewrite Hb2, Hp2. unfold byteCountName. lia.
      + rewrite Hb2, Hp2. exact Hterm. }
  rewrite E. reflexivity.
Qed.

Lemma Load_missing_terminator_witness :
  Load unterminatedData = (None, Some ErrMissingTerminator).
Proof.
  apply (Load_missing_terminator unterminatedData 0 0
           (FromBytes unterminatedData) newAnimationData).
  - unfold numBlocks. lia.
  - reflexivity.
  - vm_compute. discriminate.
  - vm_compute. lia.
  - reflexivity.
  - apply Nat.leb_le. vm_compute. reflexivity.
  - vm_compute. reflexivity.
Defined.

(** ** A block of the largest size *)

(** A file whose block 0 declares 67 records, and holds them, is read. *)
Example Load_block_of_67_records :
  snd (Load fullBlockData) = None /\
  map (fun ob => recordCount <$> ob) (take 2 (blocks (storeOf fullBlockData)))
    = [Some 67; Some 0].
Proof. vm_compute. split; reflexivity. Qed.

